(** * pump.fun signal detection and paper trading: shallow embedding

    The TypeScript sources under [src/] are embedded as Rocq functions.

    Conventions of the embedding:
    - a JavaScript [number] that holds a count or a millisecond timestamp
      is a [Z]; one that holds a SOL amount, a price or a ratio is an exact
      rational in lowest terms, [Qc] (rounding of IEEE doubles is not
      modelled, and a division by zero gives 0); [a > b] is written [b < a];
    - [Date.now()] is the explicit argument [now]; one call of a public
      method reads one clock value;
    - every class keeps its mutable fields in a record and every method
      takes the record and returns the updated one;
    - [PaperPosition] objects are shared between the maps of the position
      manager, its archive and the callers, so they live in an object store
      ([heap]) and are passed around as addresses;
    - a [Map] or [Set] is a [gmap] or [gset]; where the code iterates over
      a [Map], in insertion order, the model iterates over [map_to_list], in
      the order of the keys;
    - a [TokenTracker] is referred to by its key in the registry, the token
      address;
    - the logger and the event bus only observe the state and are left out;
    - [Math.sqrt], [Number.prototype.toFixed] and [Number.prototype.toString]
      are builtins of the JavaScript runtime, taken as the methods of the
      class [JSRuntime]. *)

From Stdlib Require Import ZArith QArith Qcanon Qround Lia Lqa Sorted.
From stdpp Require Import gmap strings list fin_maps pretty sorting.

Local Open Scope string_scope.
Local Open Scope list_scope.
Local Open Scope Z_scope.

(** ** The JavaScript runtime *)

Class JSRuntime := {
  Math_sqrt : Qc → Qc;
  toFixed : Qc → nat → string;
  Number_toString : Qc → string;
}.

(** [Math.max] of two numbers. *)
Definition Math_max (a b : Qc) : Qc := if bool_decide (a ≤ b)%Qc then b else a.

(** A number that may be [Infinity] (mean interval of fewer than two
    transactions). *)
Inductive ExtNumber :=
| Finite (q : Qc)
| Infinity.

Definition ext_ltb (x : ExtNumber) (b : Qc) : bool :=
  match x with
  | Finite q => bool_decide (q < b)%Qc
  | Infinity => false
  end.

(** [Math.min], [Math.abs] and [Math.round] (to the nearest integer, a half
    rounds up). *)
Definition Math_min (a b : Qc) : Qc := if bool_decide (a ≤ b)%Qc then a else b.

Definition Math_abs (a : Qc) : Qc := if bool_decide (a < 0)%Qc then (- a)%Qc else a.

Definition Math_round (a : Qc) : Z := Qfloor (a + Q2Qc (1 # 2))%Qc.

(** ** types.ts *)

Record Transaction := {
  tx_tokenAddress : string;
  tx_timestamp : Z;
  tx_buyerWallet : string;
  tx_solAmount : Qc;
  tx_txHash : string;
}.

Record RollingMetrics := {
  txCount30s : Z;
  txCount60s : Z;
  txCount180s : Z;
  txCountPrev60s : Z;
  buyers5m : Z;
  repeatBuyers : Z;
  avgBuySize : Qc;
  buySizeStd : Qc;
  largestBuy : Qc;
  txIntervalMean : ExtNumber;
  txIntervalDelta : bool;
  txAcceleration : Z;
}.

Inductive Status := open | partial | closed.

Global Instance Status_eq_dec : EqDecision Status.
Proof. solve_decision. Defined.

Inductive ExitReason :=
| profit_target_partial
| profit_target_full
| no_activity_60s
| tx_decrease_twice
| stagnation_after_spike
| kill_switch_no_tx
| kill_switch_whale
| kill_switch_dev.

Global Instance ExitReason_eq_dec : EqDecision ExitReason.
Proof. solve_decision. Defined.

Record PaperPosition := {
  pos_id : string;
  pos_tokenAddress : string;
  entryTimestamp : Z;
  entryPrice : Qc;
  entryScore : Z;
  positionSizeSOL : Qc;
  remainingSizeSOL : Qc;
  status : Status;
  partialExitTimestamp : option Z;
  partialExitPrice : option Qc;
  exitTimestamp : option Z;
  exitPrice : option Qc;
  exitReason : option ExitReason;
  maxUnrealizedPnL : Qc;
  realizedPnL : Qc;
}.

Record FilterResult := {
  fr_passed : bool;
  fr_reason : option string;
}.

Record SignalEvaluation := {
  easPassed : bool;
  lsfPassed : bool;
  mcPassed : bool;
  allPassed : bool;
}.

(** ** config.ts *)

Module CONFIG.
Definition maxTokenAgeMinutes : Z := 20.
Definition minBuyersAfter5Min : Z := 2.

Module windows.
Definition short : Z := 30 * 1000.
Definition medium : Z := 60 * 1000.
Definition long : Z := 180 * 1000.
Definition buyers : Z := 5 * 60 * 1000.
End windows.

Module filters.
Definition maxLargestBuy : Qc := Qc_of_Z 2.
Definition maxAvgBuySize : Qc := Q2Qc (8 # 10).
Definition minAvgBuySize : Qc := Q2Qc (3 # 100).
Definition maxDevBuys : Z := 1.
Definition maxMetadataEdits : Z := 1.
End filters.

Module signals.
Definition minBuyers5m : Z := 6.
Definition maxTxIntervalMean : Qc := Qc_of_Z 20.
Definition minAvgBuySize : Qc := Q2Qc (5 # 100).
Definition maxAvgBuySize : Qc := Q2Qc (5 # 10).
Definition maxLargestBuy : Qc := Qc_of_Z 2.
Definition minTxCount60s : Z := 5.
End signals.

Module entry.
Definition minScore : Z := 18.
Definition minTokenAgeMinutes : Z := 2.
Definition maxTokenAgeMinutes : Z := 12.
Definition minMarketCapSOL : Qc := Qc_of_Z 3000.
Definition maxMarketCapSOL : Qc := Qc_of_Z 15000.
Definition positionSizeSOL : Qc := Qc_of_Z 1.
End entry.

Module exit.
Definition partialProfitPercent : Qc := Qc_of_Z 120.
Definition fullProfitPercent : Qc := Qc_of_Z 220.
Definition partialExitPercent : Qc := Qc_of_Z 50.
Definition noActivitySeconds : Z := 60.
Definition txDecreaseThreshold : Z := 2.
End exit.

Module killSwitch.
Definition noTxSeconds : Z := 60.
Definition whaleBuyThreshold : Qc := Qc_of_Z 3.
End killSwitch.

Module scoring.
Definition buyersWeight : Z := 2.
Definition accelerationWeight : Z := 3.
Definition repeatBuyersWeight : Z := 2.
Definition largestBuyPenalty : Z := 5.
Definition stagnationPenalty : Z := 10.
Definition recalcIntervalMs : Z := 10000.
End scoring.
End CONFIG.

(** ** utils/ringBuffer.ts: [RingBuffer] *)

Module RingBuffer.
Section RingBuffer.
Context {T : Type} (timestamp : T → Z).

Record t := {
  buffer : list T;
  windowMs : Z;
}.

Definition new (windowMs : Z) : t := {| buffer := []; windowMs := windowMs |}.

(** The [while] loop of [evictOld]: the index of the first item that is not
    older than the cutoff, or the length of the buffer. *)
Fixpoint firstValidIndex (cutoff : Z) (buffer : list T) : nat :=
  match buffer with
  | [] => 0
  | item :: rest =>
      if bool_decide (timestamp item < cutoff) then S (firstValidIndex cutoff rest)
      else 0
  end.

Definition evictOld (now : Z) (b : t) : t :=
  let cutoff := now - windowMs b in
  let i := firstValidIndex cutoff (buffer b) in
  if bool_decide (0 < i)%nat
  then {| buffer := drop i (buffer b); windowMs := windowMs b |}
  else b.

Definition add (now : Z) (item : T) (b : t) : t :=
  evictOld now {| buffer := buffer b ++ [item]; windowMs := windowMs b |}.

Definition getAll (now : Z) (b : t) : list T * t :=
  let b := evictOld now b in (buffer b, b).

Definition count (now : Z) (b : t) : Z * t :=
  let b := evictOld now b in (Z.of_nat (length (buffer b)), b).

Definition getInRange (now : Z) (startMsAgo endMsAgo : Z) (b : t) : list T * t :=
  let startTime := now - startMsAgo in
  let endTime := now - endMsAgo in
  let b := evictOld now b in
  (filter (λ item, startTime ≤ timestamp item ∧ timestamp item ≤ endTime) (buffer b), b).

Definition countInRange (now : Z) (startMsAgo endMsAgo : Z) (b : t) : Z * t :=
  let '(items, b) := getInRange now startMsAgo endMsAgo b in
  (Z.of_nat (length items), b).

Definition getLast (now : Z) (b : t) : option T * t :=
  let b := evictOld now b in (last (buffer b), b).

Definition getFirst (now : Z) (b : t) : option T * t :=
  let b := evictOld now b in (head (buffer b), b).

Definition clear (b : t) : t := {| buffer := []; windowMs := windowMs b |}.

Definition isEmpty (now : Z) (b : t) : bool * t :=
  let b := evictOld now b in (bool_decide (length (buffer b) = 0%nat), b).

End RingBuffer.
End RingBuffer.

Arguments RingBuffer.t : clear implicits.

(** ** utils/ringBuffer.ts: [MultiWindowBuffer] *)

(** [[...txs].sort((a, b) => a.timestamp - b.timestamp)]: a stable sort by
    timestamp. *)
Fixpoint insertByTimestamp (tx : Transaction) (l : list Transaction)
  : list Transaction :=
  match l with
  | [] => [tx]
  | y :: l' =>
      if bool_decide (tx_timestamp tx < tx_timestamp y)
      then tx :: y :: l'
      else y :: insertByTimestamp tx l'
  end.

Definition sortByTimestamp (l : list Transaction) : list Transaction :=
  foldr insertByTimestamp [] (reverse l).

(** Sum of the gaps between neighbours of a list of timestamps. *)
Fixpoint totalInterval (ts : list Z) : Z :=
  match ts with
  | a :: ((b :: _) as rest) => (b - a) + totalInterval rest
  | _ => 0
  end.

Module MultiWindowBuffer.

Record t := {
  transactions : list Transaction;
  maxWindowMs : Z;
}.

Definition new (maxWindowMs : Z) : t :=
  {| transactions := []; maxWindowMs := maxWindowMs |}.

Definition evictOld (now : Z) (b : t) : t :=
  let cutoff := now - maxWindowMs b in
  {| transactions := filter (λ tx, cutoff ≤ tx_timestamp tx) (transactions b);
     maxWindowMs := maxWindowMs b |}.

Definition add (now : Z) (tx : Transaction) (b : t) : t :=
  evictOld now
    {| transactions := transactions b ++ [tx]; maxWindowMs := maxWindowMs b |}.

Definition getWindow (now : Z) (windowMs : Z) (b : t) : list Transaction :=
  let cutoff := now - windowMs in
  filter (λ tx, cutoff ≤ tx_timestamp tx) (transactions b).

Definition countWindow (now : Z) (windowMs : Z) (b : t) : Z :=
  Z.of_nat (length (getWindow now windowMs b)).

Definition getRange (now : Z) (startMsAgo endMsAgo : Z) (b : t)
  : list Transaction :=
  let startTime := now - startMsAgo in
  let endTime := now - endMsAgo in
  filter (λ tx, startTime ≤ tx_timestamp tx ∧ tx_timestamp tx ≤ endTime)
         (transactions b).

Definition countRange (now : Z) (startMsAgo endMsAgo : Z) (b : t) : Z :=
  Z.of_nat (length (getRange now startMsAgo endMsAgo b)).

Definition getUniqueBuyers (now : Z) (windowMs : Z) (b : t) : gset string :=
  list_to_set (tx_buyerWallet <$> getWindow now windowMs b).

(** The [buyerCounts] map built by the first loop of [getRepeatBuyers]. *)
Definition countBuyers (txs : list Transaction) : gmap string Z :=
  foldl (λ buyerCounts tx,
           <[tx_buyerWallet tx :=
               default 0 (buyerCounts !! tx_buyerWallet tx) + 1]> buyerCounts)
        ∅ txs.

Definition getRepeatBuyers (now : Z) (windowMs : Z) (b : t) : Z :=
  let buyerCounts := countBuyers (getWindow now windowMs b) in
  Z.of_nat (length (filter (λ kv : string * Z, 2 ≤ kv.2)
                           (map_to_list buyerCounts))).

Definition getBuySizeStats {rt : JSRuntime} (now : Z) (windowMs : Z) (b : t)
  : Qc * Qc * Qc :=
  let txs := getWindow now windowMs b in
  match tx_solAmount <$> txs with
  | [] => (0%Qc, 0%Qc, 0%Qc)
  | a0 :: rest =>
      let amounts := a0 :: rest in
      let n := Qc_of_Z (Z.of_nat (length amounts)) in
      let sum := foldl Qcplus 0%Qc amounts in
      let avg := (sum / n)%Qc in
      let max := foldl Math_max a0 rest in
      let squaredDiffs := (λ x, (x - avg) * (x - avg))%Qc <$> amounts in
      let avgSquaredDiff := (foldl Qcplus 0%Qc squaredDiffs / n)%Qc in
      let std := Math_sqrt avgSquaredDiff in
      (avg, std, max)
  end.

Definition getTxIntervalMean (now : Z) (windowMs : Z) (b : t) : ExtNumber :=
  let txs := getWindow now windowMs b in
  if bool_decide (length txs < 2)%nat then Infinity
  else
    let sorted := sortByTimestamp txs in
    let total := totalInterval (tx_timestamp <$> sorted) in
    Finite (Qc_of_Z total / Qc_of_Z (Z.of_nat (length sorted) - 1) / Qc_of_Z 1000)%Qc.

Definition getTxIntervalDelta (now : Z) (b : t) : bool :=
  let recentTxs := getWindow now 60000 b in
  if bool_decide (length recentTxs < 3)%nat then false
  else
    let sorted := sortByTimestamp recentTxs in
    match reverse (tx_timestamp <$> sorted) with
    | t1 :: t2 :: t3 :: _ =>
        let currentInterval := t1 - t2 in
        let previousInterval := t2 - t3 in
        bool_decide (currentInterval < previousInterval)
    | _ => false
    end.

Definition getAll (now : Z) (b : t) : list Transaction * t :=
  let b' := evictOld now b in (transactions b', b').

Definition getLast (now : Z) (b : t) : option Transaction * t :=
  let b' := evictOld now b in (last (transactions b'), b').

Definition clear (b : t) : t :=
  {| transactions := []; maxWindowMs := maxWindowMs b |}.

End MultiWindowBuffer.

(** ** core/tokenTracker.ts *)

(** Truthiness of an optional string ([undefined] and the empty string are
    falsy). *)
Definition truthy_string (s : option string) : bool :=
  match s with
  | Some w => negb (bool_decide (w = ""))
  | None => false
  end.

Module TokenTracker.

Record t := {
  tokenAddress : string;
  firstSeenTimestamp : Z;
  buffer : MultiWindowBuffer.t;
  uniqueBuyers : gset string;
  dropped : bool;
  dropReason : option string;
  metadataEditCount : Z;
  devWallet : option string;
  devBuyCount : Z;
  lastTxTimestamp : Z;
}.

Definition addTransaction (now : Z) (tx : Transaction) (tr : t) : t :=
  if dropped tr then tr
  else
    let buffer' := MultiWindowBuffer.add now tx (buffer tr) in
    let uniqueBuyers' := uniqueBuyers tr ∪ {[ tx_buyerWallet tx ]} in
    let '(devWallet', devBuyCount') :=
      if negb (truthy_string (devWallet tr)) then
        (Some (tx_buyerWallet tx), 1)
      else if bool_decide (Some (tx_buyerWallet tx) = devWallet tr) then
        (devWallet tr, devBuyCount tr + 1)
      else (devWallet tr, devBuyCount tr) in
    {| tokenAddress := tokenAddress tr;
       firstSeenTimestamp := firstSeenTimestamp tr;
       buffer := buffer';
       uniqueBuyers := uniqueBuyers';
       dropped := dropped tr;
       dropReason := dropReason tr;
       metadataEditCount := metadataEditCount tr;
       devWallet := devWallet';
       devBuyCount := devBuyCount';
       lastTxTimestamp := tx_timestamp tx |}.

(** The constructor. *)
Definition new (now : Z) (tokenAddress : string) (firstTx : Transaction) : t :=
  addTransaction now firstTx
    {| tokenAddress := tokenAddress;
       firstSeenTimestamp := tx_timestamp firstTx;
       buffer := MultiWindowBuffer.new CONFIG.windows.buyers;
       uniqueBuyers := ∅;
       dropped := false;
       dropReason := None;
       metadataEditCount := 0;
       devWallet := None;
       devBuyCount := 0;
       lastTxTimestamp := tx_timestamp firstTx |}.

Definition recordMetadataEdit (tr : t) : t :=
  {| tokenAddress := tokenAddress tr;
     firstSeenTimestamp := firstSeenTimestamp tr;
     buffer := buffer tr;
     uniqueBuyers := uniqueBuyers tr;
     dropped := dropped tr;
     dropReason := dropReason tr;
     metadataEditCount := metadataEditCount tr + 1;
     devWallet := devWallet tr;
     devBuyCount := devBuyCount tr;
     lastTxTimestamp := lastTxTimestamp tr |}.

Definition getAgeMs (now : Z) (tr : t) : Z := now - firstSeenTimestamp tr.

Definition getAgeMinutes (now : Z) (tr : t) : Qc :=
  (Qc_of_Z (getAgeMs now tr) / Qc_of_Z (60 * 1000))%Qc.

Definition isExpired (now : Z) (tr : t) : bool :=
  bool_decide (Qc_of_Z CONFIG.maxTokenAgeMinutes < getAgeMinutes now tr)%Qc.

Definition shouldDropInactivity (now : Z) (tr : t) : bool :=
  if bool_decide (Qc_of_Z 5 ≤ getAgeMinutes now tr)%Qc
     && bool_decide (Z.of_nat (size (uniqueBuyers tr)) < CONFIG.minBuyersAfter5Min)
  then true else false.

Definition drop (reason : string) (tr : t) : t :=
  if negb (dropped tr) then
    {| tokenAddress := tokenAddress tr;
       firstSeenTimestamp := firstSeenTimestamp tr;
       buffer := buffer tr;
       uniqueBuyers := uniqueBuyers tr;
       dropped := true;
       dropReason := Some reason;
       metadataEditCount := metadataEditCount tr;
       devWallet := devWallet tr;
       devBuyCount := devBuyCount tr;
       lastTxTimestamp := lastTxTimestamp tr |}
  else tr.

Definition calculateMetrics {rt : JSRuntime} (now : Z) (tr : t) : RollingMetrics :=
  let b := buffer tr in
  let txCount30s := MultiWindowBuffer.countWindow now CONFIG.windows.short b in
  let txCount60s := MultiWindowBuffer.countWindow now CONFIG.windows.medium b in
  let txCount180s := MultiWindowBuffer.countWindow now CONFIG.windows.long b in
  let txCountPrev60s := MultiWindowBuffer.countRange now 120000 60000 b in
  let buyers5m :=
    Z.of_nat (size (MultiWindowBuffer.getUniqueBuyers now CONFIG.windows.buyers b)) in
  let repeatBuyers := MultiWindowBuffer.getRepeatBuyers now CONFIG.windows.buyers b in
  let '(avg, std, max) := MultiWindowBuffer.getBuySizeStats now CONFIG.windows.long b in
  let txIntervalMean := MultiWindowBuffer.getTxIntervalMean now CONFIG.windows.medium b in
  let txIntervalDelta := MultiWindowBuffer.getTxIntervalDelta now b in
  let txAcceleration := txCount60s - txCountPrev60s in
  {| txCount30s := txCount30s;
     txCount60s := txCount60s;
     txCount180s := txCount180s;
     txCountPrev60s := txCountPrev60s;
     buyers5m := buyers5m;
     repeatBuyers := repeatBuyers;
     avgBuySize := avg;
     buySizeStd := std;
     largestBuy := max;
     txIntervalMean := txIntervalMean;
     txIntervalDelta := txIntervalDelta;
     txAcceleration := txAcceleration |}.

(** The getters [uniqueBuyerCount] and [transactionCount]. *)
Definition uniqueBuyerCount (tr : t) : Z := Z.of_nat (size (uniqueBuyers tr)).

Definition transactionCount (now : Z) (tr : t) : Z * t :=
  let '(all, buffer') := MultiWindowBuffer.getAll now (buffer tr) in
  (Z.of_nat (length all),
   {| tokenAddress := tokenAddress tr;
      firstSeenTimestamp := firstSeenTimestamp tr;
      buffer := buffer';
      uniqueBuyers := uniqueBuyers tr;
      dropped := dropped tr;
      dropReason := dropReason tr;
      metadataEditCount := metadataEditCount tr;
      devWallet := devWallet tr;
      devBuyCount := devBuyCount tr;
      lastTxTimestamp := lastTxTimestamp tr |}).

End TokenTracker.

Module TokenRegistry.

(** [trackers: Map<string, TokenTracker>]. *)
Definition t := gmap string TokenTracker.t.

(** Returns the registry and the tracker of the transaction's token (which
    the registry holds under that token's address). *)
Definition processTransaction (now : Z) (tx : Transaction) (reg : gmap string TokenTracker.t)
  : gmap string TokenTracker.t * TokenTracker.t :=
  match reg !! tx_tokenAddress tx with
  | None =>
      let tracker := TokenTracker.new now (tx_tokenAddress tx) tx in
      (<[tx_tokenAddress tx := tracker]> reg, tracker)
  | Some tracker =>
      let tracker' := TokenTracker.addTransaction now tx tracker in
      (<[tx_tokenAddress tx := tracker']> reg, tracker')
  end.

Definition getTracker (tokenAddress : string) (reg : gmap string TokenTracker.t)
  : option TokenTracker.t :=
  reg !! tokenAddress.

(** The active trackers, as references (token addresses). *)
Definition getActiveTrackers (now : Z) (reg : gmap string TokenTracker.t)
  : list string :=
  (filter (λ kv : string * TokenTracker.t,
             TokenTracker.dropped kv.2 = false ∧ TokenTracker.isExpired now kv.2 = false)
          (map_to_list reg)).*1.

(** The periodic sweep: expired trackers are removed, inactive ones
    dropped. *)
Definition cleanup (now : Z) (reg : gmap string TokenTracker.t)
  : gmap string TokenTracker.t :=
  let swept :=
    (λ tr, if TokenTracker.isExpired now tr then tr
           else if negb (TokenTracker.dropped tr)
                   && TokenTracker.shouldDropInactivity now tr
                then TokenTracker.drop "insufficient_buyers_after_5m" tr
                else tr) <$> reg in
  filter (λ kv : string * TokenTracker.t, TokenTracker.isExpired now kv.2 = false) swept.

Definition getAllTrackers (reg : gmap string TokenTracker.t) : list string :=
  (map_to_list reg).*1.

Definition activeCount (now : Z) (reg : gmap string TokenTracker.t) : Z :=
  Z.of_nat (length (getActiveTrackers now reg)).

Definition clear (reg : gmap string TokenTracker.t) : gmap string TokenTracker.t := ∅.

End TokenRegistry.

(** ** core/filters.ts *)

(** [Array.prototype.push] guarded by a condition. *)
Definition push_if (c : bool) (msg : string) (reasons : list string) : list string :=
  if c then reasons ++ [msg] else reasons.

(** [Array.prototype.join]. *)
Definition join (sep : string) (l : list string) : string := String.concat sep l.

Section filters.
Context {rt : JSRuntime}.

Definition evaluateFilters (tracker : TokenTracker.t) (metrics : RollingMetrics)
    : FilterResult :=
    let reasons : list string := [] in
    let reasons :=
      push_if (bool_decide (CONFIG.filters.maxLargestBuy < largestBuy metrics)%Qc)
        ("largest_buy (" +:+ toFixed (largestBuy metrics) 3 +:+ " SOL) > "
           +:+ Number_toString CONFIG.filters.maxLargestBuy +:+ " SOL") reasons in
    let reasons :=
      push_if (bool_decide (CONFIG.filters.maxAvgBuySize < avgBuySize metrics)%Qc)
        ("avg_buy_size (" +:+ toFixed (avgBuySize metrics) 3 +:+ " SOL) > "
           +:+ Number_toString CONFIG.filters.maxAvgBuySize +:+ " SOL") reasons in
    let reasons :=
      push_if (bool_decide (0 < avgBuySize metrics)%Qc
               && bool_decide (avgBuySize metrics < CONFIG.filters.minAvgBuySize)%Qc)
        ("avg_buy_size (" +:+ toFixed (avgBuySize metrics) 3 +:+ " SOL) < "
           +:+ Number_toString CONFIG.filters.minAvgBuySize +:+ " SOL") reasons in
    let stdThreshold : Qc := Q2Qc (5 # 10) in
    let reasons :=
      push_if (bool_decide (stdThreshold < buySizeStd metrics)%Qc)
        ("buy_size_std (" +:+ toFixed (buySizeStd metrics) 3
           +:+ ") indicates whale noise") reasons in
    let reasons :=
      push_if (bool_decide (TokenTracker.devBuyCount tracker > CONFIG.filters.maxDevBuys))
        ("dev wallet bought "
           +:+ Number_toString (Qc_of_Z (TokenTracker.devBuyCount tracker))
           +:+ " times (max: "
           +:+ Number_toString (Qc_of_Z CONFIG.filters.maxDevBuys) +:+ ")") reasons in
    let reasons :=
      push_if (bool_decide (TokenTracker.metadataEditCount tracker
                            > CONFIG.filters.maxMetadataEdits))
        ("metadata edited "
           +:+ Number_toString (Qc_of_Z (TokenTracker.metadataEditCount tracker))
           +:+ " times (max: "
           +:+ Number_toString (Qc_of_Z CONFIG.filters.maxMetadataEdits) +:+ ")") reasons in
    let passed := bool_decide (length reasons = 0%nat) in
    {| fr_passed := passed;
       fr_reason := if passed then None else Some (join "; " reasons) |}.

Definition quickFilterTransaction (solAmount : Qc) : bool * option string :=
    if bool_decide (CONFIG.filters.maxLargestBuy < solAmount)%Qc then
      (false, Some ("single_buy_too_large: " +:+ toFixed solAmount 3 +:+ " SOL"))
    else (true, None).

End filters.

(** [isWhaleNoise]: a coefficient of variation above 1.5. *)
Definition isWhaleNoise (avgBuySize buySizeStd : Qc) : bool :=
  if bool_decide (avgBuySize = 0%Qc) then false
  else
    let cv := (buySizeStd / avgBuySize)%Qc in
    bool_decide (Q2Qc (15 # 10) < cv)%Qc.

(** ** core/signals.ts *)

Definition evaluateSignals (metrics : RollingMetrics) : SignalEvaluation :=
  let easBuyers := bool_decide (buyers5m metrics >= CONFIG.signals.minBuyers5m) in
  let easInterval := ext_ltb (txIntervalMean metrics) CONFIG.signals.maxTxIntervalMean in
  let easAcceleration := bool_decide (txAcceleration metrics > 0) in
  let easPassed := easBuyers && easInterval && easAcceleration in
  let lsfAvgMin := bool_decide (CONFIG.signals.minAvgBuySize ≤ avgBuySize metrics)%Qc in
  let lsfAvgMax := bool_decide (avgBuySize metrics ≤ CONFIG.signals.maxAvgBuySize)%Qc in
  let lsfStd := bool_decide (buySizeStd metrics < Q2Qc (3 # 10))%Qc in
  let lsfLargest := bool_decide (largestBuy metrics ≤ CONFIG.signals.maxLargestBuy)%Qc in
  let lsfPassed := lsfAvgMin && lsfAvgMax && lsfStd && lsfLargest in
  let mcTxCount := bool_decide (txCount60s metrics >= CONFIG.signals.minTxCount60s) in
  let mcIntervalDelta := txIntervalDelta metrics in
  let mcPassed := mcTxCount && mcIntervalDelta in
  let allPassed := easPassed && lsfPassed && mcPassed in
  {| easPassed := easPassed;
     lsfPassed := lsfPassed;
     mcPassed := mcPassed;
     allPassed := allPassed |}.

(** [>=] and [toFixed] on a number that may be [Infinity]. *)
Definition ext_geb (x : ExtNumber) (b : Qc) : bool :=
  match x with
  | Finite q => bool_decide (b ≤ q)%Qc
  | Infinity => true
  end.

Definition ext_toFixed {rt : JSRuntime} (x : ExtNumber) (d : nat) : string :=
  match x with
  | Finite q => toFixed q d
  | Infinity => "Infinity"
  end.

Section signal_reasons.
Context {rt : JSRuntime}.

Definition getSignalFailureReasons (evaluation : SignalEvaluation)
    (metrics : RollingMetrics) : list string :=
  let reasons : list string := [] in
  let reasons :=
    if negb (easPassed evaluation) then
      let reasons :=
        push_if (bool_decide (buyers5m metrics < CONFIG.signals.minBuyers5m))
          ("EAS: buyers_5m (" +:+ Number_toString (Qc_of_Z (buyers5m metrics)) +:+ ") < "
             +:+ Number_toString (Qc_of_Z CONFIG.signals.minBuyers5m)) reasons in
      let reasons :=
        push_if (ext_geb (txIntervalMean metrics) CONFIG.signals.maxTxIntervalMean)
          ("EAS: tx_interval_mean (" +:+ ext_toFixed (txIntervalMean metrics) 1 +:+ "s) >= "
             +:+ Number_toString CONFIG.signals.maxTxIntervalMean +:+ "s") reasons in
      push_if (bool_decide (txAcceleration metrics ≤ 0))
        ("EAS: tx_acceleration (" +:+ Number_toString (Qc_of_Z (txAcceleration metrics))
           +:+ ") <= 0") reasons
    else reasons in
  let reasons :=
    if negb (lsfPassed evaluation) then
      let reasons :=
        push_if (bool_decide (avgBuySize metrics < CONFIG.signals.minAvgBuySize)%Qc)
          ("LSF: avg_buy_size (" +:+ toFixed (avgBuySize metrics) 3 +:+ ") < "
             +:+ Number_toString CONFIG.signals.minAvgBuySize) reasons in
      let reasons :=
        push_if (bool_decide (CONFIG.signals.maxAvgBuySize < avgBuySize metrics)%Qc)
          ("LSF: avg_buy_size (" +:+ toFixed (avgBuySize metrics) 3 +:+ ") > "
             +:+ Number_toString CONFIG.signals.maxAvgBuySize) reasons in
      let reasons :=
        push_if (bool_decide (Q2Qc (3 # 10) ≤ buySizeStd metrics)%Qc)
          ("LSF: buy_size_std (" +:+ toFixed (buySizeStd metrics) 3 +:+ ") too high")
          reasons in
      push_if (bool_decide (CONFIG.signals.maxLargestBuy < largestBuy metrics)%Qc)
        ("LSF: largest_buy (" +:+ toFixed (largestBuy metrics) 3 +:+ ") > "
           +:+ Number_toString CONFIG.signals.maxLargestBuy) reasons
    else reasons in
  let reasons :=
    if negb (mcPassed evaluation) then
      let reasons :=
        push_if (bool_decide (txCount60s metrics < CONFIG.signals.minTxCount60s))
          ("MC: tx_count_60s (" +:+ Number_toString (Qc_of_Z (txCount60s metrics)) +:+ ") < "
             +:+ Number_toString (Qc_of_Z CONFIG.signals.minTxCount60s)) reasons in
      push_if (negb (txIntervalDelta metrics))
        "MC: tx_interval_delta is FALSE (no acceleration)" reasons
    else reasons in
  reasons.

End signal_reasons.

(** The result of [calculateSignalStrength]: an integer, or [-Infinity]. *)
Inductive SignalStrength :=
| Strength (n : Z)
| NegInfinity.

(** With a mean interval of [Infinity] the interval margin and every later
    sum are [-Infinity], which [Math.round] returns as it is. *)
Definition calculateSignalStrength (metrics : RollingMetrics)
    (evaluation : SignalEvaluation) : SignalStrength :=
  if negb (allPassed evaluation) then Strength 0
  else
    match txIntervalMean metrics with
    | Infinity => NegInfinity
    | Finite mean =>
        let strength := 0%Qc in
        let buyersExcess :=
          ((Qc_of_Z (buyers5m metrics) - Qc_of_Z CONFIG.signals.minBuyers5m)
           / Qc_of_Z CONFIG.signals.minBuyers5m)%Qc in
        let strength := (strength + Math_min (buyersExcess * Qc_of_Z 30) (Qc_of_Z 30))%Qc in
        let intervalMargin :=
          ((CONFIG.signals.maxTxIntervalMean - mean)
           / CONFIG.signals.maxTxIntervalMean)%Qc in
        let strength := (strength + Math_min (intervalMargin * Qc_of_Z 20) (Qc_of_Z 20))%Qc in
        let accelStrength :=
          (Math_min (Qc_of_Z (txAcceleration metrics) / Qc_of_Z 5) (Qc_of_Z 1)
           * Qc_of_Z 20)%Qc in
        let strength := (strength + accelStrength)%Qc in
        let avgBuyMid :=
          ((CONFIG.signals.minAvgBuySize + CONFIG.signals.maxAvgBuySize) / Qc_of_Z 2)%Qc in
        let avgBuyRange :=
          (CONFIG.signals.maxAvgBuySize - CONFIG.signals.minAvgBuySize)%Qc in
        let centeredness :=
          (Qc_of_Z 1
           - Math_abs (avgBuySize metrics - avgBuyMid) / (avgBuyRange / Qc_of_Z 2))%Qc in
        let strength := (strength + centeredness * Qc_of_Z 15)%Qc in
        let txCountExcess :=
          ((Qc_of_Z (txCount60s metrics) - Qc_of_Z CONFIG.signals.minTxCount60s)
           / Qc_of_Z CONFIG.signals.minTxCount60s)%Qc in
        let strength := (strength + Math_min (txCountExcess * Qc_of_Z 15) (Qc_of_Z 15))%Qc in
        Strength (Math_round strength)
    end.

(** ** core/scoring.ts *)

Record ScoreBreakdown := {
  buyersComponent : Z;
  accelerationComponent : Z;
  repeatBuyersComponent : Z;
  largestBuyPenalty : Z;
  stagnationPenalty : Z;
}.

Record TokenScore := {
  ts_tokenAddress : string;
  score : Z;
  ts_timestamp : Z;
  breakdown : ScoreBreakdown;
}.

Definition calculateScore (now : Z) (tokenAddress : string) (metrics : RollingMetrics)
  : TokenScore :=
  let buyersComponent := buyers5m metrics * CONFIG.scoring.buyersWeight in
  let accelerationComponent := txAcceleration metrics * CONFIG.scoring.accelerationWeight in
  let repeatBuyersComponent := repeatBuyers metrics * CONFIG.scoring.repeatBuyersWeight in
  let largestBuyPenalty :=
    if bool_decide (1 < largestBuy metrics)%Qc
    then CONFIG.scoring.largestBuyPenalty else 0 in
  let stagnationPenalty :=
    if bool_decide (txCount60s metrics = 0) then CONFIG.scoring.stagnationPenalty else 0 in
  let score :=
    buyersComponent + accelerationComponent + repeatBuyersComponent
    - largestBuyPenalty - stagnationPenalty in
  {| ts_tokenAddress := tokenAddress;
     score := Z.max 0 score;
     ts_timestamp := now;
     breakdown :=
       {| buyersComponent := buyersComponent;
          accelerationComponent := accelerationComponent;
          repeatBuyersComponent := repeatBuyersComponent;
          largestBuyPenalty := largestBuyPenalty;
          stagnationPenalty := stagnationPenalty |} |}.

Definition meetsEntryThreshold (s : TokenScore) : bool :=
  bool_decide (score s >= CONFIG.entry.minScore).

Inductive ScoreTrend := increasing | stable | decreasing.

Definition getScoreTrend (currentScore previousScore : Z) : ScoreTrend :=
  let diff := currentScore - previousScore in
  if bool_decide (diff > 2) then increasing
  else if bool_decide (diff < -2) then decreasing
  else stable.

Definition formatScore {rt : JSRuntime} (s : TokenScore) : string :=
  let b := breakdown s in
  "Score: " +:+ toFixed (Qc_of_Z (score s)) 1 +:+ " | "
    +:+ "Buyers: +" +:+ toFixed (Qc_of_Z (buyersComponent b)) 1 +:+ " | "
    +:+ "Accel: +" +:+ toFixed (Qc_of_Z (accelerationComponent b)) 1 +:+ " | "
    +:+ "Repeat: +" +:+ toFixed (Qc_of_Z (repeatBuyersComponent b)) 1 +:+ " | "
    +:+ "Penalties: -"
    +:+ toFixed (Qc_of_Z (largestBuyPenalty b + stagnationPenalty b)) 1.

Inductive ScoreTier := excellent | good | marginal | poor.

Definition getScoreTier (score : Z) : ScoreTier :=
  if bool_decide (score >= 30) then excellent
  else if bool_decide (score >= 22) then good
  else if bool_decide (score >= CONFIG.entry.minScore) then marginal
  else poor.

(** ** trading/position.ts *)

(** [generatePositionId]: [rnd] stands for the hexadecimal image of
    [crypto.randomBytes(6)]. *)
Definition generatePositionId (now : Z) (rnd : string) : string :=
  "pos_" +:+ pretty now +:+ "_" +:+ rnd.

(** [(currentPrice - position.entryPrice) / position.entryPrice].  Positions
    opened by the entry engine have a positive entry price; a division by
    zero, which gives [NaN] or an infinity in JavaScript, is [0] here. *)
Definition priceChange (currentPrice : Qc) (p : PaperPosition) : Qc :=
  ((currentPrice - entryPrice p) / entryPrice p)%Qc.

Module PositionManager.

(** [heap] is the store of the [PaperPosition] objects ever created; an
    address is an index into it.  [positions] and [closedPositions] hold
    addresses, as the JavaScript containers hold references. *)
Record t := {
  heap : list PaperPosition;
  positions : gmap string nat;
  closedPositions : list nat;
  tokenToPosition : gmap string string;
}.

Definition empty : t :=
  {| heap := []; positions := ∅; closedPositions := []; tokenToPosition := ∅ |}.

(** [this.positions.get(positionId)]: the reference and the object behind
    it. *)
Definition lookupPosition (positionId : string) (pm : t)
  : option (nat * PaperPosition) :=
  a ← positions pm !! positionId; p ← heap pm !! a; Some (a, p).

Definition getPosition (positionId : string) (pm : t) : option nat :=
  fst <$> lookupPosition positionId pm.

Definition openPosition (now : Z) (rnd : string)
    (tokenAddress : string) (entryPrice : Qc) (entryScore : Z) (pm : t)
  : nat * t :=
  let position :=
    {| pos_id := generatePositionId now rnd;
       pos_tokenAddress := tokenAddress;
       entryTimestamp := now;
       entryPrice := entryPrice;
       entryScore := entryScore;
       positionSizeSOL := CONFIG.entry.positionSizeSOL;
       remainingSizeSOL := CONFIG.entry.positionSizeSOL;
       status := open;
       partialExitTimestamp := None;
       partialExitPrice := None;
       exitTimestamp := None;
       exitPrice := None;
       exitReason := None;
       maxUnrealizedPnL := 0;
       realizedPnL := 0 |} in
  let a := length (heap pm) in
  let created :=
    (a,
     {| heap := heap pm ++ [position];
        positions := <[pos_id position := a]> (positions pm);
        closedPositions := closedPositions pm;
        tokenToPosition := <[tokenAddress := pos_id position]> (tokenToPosition pm) |}) in
  match tokenToPosition pm !! tokenAddress with
  | Some existingId =>
      match lookupPosition existingId pm with
      | Some (existing, p) =>
          if negb (bool_decide (status p = closed)) then (existing, pm)
          else created
      | None => created
      end
  | None => created
  end.

Definition executePartialExit (now : Z) (positionId : string) (currentPrice : Qc)
    (pm : t) : t :=
  match lookupPosition positionId pm with
  | None => pm
  | Some (a, position) =>
      if bool_decide (status position = closed) then pm
      else
        let exitPercent := (CONFIG.exit.partialExitPercent / Qc_of_Z 100)%Qc in
        let exitAmount := (positionSizeSOL position * exitPercent)%Qc in
        let pnl := (exitAmount * priceChange currentPrice position)%Qc in
        let position' :=
          {| pos_id := pos_id position;
             pos_tokenAddress := pos_tokenAddress position;
             entryTimestamp := entryTimestamp position;
             entryPrice := entryPrice position;
             entryScore := entryScore position;
             positionSizeSOL := positionSizeSOL position;
             remainingSizeSOL := (remainingSizeSOL position - exitAmount)%Qc;
             status := partial;
             partialExitTimestamp := Some now;
             partialExitPrice := Some currentPrice;
             exitTimestamp := exitTimestamp position;
             exitPrice := exitPrice position;
             exitReason := exitReason position;
             maxUnrealizedPnL := maxUnrealizedPnL position;
             realizedPnL := (realizedPnL position + pnl)%Qc |} in
        {| heap := <[a := position']> (heap pm);
           positions := positions pm;
           closedPositions := closedPositions pm;
           tokenToPosition := tokenToPosition pm |}
  end.

Definition closePosition (now : Z) (positionId : string) (currentPrice : Qc)
    (reason : ExitReason) (pm : t) : t :=
  match lookupPosition positionId pm with
  | None => pm
  | Some (a, position) =>
      if bool_decide (status position = closed) then pm
      else
        let pnl := (remainingSizeSOL position * priceChange currentPrice position)%Qc in
        let position' :=
          {| pos_id := pos_id position;
             pos_tokenAddress := pos_tokenAddress position;
             entryTimestamp := entryTimestamp position;
             entryPrice := entryPrice position;
             entryScore := entryScore position;
             positionSizeSOL := positionSizeSOL position;
             remainingSizeSOL := 0;
             status := closed;
             partialExitTimestamp := partialExitTimestamp position;
             partialExitPrice := partialExitPrice position;
             exitTimestamp := Some now;
             exitPrice := Some currentPrice;
             exitReason := Some reason;
             maxUnrealizedPnL := maxUnrealizedPnL position;
             realizedPnL := (realizedPnL position + pnl)%Qc |} in
        {| heap := <[a := position']> (heap pm);
           positions := delete positionId (positions pm);
           closedPositions := closedPositions pm ++ [a];
           tokenToPosition := delete (pos_tokenAddress position) (tokenToPosition pm) |}
  end.

Definition updateUnrealizedPnL (positionId : string) (currentPrice : Qc) (pm : t) : t :=
  match lookupPosition positionId pm with
  | None => pm
  | Some (a, position) =>
      if bool_decide (status position = closed) then pm
      else
        let unrealizedPct := (priceChange currentPrice position * Qc_of_Z 100)%Qc in
        if bool_decide (maxUnrealizedPnL position < unrealizedPct)%Qc then
          let position' :=
            {| pos_id := pos_id position;
               pos_tokenAddress := pos_tokenAddress position;
               entryTimestamp := entryTimestamp position;
               entryPrice := entryPrice position;
               entryScore := entryScore position;
               positionSizeSOL := positionSizeSOL position;
               remainingSizeSOL := remainingSizeSOL position;
               status := status position;
               partialExitTimestamp := partialExitTimestamp position;
               partialExitPrice := partialExitPrice position;
               exitTimestamp := exitTimestamp position;
               exitPrice := exitPrice position;
               exitReason := exitReason position;
               maxUnrealizedPnL := unrealizedPct;
               realizedPnL := realizedPnL position |} in
          {| heap := <[a := position']> (heap pm);
             positions := positions pm;
             closedPositions := closedPositions pm;
             tokenToPosition := tokenToPosition pm |}
        else pm
  end.

Definition getPositionByToken (tokenAddress : string) (pm : t) : option nat :=
  match tokenToPosition pm !! tokenAddress with
  | None => None
  | Some positionId =>
      if bool_decide (positionId = "") then None
      else getPosition positionId pm
  end.

(** Status of the object behind a reference. *)
Definition statusOf (a : nat) (pm : t) : option Status := status <$> heap pm !! a.

Definition getOpenPositions (pm : t) : list nat :=
  filter (λ a, statusOf a pm ≠ Some closed) ((map_to_list (positions pm)).*2).

Definition getClosedPositions (pm : t) : list nat := closedPositions pm.

Definition hasOpenPosition (tokenAddress : string) (pm : t) : bool :=
  match getPositionByToken tokenAddress pm with
  | None => false
  | Some a => bool_decide (statusOf a pm ≠ Some closed)
  end.

Definition openCount (pm : t) : Z := Z.of_nat (length (getOpenPositions pm)).

Definition getTotalPnL (pm : t) : Qc :=
  foldl (λ sum a, (sum + from_option realizedPnL 0 (heap pm !! a))%Qc) 0%Qc
        (closedPositions pm).

End PositionManager.

(** ** trading/exitEngine.ts *)

Record ExitState := {
  es_positionId : string;
  consecutiveTxDecreases : Z;
  lastTxCount60s : Z;
  spikeDetected : bool;
  postSpikeTxCount : option Z;
}.

(** The result of [evaluateExit]. *)
Record ExitEvaluation := {
  shouldPartialExit : bool;
  shouldFullExit : bool;
  reason : option ExitReason;
}.

(** Truthiness of an optional number ([undefined] and [0] are falsy). *)
Definition truthy_number (n : option Z) : bool :=
  match n with
  | Some k => negb (bool_decide (k = 0))
  | None => false
  end.

Module ExitEngine.

(** The engine's own field is [exitStates]; the position manager it shares
    with the other components is threaded next to it. *)
Definition initPosition (positionId : string) (initialTxCount : Z)
    (exitStates : gmap string ExitState) : gmap string ExitState :=
  <[positionId :=
      {| es_positionId := positionId;
         consecutiveTxDecreases := 0;
         lastTxCount60s := initialTxCount;
         spikeDetected := false;
         postSpikeTxCount := None |}]> exitStates.

Definition cleanup (positionId : string) (exitStates : gmap string ExitState)
  : gmap string ExitState :=
  delete positionId exitStates.

Definition noExit : ExitEvaluation :=
  {| shouldPartialExit := false; shouldFullExit := false; reason := None |}.

(** [position] is the address of the [PaperPosition] object. *)
Definition evaluateExit (now : Z) (position : nat) (currentPrice : Qc)
    (metrics : RollingMetrics) (tracker : TokenTracker.t)
    (exitStates : gmap string ExitState) (pm : PositionManager.t)
  : ExitEvaluation * gmap string ExitState * PositionManager.t :=
  match PositionManager.heap pm !! position with
  | None => (noExit, exitStates, pm)
  | Some p =>
      match exitStates !! pos_id p with
      | None =>
          (noExit, initPosition (pos_id p) (txCount60s metrics) exitStates, pm)
      | Some state =>
          let pnlPercent := (priceChange currentPrice p * Qc_of_Z 100)%Qc in
          let pm := PositionManager.updateUnrealizedPnL (pos_id p) currentPrice pm in
          let shouldPartialExit :=
            bool_decide (status p = open)
            && bool_decide (CONFIG.exit.partialProfitPercent ≤ pnlPercent)%Qc in
          let shouldFullExit := false in
          let exitReason : option ExitReason := None in
          (* 1. profit target *)
          let '(shouldFullExit, exitReason) :=
            if bool_decide (CONFIG.exit.fullProfitPercent ≤ pnlPercent)%Qc
            then (true, Some profit_target_full)
            else (shouldFullExit, exitReason) in
          (* 2. no activity *)
          let timeSinceLastTx := now - TokenTracker.lastTxTimestamp tracker in
          let '(shouldFullExit, exitReason) :=
            if bool_decide (timeSinceLastTx >= CONFIG.exit.noActivitySeconds * 1000)
            then (true, Some no_activity_60s)
            else (shouldFullExit, exitReason) in
          (* 3. consecutive decreases, spike detection *)
          let '(state, shouldFullExit, exitReason) :=
            if bool_decide (txCount60s metrics < lastTxCount60s state) then
              let state :=
                {| es_positionId := es_positionId state;
                   consecutiveTxDecreases := consecutiveTxDecreases state + 1;
                   lastTxCount60s := lastTxCount60s state;
                   spikeDetected := spikeDetected state;
                   postSpikeTxCount := postSpikeTxCount state |} in
              if bool_decide (consecutiveTxDecreases state
                              >= CONFIG.exit.txDecreaseThreshold)
              then (state, true, Some tx_decrease_twice)
              else (state, shouldFullExit, exitReason)
            else if bool_decide (txCount60s metrics > lastTxCount60s state) then
              let spike :=
                bool_decide (Qc_of_Z (lastTxCount60s state) * Q2Qc (15 # 10)
                             < Qc_of_Z (txCount60s metrics))%Qc in
              ({| es_positionId := es_positionId state;
                  consecutiveTxDecreases := 0;
                  lastTxCount60s := lastTxCount60s state;
                  spikeDetected := if spike then true else spikeDetected state;
                  postSpikeTxCount :=
                    if spike then Some (txCount60s metrics)
                    else postSpikeTxCount state |},
               shouldFullExit, exitReason)
            else (state, shouldFullExit, exitReason) in
          (* 4. stagnation after a spike *)
          let '(shouldFullExit, exitReason) :=
            if spikeDetected state && truthy_number (postSpikeTxCount state) then
              if bool_decide
                   (Qc_of_Z (txCount60s metrics)
                    < Qc_of_Z (default 0%Z (postSpikeTxCount state)) * Q2Qc (5 # 10))%Qc
              then (true, Some stagnation_after_spike)
              else (shouldFullExit, exitReason)
            else (shouldFullExit, exitReason) in
          let state :=
            {| es_positionId := es_positionId state;
               consecutiveTxDecreases := consecutiveTxDecreases state;
               lastTxCount60s := txCount60s metrics;
               spikeDetected := spikeDetected state;
               postSpikeTxCount := postSpikeTxCount state |} in
          ({| shouldPartialExit := shouldPartialExit;
              shouldFullExit := shouldFullExit;
              reason := exitReason |},
           <[pos_id p := state]> exitStates, pm)
      end
  end.

Definition executeExit (now : Z) (position : nat) (currentPrice : Qc)
    (evaluation : ExitEvaluation)
    (exitStates : gmap string ExitState) (pm : PositionManager.t)
  : gmap string ExitState * PositionManager.t :=
  match PositionManager.heap pm !! position with
  | None => (exitStates, pm)
  | Some p =>
      if shouldPartialExit evaluation && bool_decide (status p = open) then
        let pm := PositionManager.executePartialExit now (pos_id p) currentPrice pm in
        match PositionManager.getPosition (pos_id p) pm with
        | None => (exitStates, pm)
        | Some updatedPosition =>
            match shouldFullExit evaluation, reason evaluation with
            | true, Some r =>
                (cleanup (pos_id p) exitStates,
                 PositionManager.closePosition now (pos_id p) currentPrice r pm)
            | _, _ => (exitStates, pm)
            end
        end
      else
        match shouldFullExit evaluation, reason evaluation with
        | true, Some r =>
            (cleanup (pos_id p) exitStates,
             PositionManager.closePosition now (pos_id p) currentPrice r pm)
        | _, _ => (exitStates, pm)
        end
  end.

End ExitEngine.

(** ** trading/killSwitch.ts *)

Record KillState := {
  ks_positionId : string;
  lastActivityTimestamp : Z;
}.

Module KillSwitch.

Definition initPosition (now : Z) (positionId : string)
    (states : gmap string KillState) : gmap string KillState :=
  <[positionId := {| ks_positionId := positionId; lastActivityTimestamp := now |}]> states.

Definition cleanup (positionId : string) (states : gmap string KillState)
  : gmap string KillState :=
  delete positionId states.

Definition trigger (now : Z) (p : PaperPosition) (currentPrice : Qc)
    (reason : ExitReason) (states : gmap string KillState) (pm : PositionManager.t)
  : gmap string KillState * PositionManager.t :=
  (cleanup (pos_id p) states,
   PositionManager.closePosition now (pos_id p) currentPrice reason pm).

(** [position] is the address of the [PaperPosition] object. *)
Definition check (now : Z) (position : nat) (tracker : TokenTracker.t)
    (currentPrice : Qc) (latestTx : option Transaction)
    (states : gmap string KillState) (pm : PositionManager.t)
  : bool * gmap string KillState * PositionManager.t :=
  match PositionManager.heap pm !! position with
  | None => (false, states, pm)
  | Some p =>
      match states !! pos_id p with
      | None => (false, initPosition now (pos_id p) states, pm)
      | Some state =>
          let timeSinceLastTx := now - TokenTracker.lastTxTimestamp tracker in
          if bool_decide (timeSinceLastTx >= CONFIG.killSwitch.noTxSeconds * 1000) then
            let '(states, pm) := trigger now p currentPrice kill_switch_no_tx states pm in
            (true, states, pm)
          else
            match latestTx with
            | None => (false, states, pm)
            | Some latestTx =>
                let states :=
                  <[pos_id p :=
                      {| ks_positionId := ks_positionId state;
                         lastActivityTimestamp := tx_timestamp latestTx |}]> states in
                if bool_decide (CONFIG.killSwitch.whaleBuyThreshold
                                < tx_solAmount latestTx)%Qc then
                  let '(states, pm) :=
                    trigger now p currentPrice kill_switch_whale states pm in
                  (true, states, pm)
                else if truthy_string (TokenTracker.devWallet tracker)
                        && bool_decide (Some (tx_buyerWallet latestTx)
                                        = TokenTracker.devWallet tracker)
                        && bool_decide (TokenTracker.devBuyCount tracker > 1) then
                  let '(states, pm) :=
                    trigger now p currentPrice kill_switch_dev states pm in
                  (true, states, pm)
                else (false, states, pm)
            end
      end
  end.

End KillSwitch.

(** ** trading/entryEngine.ts *)

Record MissedRunner := {
  mr_tokenAddress : string;
  mr_timestamp : Z;
  mr_score : Z;
  mr_reason : string;
}.

Module EntryEngine.

(** The entry engine owns the exit engine and the kill switch; all three
    hold the one position manager, kept here once. *)
Record t := {
  positionManager : PositionManager.t;
  exitStates : gmap string ExitState;
  killStates : gmap string KillState;
  missedRunners : list MissedRunner;
}.

Definition new : t :=
  {| positionManager := PositionManager.empty;
     exitStates := ∅;
     killStates := ∅;
     missedRunners := [] |}.

Definition estimateMarketCap (metrics : RollingMetrics) : Qc :=
  let totalVolume := (Qc_of_Z (buyers5m metrics) * avgBuySize metrics)%Qc in
  let multiplier : Qc := Qc_of_Z 30 in
  (totalVolume * multiplier)%Qc.

Definition calculateEntryPrice (metrics : RollingMetrics) : Qc := avgBuySize metrics.

Section entry.
Context {rt : JSRuntime}.

Definition evaluateEntry (now : Z) (tracker : TokenTracker.t) (tokenScore : TokenScore)
      (signalEval : SignalEvaluation) (metrics : RollingMetrics) (e : t)
    : bool * option string :=
    if PositionManager.hasOpenPosition (TokenTracker.tokenAddress tracker)
         (positionManager e)
    then (false, Some "position_already_exists")
    else if TokenTracker.dropped tracker then
      (false, Some ("token_dropped: "
                      +:+ default "undefined" (TokenTracker.dropReason tracker)))
    else if bool_decide (score tokenScore < CONFIG.entry.minScore) then
      (false, Some ("score_too_low: "
                      +:+ Number_toString (Qc_of_Z (score tokenScore)) +:+ " < "
                      +:+ Number_toString (Qc_of_Z CONFIG.entry.minScore)))
    else
      let ageMinutes := TokenTracker.getAgeMinutes now tracker in
      if bool_decide (ageMinutes < Qc_of_Z CONFIG.entry.minTokenAgeMinutes)%Qc then
        (false, Some ("too_young: " +:+ toFixed ageMinutes 1 +:+ "min < "
                        +:+ Number_toString (Qc_of_Z CONFIG.entry.minTokenAgeMinutes)
                        +:+ "min"))
      else if bool_decide (Qc_of_Z CONFIG.entry.maxTokenAgeMinutes < ageMinutes)%Qc then
        (false, Some ("too_old: " +:+ toFixed ageMinutes 1 +:+ "min > "
                        +:+ Number_toString (Qc_of_Z CONFIG.entry.maxTokenAgeMinutes)
                        +:+ "min"))
      else if negb (allPassed signalEval) then
        let failedSignals : list string := [] in
        let failedSignals := push_if (negb (easPassed signalEval)) "EAS" failedSignals in
        let failedSignals := push_if (negb (lsfPassed signalEval)) "LSF" failedSignals in
        let failedSignals := push_if (negb (mcPassed signalEval)) "MC" failedSignals in
        (false, Some ("signals_failed: " +:+ join ", " failedSignals))
      else
        let estimatedMC := estimateMarketCap metrics in
        if bool_decide (estimatedMC < CONFIG.entry.minMarketCapSOL)%Qc
           || bool_decide (CONFIG.entry.maxMarketCapSOL < estimatedMC)%Qc then
          (false, Some ("mc_out_of_range: " +:+ toFixed estimatedMC 0 +:+ " not in ["
                          +:+ Number_toString CONFIG.entry.minMarketCapSOL +:+ ", "
                          +:+ Number_toString CONFIG.entry.maxMarketCapSOL +:+ "]"))
        else (true, None).

Definition trackMissedRunner (now : Z) (tokenAddress : string) (missedScore : Z)
      (reason : string) (e : t) : t :=
    let missed :=
      missedRunners e
        ++ [{| mr_tokenAddress := tokenAddress; mr_timestamp := now;
               mr_score := missedScore; mr_reason := reason |}] in
    {| positionManager := positionManager e;
       exitStates := exitStates e;
       killStates := killStates e;
       missedRunners :=
         if bool_decide (1000 < length missed)%nat
         then drop (length missed - 1000)%nat missed
         else missed |}.

Definition tryEntry (now : Z) (rnd : string) (tracker : TokenTracker.t)
      (tokenScore : TokenScore) (signalEval : SignalEvaluation) (metrics : RollingMetrics)
      (e : t) : bool * t :=
    let evaluation := evaluateEntry now tracker tokenScore signalEval metrics e in
    if negb evaluation.1 then
      if bool_decide (score tokenScore >= CONFIG.entry.minScore)
         && negb (bool_decide (evaluation.2 = Some "position_already_exists"))
      then
        (false,
         trackMissedRunner now (TokenTracker.tokenAddress tracker)
           (score tokenScore) (default "undefined" evaluation.2) e)
      else (false, e)
    else
      let entryPrice := calculateEntryPrice metrics in
      let '(position, pm) :=
        PositionManager.openPosition now rnd (TokenTracker.tokenAddress tracker)
          entryPrice (score tokenScore) (positionManager e) in
      let positionId := from_option pos_id "" (PositionManager.heap pm !! position) in
      (true,
       {| positionManager := pm;
          exitStates := ExitEngine.initPosition positionId (txCount60s metrics)
                          (exitStates e);
          killStates := KillSwitch.initPosition now positionId (killStates e);
          missedRunners := missedRunners e |}).

End entry.

Definition missedRunnerCount (e : t) : Z := Z.of_nat (length (missedRunners e)).

End EntryEngine.

(** ** logging/metrics.ts *)

Record TradeLog := {
  tl_tokenAddress : string;
  entryTime : Z;
  tl_entryScore : Z;
  tl_entryPrice : Qc;
  exitTime : option Z;
  tl_exitReason : option ExitReason;
  tl_maxUnrealizedPnL : Qc;
  tl_realizedPnL : Qc;
}.

Record PerformanceMetrics := {
  totalTrades : Z;
  wins : Z;
  losses : Z;
  winRate : Qc;
  avgRMultiple : Qc;
  avgTimeInTrade : Qc;
  killSwitchExits : Z;
  killSwitchPercentage : Qc;
  perf_missedRunners : Z;
  totalPnL : Qc;
  perf_maxDrawdown : Qc;
}.

Definition KILL_SWITCH_REASONS : list ExitReason :=
  [kill_switch_no_tx; kill_switch_whale; kill_switch_dev].

Global Instance ExitReason_countable : Countable ExitReason.
Proof.
  refine (inj_countable'
            (λ r, match r with
                  | profit_target_partial => 0%nat
                  | profit_target_full => 1%nat
                  | no_activity_60s => 2%nat
                  | tx_decrease_twice => 3%nat
                  | stagnation_after_spike => 4%nat
                  | kill_switch_no_tx => 5%nat
                  | kill_switch_whale => 6%nat
                  | kill_switch_dev => 7%nat
                  end)
            (λ n, match n with
                  | 0 => profit_target_partial
                  | 1 => profit_target_full
                  | 2 => no_activity_60s
                  | 3 => tx_decrease_twice
                  | 4 => stagnation_after_spike
                  | 5 => kill_switch_no_tx
                  | 6 => kill_switch_whale
                  | _ => kill_switch_dev
                  end%nat) _).
  by intros [].
Defined.

Module MetricsCalculator.

Record t := {
  trades : list TradeLog;
  missedRunners : Z;
  peakBalance : Qc;
  currentBalance : Qc;
  maxDrawdown : Qc;
}.

Definition new : t :=
  {| trades := []; missedRunners := 0; peakBalance := 0; currentBalance := 0;
     maxDrawdown := 0 |}.

Definition updateDrawdown (pnl : Qc) (m : t) : t :=
  let currentBalance := (currentBalance m + pnl)%Qc in
  let peakBalance :=
    if bool_decide (peakBalance m < currentBalance)%Qc then currentBalance
    else peakBalance m in
  let maxDrawdown :=
    if bool_decide (0 < peakBalance)%Qc then
      let drawdown := ((peakBalance - currentBalance) / peakBalance * Qc_of_Z 100)%Qc in
      if bool_decide (maxDrawdown m < drawdown)%Qc then drawdown else maxDrawdown m
    else maxDrawdown m in
  {| trades := trades m;
     missedRunners := missedRunners m;
     peakBalance := peakBalance;
     currentBalance := currentBalance;
     maxDrawdown := maxDrawdown |}.

Definition addTrade (position : PaperPosition) (m : t) : t :=
  let trade :=
    {| tl_tokenAddress := pos_tokenAddress position;
       entryTime := entryTimestamp position;
       tl_entryScore := entryScore position;
       tl_entryPrice := entryPrice position;
       exitTime := exitTimestamp position;
       tl_exitReason := exitReason position;
       tl_maxUnrealizedPnL := maxUnrealizedPnL position;
       tl_realizedPnL := realizedPnL position |} in
  updateDrawdown (tl_realizedPnL trade)
    {| trades := trades m ++ [trade];
       missedRunners := missedRunners m;
       peakBalance := peakBalance m;
       currentBalance := currentBalance m;
       maxDrawdown := maxDrawdown m |}.

Definition recordMissedRunner (m : t) : t :=
  {| trades := trades m;
     missedRunners := missedRunners m + 1;
     peakBalance := peakBalance m;
     currentBalance := currentBalance m;
     maxDrawdown := maxDrawdown m |}.

Definition setMissedRunners (count : Z) (m : t) : t :=
  {| trades := trades m;
     missedRunners := count;
     peakBalance := peakBalance m;
     currentBalance := currentBalance m;
     maxDrawdown := maxDrawdown m |}.

(** [t.exitTime] as a condition: a missing exit time and the exit time 0
    are both falsy. *)
Definition hasExitTime (t : TradeLog) : bool :=
  match exitTime t with
  | Some time => negb (bool_decide (time = 0))
  | None => false
  end.

(** [t.exitReason && KILL_SWITCH_REASONS.includes(t.exitReason)]. *)
Definition isKillSwitchExit (t : TradeLog) : bool :=
  match tl_exitReason t with
  | Some r => bool_decide (r ∈ KILL_SWITCH_REASONS)
  | None => false
  end.

Definition calculate (m : t) : PerformanceMetrics :=
  let totalTrades := Z.of_nat (length (trades m)) in
  if bool_decide (totalTrades = 0) then
    {| totalTrades := 0;
       wins := 0;
       losses := 0;
       winRate := 0;
       avgRMultiple := 0;
       avgTimeInTrade := 0;
       killSwitchExits := 0;
       killSwitchPercentage := 0;
       perf_missedRunners := missedRunners m;
       totalPnL := 0;
       perf_maxDrawdown := 0 |}
  else
    let wins :=
      Z.of_nat (length (filter (λ t, 0 < tl_realizedPnL t)%Qc (trades m))) in
    let losses := totalTrades - wins in
    let winRate := (Qc_of_Z wins / Qc_of_Z totalTrades * Qc_of_Z 100)%Qc in
    let totalPnL := foldl (λ sum t, (sum + tl_realizedPnL t)%Qc) 0%Qc (trades m) in
    let avgRMultiple := (totalPnL / Qc_of_Z totalTrades)%Qc in
    let tradeDurations : list Z :=
      (λ t, default 0 (exitTime t) - entryTime t)
        <$> filter (λ t, hasExitTime t = true) (trades m) in
    let avgTimeInTrade :=
      if bool_decide (0 < Z.of_nat (length tradeDurations)) then
        (Qc_of_Z (foldl Z.add 0%Z tradeDurations)
         / Qc_of_Z (Z.of_nat (length tradeDurations)))%Qc
      else 0%Qc in
    let killSwitchExits :=
      Z.of_nat (length (filter (λ t, isKillSwitchExit t = true) (trades m))) in
    let killSwitchPercentage :=
      (Qc_of_Z killSwitchExits / Qc_of_Z totalTrades * Qc_of_Z 100)%Qc in
    {| totalTrades := totalTrades;
       wins := wins;
       losses := losses;
       winRate := winRate;
       avgRMultiple := avgRMultiple;
       avgTimeInTrade := avgTimeInTrade;
       killSwitchExits := killSwitchExits;
       killSwitchPercentage := killSwitchPercentage;
       perf_missedRunners := missedRunners m;
       totalPnL := totalPnL;
       perf_maxDrawdown := maxDrawdown m |}.

Section validity.
Context {rt : JSRuntime}.

(** [isValid]: the pair of [valid] and [reasons]. *)
Definition isValid (m : t) : bool * list string :=
  let metrics := calculate m in
  if bool_decide (totalTrades metrics < 100) then
    (false,
     ["Insufficient trades: " +:+ Number_toString (Qc_of_Z (totalTrades metrics))
        +:+ "/100 minimum"])
  else
    let reasons : list string := [] in
    let reasons :=
      push_if (bool_decide (winRate metrics < Qc_of_Z 35)%Qc)
        ("Win rate " +:+ toFixed (winRate metrics) 1 +:+ "% < 35%") reasons in
    let reasons :=
      push_if (bool_decide (avgRMultiple metrics < Q2Qc (5 # 2))%Qc)
        ("Avg R " +:+ toFixed (avgRMultiple metrics) 2 +:+ " < 2.5") reasons in
    let reasons :=
      push_if (bool_decide (Qc_of_Z 20 ≤ perf_maxDrawdown metrics)%Qc)
        ("Max drawdown " +:+ toFixed (perf_maxDrawdown metrics) 1 +:+ "% >= 20%")
        reasons in
    (bool_decide (length reasons = 0%nat), reasons).

End validity.

(** [getExitReasonBreakdown]: the key [None] is the key ['unknown']. *)
Definition getExitReasonBreakdown (m : t) : gmap (option ExitReason) Z :=
  foldl (λ breakdown trade,
           let reason := tl_exitReason trade in
           <[reason := default 0 (breakdown !! reason) + 1]> breakdown)
        ∅ (trades m).

Definition clear (m : t) : t :=
  {| trades := []; missedRunners := 0; peakBalance := 0; currentBalance := 0;
     maxDrawdown := 0 |}.

End MetricsCalculator.

(** ** core/signalEngine.ts *)

Module SignalEngine.

(** A tracker held by the registry is referred to by its token address. *)
Record t := {
  tokenRegistry : gmap string TokenTracker.t;
  entryEngine : EntryEngine.t;
  processedTxCount : Z;
}.

Definition new : t :=
  {| tokenRegistry := ∅; entryEngine := EntryEngine.new; processedTxCount := 0 |}.

Definition positionManager (s : t) : PositionManager.t :=
  EntryEngine.positionManager (entryEngine s).

Section engine.
Context {rt : JSRuntime}.

Definition monitorPosition (now : Z) (position : nat) (tracker : TokenTracker.t)
      (latestTx : Transaction) (s : t) : t :=
    let e := entryEngine s in
    let metrics := TokenTracker.calculateMetrics now tracker in
    let currentPrice := avgBuySize metrics in
    let '(killed, killStates, pm) :=
      KillSwitch.check now position tracker currentPrice (Some latestTx)
        (EntryEngine.killStates e) (EntryEngine.positionManager e) in
    if killed then
      {| tokenRegistry := tokenRegistry s;
         entryEngine :=
           {| EntryEngine.positionManager := pm;
              EntryEngine.exitStates := EntryEngine.exitStates e;
              EntryEngine.killStates := killStates;
              EntryEngine.missedRunners := EntryEngine.missedRunners e |};
         processedTxCount := processedTxCount s |}
    else
      let '(exitEval, exitStates, pm) :=
        ExitEngine.evaluateExit now position currentPrice metrics tracker
          (EntryEngine.exitStates e) pm in
      let '(exitStates, pm) :=
        if shouldPartialExit exitEval || shouldFullExit exitEval
        then ExitEngine.executeExit now position currentPrice exitEval exitStates pm
        else (exitStates, pm) in
      {| tokenRegistry := tokenRegistry s;
         entryEngine :=
           {| EntryEngine.positionManager := pm;
              EntryEngine.exitStates := exitStates;
              EntryEngine.killStates := killStates;
              EntryEngine.missedRunners := EntryEngine.missedRunners e |};
         processedTxCount := processedTxCount s |}.

  (** [tracker] is the registry's tracker of [tokenAddress]. *)
Definition evaluateForEntry (now : Z) (rnd : string) (tokenAddress : string)
      (tracker : TokenTracker.t) (s : t) : t :=
    let metrics := TokenTracker.calculateMetrics now tracker in
    let filterResult := evaluateFilters tracker metrics in
    if negb (fr_passed filterResult) then
      {| tokenRegistry :=
           <[tokenAddress :=
               TokenTracker.drop (default "undefined" (fr_reason filterResult)) tracker]>
             (tokenRegistry s);
         entryEngine := entryEngine s;
         processedTxCount := processedTxCount s |}
    else
      let signalEval := evaluateSignals metrics in
      let tokenScore := calculateScore now (TokenTracker.tokenAddress tracker) metrics in
      let '(_, e) :=
        EntryEngine.tryEntry now rnd tracker tokenScore signalEval metrics (entryEngine s) in
      {| tokenRegistry := tokenRegistry s;
         entryEngine := e;
         processedTxCount := processedTxCount s |}.

Definition processTransaction (now : Z) (rnd : string) (tx : Transaction) (s : t) : t :=
    let s :=
      {| tokenRegistry := tokenRegistry s;
         entryEngine := entryEngine s;
         processedTxCount := processedTxCount s + 1 |} in
    let quickFilter := quickFilterTransaction (tx_solAmount tx) in
    if negb quickFilter.1 then s
    else
      let '(registry, tracker) :=
        TokenRegistry.processTransaction now tx (tokenRegistry s) in
      let s :=
        {| tokenRegistry := registry;
           entryEngine := entryEngine s;
           processedTxCount := processedTxCount s |} in
      if TokenTracker.dropped tracker then s
      else
        let existingPosition :=
          PositionManager.getPositionByToken (tx_tokenAddress tx) (positionManager s) in
        match existingPosition with
        | Some position =>
            if negb (bool_decide
                       (PositionManager.statusOf position (positionManager s)
                        = Some closed))
            then monitorPosition now position tracker tx s
            else evaluateForEntry now rnd (tx_tokenAddress tx) tracker s
        | None => evaluateForEntry now rnd (tx_tokenAddress tx) tracker s
        end.

  (** The body of the loop of [checkStalePositions]. *)
Definition checkStalePosition (now : Z) (position : nat) (s : t) : t :=
    let e := entryEngine s in
    match PositionManager.heap (EntryEngine.positionManager e) !! position with
    | None => s
    | Some p =>
        match TokenRegistry.getTracker (pos_tokenAddress p) (tokenRegistry s) with
        | None => s
        | Some tracker =>
            let metrics := TokenTracker.calculateMetrics now tracker in
            let currentPrice := avgBuySize metrics in
            let '(killed, killStates, pm) :=
              KillSwitch.check now position tracker currentPrice None
                (EntryEngine.killStates e) (EntryEngine.positionManager e) in
            if killed then
              {| tokenRegistry := tokenRegistry s;
                 entryEngine :=
                   {| EntryEngine.positionManager := pm;
                      EntryEngine.exitStates := EntryEngine.exitStates e;
                      EntryEngine.killStates := killStates;
                      EntryEngine.missedRunners := EntryEngine.missedRunners e |};
                 processedTxCount := processedTxCount s |}
            else
              let '(exitEval, exitStates, pm) :=
                ExitEngine.evaluateExit now position currentPrice metrics tracker
                  (EntryEngine.exitStates e) pm in
              let '(exitStates, pm) :=
                match shouldFullExit exitEval, reason exitEval with
                | true, Some _ =>
                    ExitEngine.executeExit now position currentPrice exitEval
                      exitStates pm
                | _, _ => (exitStates, pm)
                end in
              {| tokenRegistry := tokenRegistry s;
                 entryEngine :=
                   {| EntryEngine.positionManager := pm;
                      EntryEngine.exitStates := exitStates;
                      EntryEngine.killStates := killStates;
                      EntryEngine.missedRunners := EntryEngine.missedRunners e |};
                 processedTxCount := processedTxCount s |}
        end
    end.

Definition checkStalePositions (now : Z) (s : t) : t :=
    let openPositions := PositionManager.getOpenPositions (positionManager s) in
    foldl (λ s position, checkStalePosition now position s) s openPositions.

  (** The periodic tick.  [rnd] gives the random part of the position id
      drawn for a token, should the tick open a position on it. *)
Definition recalculateScores (now : Z) (rnd : string → string) (s : t) : t :=
    let activeTrackers := TokenRegistry.getActiveTrackers now (tokenRegistry s) in
    let s :=
      foldl (λ s ref,
               match tokenRegistry s !! ref with
               | None => s
               | Some tracker =>
                   if TokenTracker.dropped tracker then s
                   else if PositionManager.hasOpenPosition
                             (TokenTracker.tokenAddress tracker) (positionManager s)
                   then s
                   else evaluateForEntry now (rnd (TokenTracker.tokenAddress tracker))
                          ref tracker s
               end)
            s activeTrackers in
    checkStalePositions now s.

End engine.

End SignalEngine.

(** ** A reference runtime

    Decimal formatting of exact rationals and a square root truncated to nine
    decimals; used to run the model on concrete inputs. *)

(** [n] zeros. *)
Fixpoint zeros (n : nat) : string :=
  match n with
  | O => ""
  | S n' => "0" +:+ zeros n'
  end.

(** [s] padded with zeros on the left to the width [n]. *)
Definition pad_left (n : nat) (s : string) : string :=
  zeros (n - String.length s) +:+ s.

Definition decimal_toFixed (q : Q) (d : nat) : string :=
  let den := Z.pos (Qden q) in
  let scaled := Z.abs (Qnum q) * 10 ^ Z.of_nat d in
  let n := (2 * scaled + den) / (2 * den) in
  let int := n / 10 ^ Z.of_nat d in
  let frac := n mod 10 ^ Z.of_nat d in
  (if bool_decide (Qnum q < 0) then "-" else "")
    +:+ pretty int
    +:+ (if bool_decide (d = 0%nat) then "" else "." +:+ pad_left d (pretty frac)).

(** The least number of decimals, up to [fuel], that print [q] exactly. *)
Fixpoint exact_decimals (fuel : nat) (d : nat) (q : Q) : nat :=
  match fuel with
  | O => d
  | S fuel' =>
      if bool_decide ((Qnum q * 10 ^ Z.of_nat d) mod Z.pos (Qden q) = 0) then d
      else exact_decimals fuel' (S d) q
  end.

Definition decimal_toString (q : Q) : string :=
  decimal_toFixed q (exact_decimals 16 0 q).

Definition truncated_sqrt (q : Q) : Q :=
  Z.sqrt (Qnum q * 10 ^ 18 / Z.pos (Qden q)) # 1000000000.

Definition referenceRuntime : JSRuntime :=
  {| Math_sqrt := λ q, Q2Qc (truncated_sqrt q);
     toFixed := λ q, decimal_toFixed q;
     Number_toString := λ q, decimal_toString q |}.

(** * Definitions used to state the properties *)

(** The score as the specification writes it. *)
Definition scoreFormula (m : RollingMetrics) : Z :=
  let p1 := if Qclt_le_dec 1 (largestBuy m) then 5 else 0 in
  let p2 := if Z.eq_dec (txCount60s m) 0 then 10 else 0 in
  Z.max 0 (buyers5m m * 2 + txAcceleration m * 3 + repeatBuyers m * 2 - p1 - p2).

(** The number of entries of a list whose timestamp is at or after a
    cutoff. *)
Fixpoint entriesSince (cutoff : Z) (l : list Transaction) : nat :=
  match l with
  | [] => 0
  | tx :: l' =>
      ((if Z_le_dec cutoff (tx_timestamp tx) then 1 else 0) + entriesSince cutoff l')%nat
  end.

(** A buffer fed by a sequence of [add]s, each at its own clock value. *)
Definition addAll (ops : list (Z * Transaction)) (b : MultiWindowBuffer.t)
  : MultiWindowBuffer.t :=
  foldl (λ b op, MultiWindowBuffer.add op.1 op.2 b) b ops.

(** Calls a client can make on a tracker. *)
Inductive TrackerOp :=
| TAddTransaction (now : Z) (tx : Transaction)
| TDrop (reason : string)
| TRecordMetadataEdit.

Definition runTrackerOp (tr : TokenTracker.t) (op : TrackerOp) : TokenTracker.t :=
  match op with
  | TAddTransaction now tx => TokenTracker.addTransaction now tx tr
  | TDrop reason => TokenTracker.drop reason tr
  | TRecordMetadataEdit => TokenTracker.recordMetadataEdit tr
  end.

Definition runTrackerOps (ops : list TrackerOp) (tr : TokenTracker.t) : TokenTracker.t :=
  foldl runTrackerOp tr ops.

(** What the metrics are computed from, and the drop flag and reason. *)
Definition sameTracking (a b : TokenTracker.t) : Prop :=
  TokenTracker.buffer a = TokenTracker.buffer b
  ∧ TokenTracker.uniqueBuyers a = TokenTracker.uniqueBuyers b
  ∧ TokenTracker.devWallet a = TokenTracker.devWallet b
  ∧ TokenTracker.devBuyCount a = TokenTracker.devBuyCount b
  ∧ TokenTracker.lastTxTimestamp a = TokenTracker.lastTxTimestamp b
  ∧ TokenTracker.dropped a = TokenTracker.dropped b
  ∧ TokenTracker.dropReason a = TokenTracker.dropReason b.

(** The six conditions of the filter stage, as the specification lists
    them, and the message of each. *)
Inductive FilterCondition :=
| LargestBuyAboveCeiling
| AvgBuySizeAboveCeiling
| AvgBuySizeBelowFloor
| BuySizeStdAboveCeiling
| DevRepeatBuys
| MetadataEdits.

Global Instance FilterCondition_eq_dec : EqDecision FilterCondition.
Proof. solve_decision. Defined.

Definition allFilterConditions : list FilterCondition :=
  [LargestBuyAboveCeiling; AvgBuySizeAboveCeiling; AvgBuySizeBelowFloor;
   BuySizeStdAboveCeiling; DevRepeatBuys; MetadataEdits].

Definition fails (tracker : TokenTracker.t) (m : RollingMetrics) (c : FilterCondition)
  : Prop :=
  match c with
  | LargestBuyAboveCeiling => (Qc_of_Z 2 < largestBuy m)%Qc
  | AvgBuySizeAboveCeiling => (Q2Qc (8 # 10) < avgBuySize m)%Qc
  | AvgBuySizeBelowFloor => (0 < avgBuySize m)%Qc ∧ (avgBuySize m < Q2Qc (3 # 100))%Qc
  | BuySizeStdAboveCeiling => (Q2Qc (5 # 10) < buySizeStd m)%Qc
  | DevRepeatBuys => 1 < TokenTracker.devBuyCount tracker
  | MetadataEdits => 1 < TokenTracker.metadataEditCount tracker
  end.

Global Instance fails_dec tracker m c : Decision (fails tracker m c).
Proof. destruct c; simpl; apply _. Defined.

Definition failureMessage {rt : JSRuntime} (tracker : TokenTracker.t) (m : RollingMetrics)
    (c : FilterCondition) : string :=
  match c with
  | LargestBuyAboveCeiling =>
      "largest_buy (" +:+ toFixed (largestBuy m) 3 +:+ " SOL) > "
        +:+ Number_toString (Qc_of_Z 2) +:+ " SOL"
  | AvgBuySizeAboveCeiling =>
      "avg_buy_size (" +:+ toFixed (avgBuySize m) 3 +:+ " SOL) > "
        +:+ Number_toString (Q2Qc (8 # 10)) +:+ " SOL"
  | AvgBuySizeBelowFloor =>
      "avg_buy_size (" +:+ toFixed (avgBuySize m) 3 +:+ " SOL) < "
        +:+ Number_toString (Q2Qc (3 # 100)) +:+ " SOL"
  | BuySizeStdAboveCeiling =>
      "buy_size_std (" +:+ toFixed (buySizeStd m) 3 +:+ ") indicates whale noise"
  | DevRepeatBuys =>
      "dev wallet bought " +:+ Number_toString (Qc_of_Z (TokenTracker.devBuyCount tracker))
        +:+ " times (max: " +:+ Number_toString (Qc_of_Z 1) +:+ ")"
  | MetadataEdits =>
      "metadata edited "
        +:+ Number_toString (Qc_of_Z (TokenTracker.metadataEditCount tracker))
        +:+ " times (max: " +:+ Number_toString (Qc_of_Z 1) +:+ ")"
  end.

(** The failing conditions, in the order of the checks. *)
Definition failingConditions (tracker : TokenTracker.t) (m : RollingMetrics)
  : list FilterCondition :=
  filter (fails tracker m) allFilterConditions.

(** The drop reason the specification asks for: one message per failing
    condition, joined. *)
Definition concatenatedReason {rt : JSRuntime} (tracker : TokenTracker.t) (m : RollingMetrics)
  : string :=
  join "; " (failureMessage tracker m <$> failingConditions tracker m).

(** A string mentions another one when it has it as a substring. *)
Definition mentions (needle hay : string) : Prop :=
  ∃ pre post, hay = pre +:+ needle +:+ post.

(** [s] starts with [prefix]. *)
Definition startsWith (prefix s : string) : Prop := ∃ rest, s = prefix +:+ rest.

(** ** Concrete inputs *)

(** A token whose only recorded buy, at time 0, is of 2.5 SOL. *)
Definition whaleTx : Transaction :=
  {| tx_tokenAddress := "TokenA"; tx_timestamp := 0; tx_buyerWallet := "walletA";
     tx_solAmount := Q2Qc (25 # 10); tx_txHash := "tx0" |}.

Definition whaleTracker : TokenTracker.t := TokenTracker.new 0 "TokenA" whaleTx.

Definition whaleEngine : SignalEngine.t :=
  {| SignalEngine.tokenRegistry := {[ "TokenA" := whaleTracker ]};
     SignalEngine.entryEngine := EntryEngine.new;
     SignalEngine.processedTxCount := 1 |}.

Definition noRandomness : string → string := λ _, "000000000000".

(** ** The position life cycle *)

(** The order of the life cycle: open, then partial, then closed. *)
Definition statusRank (s : Status) : nat :=
  match s with
  | open => 0
  | partial => 1
  | closed => 2
  end.

(** Every object of [h] is still in [h'], under the same id, no earlier in
    its life cycle, and untouched if it was closed. *)
Definition heapAdvances (h h' : list PaperPosition) : Prop :=
  ∀ a p, h !! a = Some p →
    ∃ p', h' !! a = Some p'
          ∧ pos_id p' = pos_id p
          ∧ (statusRank (status p) ≤ statusRank (status p'))%nat
          ∧ (status p = closed → p' = p).

(** Two positions that differ at most in [maxUnrealizedPnL]. *)
Definition sameTrade (p p' : PaperPosition) : Prop :=
  pos_id p' = pos_id p
  ∧ pos_tokenAddress p' = pos_tokenAddress p
  ∧ entryPrice p' = entryPrice p
  ∧ positionSizeSOL p' = positionSizeSOL p
  ∧ remainingSizeSOL p' = remainingSizeSOL p
  ∧ status p' = status p
  ∧ realizedPnL p' = realizedPnL p
  ∧ partialExitPrice p' = partialExitPrice p
  ∧ exitReason p' = exitReason p.

(** Calls on the trading components that share one position manager. *)
Inductive PositionOp :=
| OpOpenPosition (now : Z) (rnd tokenAddress : string) (price : Qc) (entryScore : Z)
| OpExecutePartialExit (now : Z) (positionId : string) (price : Qc)
| OpClosePosition (now : Z) (positionId : string) (price : Qc) (r : ExitReason)
| OpUpdateUnrealizedPnL (positionId : string) (price : Qc)
| OpEvaluateExit (now : Z) (position : nat) (price : Qc) (metrics : RollingMetrics)
    (tracker : TokenTracker.t)
| OpExecuteExit (now : Z) (position : nat) (price : Qc) (evaluation : ExitEvaluation)
| OpKillSwitchCheck (now : Z) (position : nat) (tracker : TokenTracker.t) (price : Qc)
    (latestTx : option Transaction).

Definition withPositionManager (pm : PositionManager.t) (e : EntryEngine.t)
  : EntryEngine.t :=
  {| EntryEngine.positionManager := pm;
     EntryEngine.exitStates := EntryEngine.exitStates e;
     EntryEngine.killStates := EntryEngine.killStates e;
     EntryEngine.missedRunners := EntryEngine.missedRunners e |}.

Definition runPositionOp (e : EntryEngine.t) (op : PositionOp) : EntryEngine.t :=
  let pm := EntryEngine.positionManager e in
  match op with
  | OpOpenPosition now rnd tokenAddress price entryScore =>
      withPositionManager
        (PositionManager.openPosition now rnd tokenAddress price entryScore pm).2 e
  | OpExecutePartialExit now positionId price =>
      withPositionManager (PositionManager.executePartialExit now positionId price pm) e
  | OpClosePosition now positionId price r =>
      withPositionManager (PositionManager.closePosition now positionId price r pm) e
  | OpUpdateUnrealizedPnL positionId price =>
      withPositionManager (PositionManager.updateUnrealizedPnL positionId price pm) e
  | OpEvaluateExit now position price metrics tracker =>
      let '(_, exitStates, pm) :=
        ExitEngine.evaluateExit now position price metrics tracker
          (EntryEngine.exitStates e) pm in
      {| EntryEngine.positionManager := pm;
         EntryEngine.exitStates := exitStates;
         EntryEngine.killStates := EntryEngine.killStates e;
         EntryEngine.missedRunners := EntryEngine.missedRunners e |}
  | OpExecuteExit now position price evaluation =>
      let '(exitStates, pm) :=
        ExitEngine.executeExit now position price evaluation
          (EntryEngine.exitStates e) pm in
      {| EntryEngine.positionManager := pm;
         EntryEngine.exitStates := exitStates;
         EntryEngine.killStates := EntryEngine.killStates e;
         EntryEngine.missedRunners := EntryEngine.missedRunners e |}
  | OpKillSwitchCheck now position tracker price latestTx =>
      let '(_, killStates, pm) :=
        KillSwitch.check now position tracker price latestTx
          (EntryEngine.killStates e) pm in
      {| EntryEngine.positionManager := pm;
         EntryEngine.exitStates := EntryEngine.exitStates e;
         EntryEngine.killStates := killStates;
         EntryEngine.missedRunners := EntryEngine.missedRunners e |}
  end.

Definition runPositionOps (ops : list PositionOp) (e : EntryEngine.t) : EntryEngine.t :=
  foldl runPositionOp e ops.

(** A token that the pipeline enters: a burst of 194 buys of 0.5 SOL from
    194 wallets in the first 194 ms, then, two minutes later, six more buys
    with a shorter last interval.  At the 200th buy the token is 124.5 s old,
    has 200 buyers in 5 minutes, 6 transactions in the last 60 s and none in
    the 60 s before, an average buy of 0.5 SOL, and an estimated market cap
    of 200 * 0.5 * 30 = 3000. *)
Definition buy (t : Z) (wallet : string) (amount : Q) : Transaction :=
  {| tx_tokenAddress := "TokenB"; tx_timestamp := t; tx_buyerWallet := wallet;
     tx_solAmount := Q2Qc amount; tx_txHash := "tx_" +:+ wallet |}.

Definition wallet (i : nat) : string := "w" +:+ pretty i.

Definition burst : list Transaction :=
  (λ i, buy (Z.of_nat i) (wallet i) (1 # 2)) <$> seq 0 194.

Definition rampUp : list Transaction :=
  [buy 120000 (wallet 194) (1 # 2); buy 121000 (wallet 195) (1 # 2);
   buy 122000 (wallet 196) (1 # 2); buy 123000 (wallet 197) (1 # 2);
   buy 124000 (wallet 198) (1 # 2); buy 124500 (wallet 199) (1 # 2)].

(** The engine fed with transactions, each processed at its own timestamp. *)
Definition feed (txs : list Transaction) (s : SignalEngine.t) : SignalEngine.t :=
  foldl (λ s tx, SignalEngine.processTransaction (rt := referenceRuntime)
                   (tx_timestamp tx) "a1b2c3d4e5f6" tx s) s txs.

(** Five later buys of 2 SOL, ten seconds apart. *)
Definition laterBuys : list Transaction :=
  [buy 130000 (wallet 200) 2; buy 140000 (wallet 201) 2; buy 150000 (wallet 202) 2;
   buy 160000 (wallet 203) 2; buy 170000 (wallet 204) 2].

(** The engine after these 205 buys: it holds one open position on the
    token, entered at the 200th buy at 0.5. *)
Definition risingEngine : SignalEngine.t :=
  feed (burst ++ rampUp ++ laterBuys) SignalEngine.new.

(** A buy of 3.5 SOL by a wallet that is not the developer's. *)
Definition whaleBuy : Transaction := buy 175000 "whale" (35 # 10).

(** Status, remaining size and realized PnL of every position object. *)
Definition positionsView (s : SignalEngine.t) : list (Status * Qc * Qc) :=
  (λ p, (status p, remainingSizeSOL p, realizedPnL p))
    <$> PositionManager.heap (SignalEngine.positionManager s).

(** The outcome the specification asks of an evaluation that finds both the
    partial-exit and a full-exit condition on the open position [p] stored
    at [a]: half of the nominal size is sold first, at status [open], then
    the remainder is closed with the full-exit reason. *)
Definition partialThenFull (now : Z) (a : nat) (p : PaperPosition) (price : Qc)
    (r : ExitReason) (pm pm' : PositionManager.t) : Prop :=
  let sold := (positionSizeSOL p * Q2Qc (1 # 2))%Qc in
  let pm1 := PositionManager.executePartialExit now (pos_id p) price pm in
  (∃ p1, PositionManager.heap pm1 !! a = Some p1
         ∧ status p1 = partial
         ∧ remainingSizeSOL p1 = (remainingSizeSOL p - sold)%Qc
         ∧ realizedPnL p1 = (realizedPnL p + sold * priceChange price p)%Qc)
  ∧ pm' = PositionManager.closePosition now (pos_id p) price r pm1
  ∧ (∃ p2, PositionManager.heap pm' !! a = Some p2
           ∧ status p2 = closed
           ∧ remainingSizeSOL p2 = 0%Qc
           ∧ exitReason p2 = Some r
           ∧ partialExitPrice p2 = Some price
           ∧ realizedPnL p2
             = (realizedPnL p + sold * priceChange price p
                + (remainingSizeSOL p - sold) * priceChange price p)%Qc)
  ∧ PositionManager.positions pm' !! pos_id p = None
  ∧ PositionManager.closedPositions pm' = PositionManager.closedPositions pm ++ [a]
  ∧ PositionManager.tokenToPosition pm' !! pos_tokenAddress p = None.

(** The tracker of the token of [risingEngine], and its position. *)
Definition risingTracker : TokenTracker.t :=
  foldl (λ tr tx, TokenTracker.addTransaction (tx_timestamp tx) tx tr)
        (TokenTracker.new 0 "TokenB" (buy 0 (wallet 0) (1 # 2)))
        (tail burst ++ rampUp ++ laterBuys).

Definition risingPosition : PaperPosition :=
  {| pos_id := "pos_124500_a1b2c3d4e5f6";
     pos_tokenAddress := "TokenB";
     entryTimestamp := 124500;
     entryPrice := Q2Qc (1 # 2);
     entryScore := 418;
     positionSizeSOL := Qc_of_Z 1;
     remainingSizeSOL := Qc_of_Z 1;
     status := open;
     partialExitTimestamp := None;
     partialExitPrice := None;
     exitTimestamp := None;
     exitPrice := None;
     exitReason := None;
     maxUnrealizedPnL := Q2Qc (300 # 41);
     realizedPnL := 0%Qc |}.

Definition risingManager : PositionManager.t :=
  {| PositionManager.heap := [risingPosition];
     PositionManager.positions := {[ "pos_124500_a1b2c3d4e5f6" := 0%nat ]};
     PositionManager.closedPositions := [];
     PositionManager.tokenToPosition := {[ "TokenB" := "pos_124500_a1b2c3d4e5f6" ]} |}.

Definition risingExitStates : gmap string ExitState :=
  {[ "pos_124500_a1b2c3d4e5f6" :=
       {| es_positionId := "pos_124500_a1b2c3d4e5f6";
          consecutiveTxDecreases := 0;
          lastTxCount60s := 11;
          spikeDetected := false;
          postSpikeTxCount := None |} ]}.

Definition risingKillStates : gmap string KillState :=
  {[ "pos_124500_a1b2c3d4e5f6" :=
       {| ks_positionId := "pos_124500_a1b2c3d4e5f6";
          lastActivityTimestamp := 170000 |} ]}.

(** The parts of an engine that trading decisions read. *)
Definition tradingState (s : SignalEngine.t)
  : gmap string TokenTracker.t * PositionManager.t
    * gmap string ExitState * gmap string KillState :=
  (SignalEngine.tokenRegistry s,
   EntryEngine.positionManager (SignalEngine.entryEngine s),
   EntryEngine.exitStates (SignalEngine.entryEngine s),
   EntryEngine.killStates (SignalEngine.entryEngine s)).

(** A position manager with one open position, entered at 0.5, with its
    exit and kill-switch states, and a tracker of its token. *)
Definition demoManager : PositionManager.t :=
  (PositionManager.openPosition 1000 "abc" "TokenC" (Q2Qc (1 # 2)) 20
     PositionManager.empty).2.

Definition demoPosition : PaperPosition :=
  {| pos_id := "pos_1000_abc";
     pos_tokenAddress := "TokenC";
     entryTimestamp := 1000;
     entryPrice := Q2Qc (1 # 2);
     entryScore := 20;
     positionSizeSOL := Qc_of_Z 1;
     remainingSizeSOL := Qc_of_Z 1;
     status := open;
     partialExitTimestamp := None;
     partialExitPrice := None;
     exitTimestamp := None;
     exitPrice := None;
     exitReason := None;
     maxUnrealizedPnL := 0%Qc;
     realizedPnL := 0%Qc |}.

Definition demoTracker : TokenTracker.t :=
  TokenTracker.new 900 "TokenC"
    {| tx_tokenAddress := "TokenC"; tx_timestamp := 900; tx_buyerWallet := "dev";
       tx_solAmount := Q2Qc (1 # 2); tx_txHash := "h0" |}.

Definition demoExitStates : gmap string ExitState :=
  ExitEngine.initPosition "pos_1000_abc" 1 ∅.

Definition demoEntryEngine : EntryEngine.t :=
  {| EntryEngine.positionManager := demoManager;
     EntryEngine.exitStates := demoExitStates;
     EntryEngine.killStates := KillSwitch.initPosition 1000 "pos_1000_abc" ∅;
     EntryEngine.missedRunners := [] |}.

Definition demoMetrics : RollingMetrics :=
  TokenTracker.calculateMetrics (rt := referenceRuntime) 2000 demoTracker.

(** Settles one condition of the filter stage and rewrites its boolean
    test accordingly. *)
Ltac decide_condition P :=
  let Hyes := fresh "Hyes" in
  let Hno := fresh "Hno" in
  destruct (decide P) as [Hyes | Hno];
  [ rewrite (bool_decide_eq_true_2 P Hyes)
  | rewrite (bool_decide_eq_false_2 P Hno) ].

(** The position manager is well formed when every id bound in [positions]
    leads to an object with that id that is not closed, and no two objects
    have the same id. *)
Definition wfManager (pm : PositionManager.t) : Prop :=
  (∀ positionId a,
     PositionManager.positions pm !! positionId = Some a →
     ∃ p, PositionManager.heap pm !! a = Some p
          ∧ pos_id p = positionId ∧ status p ≠ closed)
  ∧ NoDup (pos_id <$> PositionManager.heap pm).

(** The ids drawn by the [openPosition] calls of a sequence are new: each
    differs from the id of every object created so far (what
    [generatePositionId] is for). *)
Fixpoint freshIds (ops : list PositionOp) (e : EntryEngine.t) : Prop :=
  match ops with
  | [] => True
  | op :: ops' =>
      match op with
      | OpOpenPosition now rnd _ _ _ =>
          generatePositionId now rnd
            ∉ pos_id <$> PositionManager.heap (EntryEngine.positionManager e)
      | _ => True
      end
      ∧ freshIds ops' (runPositionOp e op)
  end.

(** The sum of the counts of a [buyerCounts] map. *)
Definition totalCount (m : gmap string Z) : Z :=
  map_fold (λ _ v acc, v + acc) 0 m.

(** A ring buffer of three buys, one second, five seconds and nine seconds
    after time 0, with a window of five seconds. *)
Definition orderedRing : RingBuffer.t Transaction :=
  {| RingBuffer.buffer := [buy 1000 "a" 1; buy 5000 "b" 1; buy 9000 "c" 1];
     RingBuffer.windowMs := 5000 |}.

(** A buffer with a transaction exactly 60 seconds before time 120000. *)
Definition boundaryBuffer : MultiWindowBuffer.t :=
  {| MultiWindowBuffer.transactions :=
       [buy 0 "a" 1; buy 60000 "b" 1; buy 100000 "c" 1];
     MultiWindowBuffer.maxWindowMs := CONFIG.windows.buyers |}.

(** A tracker fed by a sequence of [addTransaction]s, each at its own clock
    value. *)
Definition addTransactions (ops : list (Z * Transaction)) (tr : TokenTracker.t)
  : TokenTracker.t :=
  foldl (λ tr op, TokenTracker.addTransaction op.1 op.2 tr) tr ops.

(** The developer buys once at the creation of the token and once more
    later. *)
Definition devTx (t : Z) : Transaction :=
  {| tx_tokenAddress := "TokenC"; tx_timestamp := t; tx_buyerWallet := "dev";
     tx_solAmount := Q2Qc (1 # 2); tx_txHash := "h" |}.

(** The order of the score tiers. *)
Definition tierRank (t : ScoreTier) : nat :=
  match t with
  | poor => 0
  | marginal => 1
  | good => 2
  | excellent => 3
  end.

(** An engine that tracks the token of [demoTracker] and holds the open
    position of [demoEntryEngine] on it. *)
Definition demoEngine : SignalEngine.t :=
  {| SignalEngine.tokenRegistry := {[ "TokenC" := demoTracker ]};
     SignalEngine.entryEngine := demoEntryEngine;
     SignalEngine.processedTxCount := 1 |}.

(** The token index agrees with the open positions: the token of every
    position bound in [positions] is indexed to that position's id, every
    entry of the index leads to a bound position of that token, and no
    position is bound under the empty id. *)
Definition tokenIndexed (pm : PositionManager.t) : Prop :=
  (∀ positionId a p,
     PositionManager.positions pm !! positionId = Some a →
     PositionManager.heap pm !! a = Some p →
     PositionManager.tokenToPosition pm !! pos_tokenAddress p = Some positionId)
  ∧ (∀ tokenAddress positionId,
       PositionManager.tokenToPosition pm !! tokenAddress = Some positionId →
       ∃ a p, PositionManager.positions pm !! positionId = Some a
              ∧ PositionManager.heap pm !! a = Some p
              ∧ pos_tokenAddress p = tokenAddress)
  ∧ PositionManager.positions pm !! "" = None.

(** Three entries on two tokens, an exit evaluation that sells half of the
    first position, a close of the third and a kill-switch check. *)
Definition demoOps : list PositionOp :=
  [OpOpenPosition 1000 "abc" "TokenC" (Q2Qc (1 # 2)) 20;
   OpOpenPosition 2000 "def" "TokenC" (Q2Qc (1 # 2)) 25;
   OpOpenPosition 3000 "ghi" "TokenD" (Q2Qc (1 # 4)) 30;
   OpExecuteExit 4000 0%nat (Q2Qc 2)
     {| shouldPartialExit := true; shouldFullExit := false; reason := None |};
   OpClosePosition 5000 "pos_3000_ghi" (Q2Qc (1 # 2)) no_activity_60s;
   OpKillSwitchCheck 90000 0%nat demoTracker (Q2Qc 1) None].

(** The archive holds the addresses of the closed positions, each once. *)
Definition archived (pm : PositionManager.t) : Prop :=
  (∀ a, a ∈ PositionManager.closedPositions pm
        ↔ ∃ p, PositionManager.heap pm !! a = Some p ∧ status p = closed)
  ∧ NoDup (PositionManager.closedPositions pm).

(** The books of a position agree with its status: an open position holds
    its whole size and has realized nothing; a partially exited one holds half
    and has realized half of its size at the partial-exit price; a closed one
    holds nothing and has realized the rest at the exit price. *)
Definition accounted (p : PaperPosition) : Prop :=
  positionSizeSOL p = Qc_of_Z 1
  ∧ match status p with
    | open =>
        remainingSizeSOL p = Qc_of_Z 1 ∧ realizedPnL p = 0%Qc
        ∧ partialExitPrice p = None ∧ exitPrice p = None ∧ exitReason p = None
    | partial =>
        remainingSizeSOL p = Q2Qc (1 # 2) ∧ exitPrice p = None ∧ exitReason p = None
        ∧ ∃ price1, partialExitPrice p = Some price1
                    ∧ realizedPnL p = (Q2Qc (1 # 2) * priceChange price1 p)%Qc
    | closed =>
        remainingSizeSOL p = 0%Qc
        ∧ ∃ price2 r, exitPrice p = Some price2 ∧ exitReason p = Some r
            ∧ realizedPnL p
              = match partialExitPrice p with
                | Some price1 =>
                    (Q2Qc (1 # 2) * priceChange price1 p
                     + Q2Qc (1 # 2) * priceChange price2 p)%Qc
                | None => priceChange price2 p
                end
    end.

(** A sequence of calls that reaches [executePartialExit] only through the
    exit engine. *)
Definition viaEngines (ops : list PositionOp) : Prop :=
  Forall (λ op, match op with OpExecutePartialExit _ _ _ => False | _ => True end) ops.

(** Every position object of a well-formed manager is [accounted]. *)
Definition allAccounted (pm : PositionManager.t) : Prop :=
  wfManager pm ∧ Forall accounted (PositionManager.heap pm).

(** Calls on a metrics calculator. *)
Inductive MetricsOp :=
| OpAddTrade (position : PaperPosition)
| OpRecordMissedRunner
| OpSetMissedRunners (count : Z)
| OpClearMetrics.

Definition runMetricsOp (m : MetricsCalculator.t) (op : MetricsOp) : MetricsCalculator.t :=
  match op with
  | OpAddTrade position => MetricsCalculator.addTrade position m
  | OpRecordMissedRunner => MetricsCalculator.recordMissedRunner m
  | OpSetMissedRunners count => MetricsCalculator.setMissedRunners count m
  | OpClearMetrics => MetricsCalculator.clear m
  end.

Definition runMetricsOps (ops : list MetricsOp) (m : MetricsCalculator.t)
  : MetricsCalculator.t :=
  foldl runMetricsOp m ops.

(** The sum of the realized PnL of the recorded trades. *)
Definition sumPnL (trades : list TradeLog) : Qc :=
  foldl (λ sum t, (sum + tl_realizedPnL t)%Qc) 0%Qc trades.

(** What [updateDrawdown] keeps between the balances and the drawdown. *)
Definition balanced (m : MetricsCalculator.t) : Prop :=
  MetricsCalculator.currentBalance m = sumPnL (MetricsCalculator.trades m)
  ∧ (MetricsCalculator.currentBalance m ≤ MetricsCalculator.peakBalance m)%Qc
  ∧ (0 ≤ MetricsCalculator.peakBalance m)%Qc
  ∧ (0 ≤ MetricsCalculator.maxDrawdown m)%Qc
  ∧ (MetricsCalculator.peakBalance m = 0%Qc → MetricsCalculator.maxDrawdown m = 0%Qc)
  ∧ ((0 < MetricsCalculator.peakBalance m)%Qc →
     ((MetricsCalculator.peakBalance m - MetricsCalculator.currentBalance m)
      / MetricsCalculator.peakBalance m * Qc_of_Z 100
      ≤ MetricsCalculator.maxDrawdown m)%Qc)
  ∧ (MetricsCalculator.trades m = [] → MetricsCalculator.maxDrawdown m = 0%Qc).

(** The number of recorded trades with a given exit reason ([None]: no
    exit reason). *)
Definition tradesWithReason (k : option ExitReason) (trades : list TradeLog) : Z :=
  Z.of_nat (length (filter (λ t, tl_exitReason t = k) trades)).

(** The sum of the counts of a breakdown. *)
Definition breakdownTotal (b : gmap (option ExitReason) Z) : Z :=
  map_fold (λ _ v acc, v + acc) 0 b.

(** ** The pipeline *)

(** What drives the signal engine: a transaction of the stream, the periodic
    tick of [recalculateScores], and the periodic [cleanup] of the token
    registry. *)
Inductive PipelineEvent :=
| EvTransaction (now : Z) (rnd : string) (tx : Transaction)
| EvTick (now : Z) (rnd : string → string)
| EvCleanup (now : Z).

Definition runEvent {rt : JSRuntime} (s : SignalEngine.t) (ev : PipelineEvent)
  : SignalEngine.t :=
  match ev with
  | EvTransaction now rnd tx => SignalEngine.processTransaction now rnd tx s
  | EvTick now rnd => SignalEngine.recalculateScores now rnd s
  | EvCleanup now =>
      {| SignalEngine.tokenRegistry := TokenRegistry.cleanup now (SignalEngine.tokenRegistry s);
         SignalEngine.entryEngine := SignalEngine.entryEngine s;
         SignalEngine.processedTxCount := SignalEngine.processedTxCount s |}
  end.

Definition runPipeline {rt : JSRuntime} (events : list PipelineEvent) (s : SignalEngine.t)
  : SignalEngine.t :=
  foldl runEvent s events.

(** Every buy in the recorded history of the tracker is at most the
    largest-buy ceiling. *)
Definition recordsOnlySmallBuys (tr : TokenTracker.t) : Prop :=
  Forall (λ tx, (tx_solAmount tx ≤ CONFIG.filters.maxLargestBuy)%Qc)
         (MultiWindowBuffer.transactions (TokenTracker.buffer tr)).





(** * Properties *)

(** ** Rational numbers *)

Lemma Math_max_l (a b : Qc) : (a ≤ Math_max a b)%Qc.
Proof. unfold Math_max. case_bool_decide; [done | reflexivity]. Qed.

Lemma Math_max_r (a b : Qc) : (b ≤ Math_max a b)%Qc.
Proof.
  unfold Math_max. case_bool_decide as Hle; [reflexivity|].
  by apply Qclt_le_weak, Qcnot_le_lt.
Qed.

(** [Math.max(...amounts)] bounds every amount. *)
Lemma foldl_Math_max_seed (rest : list Qc) (a0 : Qc) : (a0 ≤ foldl Math_max a0 rest)%Qc.
Proof.
  revert a0. induction rest as [|x rest IH]; intros a0; simpl.
  - reflexivity.
  - etrans; [apply Math_max_l | apply IH].
Qed.

Lemma foldl_Math_max_ge (rest : list Qc) (a0 x : Qc) :
  x ∈ a0 :: rest → (x ≤ foldl Math_max a0 rest)%Qc.
Proof.
  revert a0. induction rest as [|y rest IH]; intros a0 Hin.
  - apply list_elem_of_singleton in Hin as ->. reflexivity.
  - simpl. apply elem_of_cons in Hin as [-> | Hin].
    + etrans; [apply Math_max_l | apply foldl_Math_max_seed].
    + apply elem_of_cons in Hin as [-> | Hin].
      * etrans; [apply Math_max_r | apply foldl_Math_max_seed].
      * apply IH. by apply elem_of_cons; right.
Qed.

(** ** C7: the score *)

(** C7. For all metrics, [calculateScore] returns
    max(0, buyers5m*2 + txAcceleration*3 + repeatBuyers*2
           - (largestBuy > 1.0 ? 5 : 0) - (txCount60s == 0 ? 10 : 0)),
    and the returned score is never negative. *)
Theorem calculateScore_formula (now : Z) (tokenAddress : string) (m : RollingMetrics) :
  score (calculateScore now tokenAddress m) = scoreFormula m
  ∧ 0 ≤ score (calculateScore now tokenAddress m).
Proof.
  split; [|apply Z.le_max_l].
  unfold calculateScore, scoreFormula; simpl.
  f_equal.
  assert (Hp1 : (if bool_decide (1 < largestBuy m)%Qc
                 then CONFIG.scoring.largestBuyPenalty else 0)
                = if Qclt_le_dec 1 (largestBuy m) then 5 else 0).
  { destruct (Qclt_le_dec 1 (largestBuy m)) as [Hlt | Hle].
    - by rewrite bool_decide_eq_true_2.
    - rewrite bool_decide_eq_false_2; [done|]. by apply Qcle_not_lt. }
  assert (Hp2 : (if bool_decide (txCount60s m = 0)
                 then CONFIG.scoring.stagnationPenalty else 0)
                = if Z.eq_dec (txCount60s m) 0 then 10 else 0).
  { destruct (Z.eq_dec (txCount60s m) 0) as [E | E].
    - by rewrite bool_decide_eq_true_2.
    - by rewrite bool_decide_eq_false_2. }
  rewrite Hp1, Hp2.
  unfold CONFIG.scoring.buyersWeight, CONFIG.scoring.accelerationWeight,
    CONFIG.scoring.repeatBuyersWeight.
  reflexivity.
Qed.

(** ** C8: windowed counts *)

Lemma length_filter_since (cutoff : Z) (l : list Transaction) :
  length (filter (λ tx, cutoff ≤ tx_timestamp tx) l) = entriesSince cutoff l.
Proof.
  induction l as [|tx l IH]; [done|].
  rewrite filter_cons. simpl.
  destruct (decide (cutoff ≤ tx_timestamp tx)), (Z_le_dec cutoff (tx_timestamp tx));
    simpl; try lia.
Qed.

(** C8. For every window length and evaluation time the windowed count is
    the number of stored entries with timestamp >= now - w; an older entry is
    never in the window and an entry exactly at now - w is. *)
Theorem countWindow_exact (now w : Z) (b : MultiWindowBuffer.t) :
  MultiWindowBuffer.countWindow now w b
  = Z.of_nat (entriesSince (now - w) (MultiWindowBuffer.transactions b))
  ∧ (∀ tx, tx ∈ MultiWindowBuffer.getWindow now w b
           ↔ tx ∈ MultiWindowBuffer.transactions b ∧ now - w ≤ tx_timestamp tx)
  ∧ (∀ tx, tx_timestamp tx < now - w → tx ∉ MultiWindowBuffer.getWindow now w b)
  ∧ (∀ tx, tx ∈ MultiWindowBuffer.transactions b → tx_timestamp tx = now - w →
           tx ∈ MultiWindowBuffer.getWindow now w b).
Proof.
  unfold MultiWindowBuffer.countWindow, MultiWindowBuffer.getWindow.
  split; [by rewrite length_filter_since|].
  split; [intros tx; rewrite list_elem_of_filter; tauto|].
  split.
  - intros tx Hold Hin. apply list_elem_of_filter in Hin as [Hge _]. lia.
  - intros tx Hin Hts. apply list_elem_of_filter. split; [lia | done].
Qed.

Lemma addAll_maxWindowMs ops b :
  MultiWindowBuffer.maxWindowMs (addAll ops b) = MultiWindowBuffer.maxWindowMs b.
Proof. revert b. induction ops as [|op ops IH]; intros b; [done|]. simpl. by rewrite IH. Qed.

Lemma filter_since_addAll (c : Z) (ops : list (Z * Transaction)) (b : MultiWindowBuffer.t) :
  (∀ op, op ∈ ops → op.1 - MultiWindowBuffer.maxWindowMs b ≤ c) →
  filter (λ tx, c ≤ tx_timestamp tx) (MultiWindowBuffer.transactions (addAll ops b))
  = filter (λ tx, c ≤ tx_timestamp tx) (MultiWindowBuffer.transactions b ++ ops.*2).
Proof.
  revert b. induction ops as [|[t tx] ops IH]; intros b Hops.
  - simpl. by rewrite app_nil_r.
  - change (addAll ((t, tx) :: ops) b) with (addAll ops (MultiWindowBuffer.add t tx b)).
    rewrite fmap_cons, IH.
    + unfold MultiWindowBuffer.add, MultiWindowBuffer.evictOld.
      cbn [MultiWindowBuffer.transactions MultiWindowBuffer.maxWindowMs snd].
      replace (MultiWindowBuffer.transactions b ++ tx :: ops.*2)
        with ((MultiWindowBuffer.transactions b ++ [tx]) ++ ops.*2)
        by (by rewrite <- app_assoc).
      rewrite (filter_app _ (filter _ _) ops.*2), (filter_app _ (_ ++ [tx]) ops.*2).
      f_equal. rewrite list_filter_filter. apply list_filter_iff.
      intros x. specialize (Hops (t, tx) ltac:(left)). simpl in Hops. lia.
    + intros op Hin. apply Hops. by right.
Qed.

(** Eviction never removes an entry that a window no longer than the
    retention would count: after any sequence of [add]s the count of a window
    [w <= maxWindowMs], taken at or after the last [add], is the count over
    everything that was ever added. *)
Lemma countWindow_history (ops : list (Z * Transaction)) (maxW now w : Z) :
  w ≤ maxW →
  (∀ op, op ∈ ops → op.1 ≤ now) →
  MultiWindowBuffer.countWindow now w (addAll ops (MultiWindowBuffer.new maxW))
  = Z.of_nat (entriesSince (now - w) ops.*2).
Proof.
  intros Hw Hops.
  unfold MultiWindowBuffer.countWindow, MultiWindowBuffer.getWindow.
  rewrite filter_since_addAll.
  - simpl. by rewrite length_filter_since.
  - intros op Hin. simpl. specialize (Hops op Hin). lia.
Qed.

(** ** C6: dropping a tracker *)

Lemma addTransaction_dropped (now : Z) (tx : Transaction) (tr : TokenTracker.t) :
  TokenTracker.dropped tr = true → TokenTracker.addTransaction now tx tr = tr.
Proof. intros Hd. unfold TokenTracker.addTransaction. by rewrite Hd. Qed.

Lemma drop_dropped (reason : string) (tr : TokenTracker.t) :
  TokenTracker.dropped tr = true → TokenTracker.drop reason tr = tr.
Proof. intros Hd. unfold TokenTracker.drop. by rewrite Hd. Qed.

Lemma dropped_drop (reason : string) (tr : TokenTracker.t) :
  TokenTracker.dropped (TokenTracker.drop reason tr) = true.
Proof. unfold TokenTracker.drop. by destruct (TokenTracker.dropped tr) eqn:E. Qed.

Lemma runTrackerOps_dropped (ops : list TrackerOp) (tr : TokenTracker.t) :
  TokenTracker.dropped tr = true → sameTracking (runTrackerOps ops tr) tr.
Proof.
  revert tr. induction ops as [|op ops IH]; intros tr Hd.
  - by repeat split.
  - simpl. destruct op as [now tx | reason |]; simpl.
    + rewrite addTransaction_dropped by done. by apply IH.
    + rewrite drop_dropped by done. by apply IH.
    + destruct (IH (TokenTracker.recordMetadataEdit tr) Hd) as (?&?&?&?&?&?&?).
      by repeat split.
Qed.

Lemma calculateMetrics_buffer {rt : JSRuntime} (now : Z) (a b : TokenTracker.t) :
  TokenTracker.buffer a = TokenTracker.buffer b →
  TokenTracker.calculateMetrics now a = TokenTracker.calculateMetrics now b.
Proof. intros Hb. unfold TokenTracker.calculateMetrics. by rewrite Hb. Qed.

(** C6. [drop] is idempotent and one-way: after [drop reason] the flag is
    true and stays true under any later calls, the first recorded reason is
    kept, and a later [addTransaction] leaves the tracker as it is: buffer,
    unique buyers, developer-buy count, last-activity timestamp, hence the
    metrics at any evaluation instant, and the flag and reason. *)
Theorem drop_idempotent_one_way {rt : JSRuntime}
    (reason : string) (tr : TokenTracker.t) (ops : list TrackerOp) (at_ : Z) :
  let tr1 := TokenTracker.drop reason tr in
  let tr2 := runTrackerOps ops tr1 in
  TokenTracker.dropped tr1 = true
  ∧ TokenTracker.dropReason tr1
    = (if TokenTracker.dropped tr then TokenTracker.dropReason tr else Some reason)
  ∧ (∀ reason', TokenTracker.drop reason' tr1 = tr1)
  ∧ (∀ now tx, TokenTracker.addTransaction now tx tr1 = tr1)
  ∧ TokenTracker.dropped tr2 = true
  ∧ TokenTracker.dropReason tr2 = TokenTracker.dropReason tr1
  ∧ sameTracking tr2 tr1
  ∧ TokenTracker.calculateMetrics at_ tr2 = TokenTracker.calculateMetrics at_ tr1.
Proof.
  intros tr1 tr2.
  assert (Hd : TokenTracker.dropped tr1 = true) by apply dropped_drop.
  destruct (runTrackerOps_dropped ops tr1 Hd) as (Hb&Hu&Hw&Hc&Hl&Hf&Hr).
  split; [done|]. split.
  { unfold tr1, TokenTracker.drop. by destruct (TokenTracker.dropped tr). }
  split; [intros; by apply drop_dropped|].
  split; [intros; by apply addTransaction_dropped|].
  split; [fold tr2 in Hf; congruence|].
  split; [done|].
  split; [by repeat split|].
  by apply calculateMetrics_buffer.
Qed.

(** ** C10: first exit evaluation of a position *)

(** C10. When the exit-state map has no entry for the position's id,
    [evaluateExit] stores a fresh state (zero consecutive decreases,
    [lastTxCount60s] set to the current 60-second count, no spike marker) and
    answers that neither a partial nor a full exit is due, whatever the
    price, the profit and the metrics are; the position manager is not
    touched. *)
Theorem evaluateExit_without_state (now : Z) (position : nat) (p : PaperPosition)
    (currentPrice : Qc) (metrics : RollingMetrics) (tracker : TokenTracker.t)
    (exitStates : gmap string ExitState) (pm : PositionManager.t) :
  PositionManager.heap pm !! position = Some p →
  exitStates !! pos_id p = None →
  ExitEngine.evaluateExit now position currentPrice metrics tracker exitStates pm
  = ({| shouldPartialExit := false; shouldFullExit := false; reason := None |},
     <[pos_id p := {| es_positionId := pos_id p;
                      consecutiveTxDecreases := 0;
                      lastTxCount60s := txCount60s metrics;
                      spikeDetected := false;
                      postSpikeTxCount := None |}]> exitStates,
     pm).
Proof.
  intros Hp Hs. unfold ExitEngine.evaluateExit. by rewrite Hp, Hs.
Qed.

(** ** C9: the reason of a filter-stage drop *)

Lemma push_if_app (c : bool) (msg : string) (reasons : list string) :
  push_if c msg reasons = reasons ++ (if c then [msg] else []).
Proof. destruct c; simpl; [done | by rewrite app_nil_r]. Qed.

Lemma Zgt_decide (a b : Z) : bool_decide (a > b) = bool_decide (b < a).
Proof. apply bool_decide_ext. lia. Qed.

Section filter_reason.
Context {rt : JSRuntime}.

(** The array of reasons that [evaluateFilters] builds holds the messages of
    the failing conditions, in order. *)
Lemma evaluateFilters_spec (tracker : TokenTracker.t) (m : RollingMetrics) :
  evaluateFilters tracker m
  = {| fr_passed := bool_decide (failingConditions tracker m = []);
       fr_reason := if bool_decide (failingConditions tracker m = []) then None
                    else Some (concatenatedReason tracker m) |}.
Proof.
  unfold evaluateFilters.
  rewrite !push_if_app, !Zgt_decide, <- bool_decide_and.
  unfold CONFIG.filters.maxLargestBuy, CONFIG.filters.maxAvgBuySize,
    CONFIG.filters.minAvgBuySize, CONFIG.filters.maxDevBuys,
    CONFIG.filters.maxMetadataEdits.
  unfold concatenatedReason, failingConditions, allFilterConditions.
  decide_condition (Qc_of_Z 2 < largestBuy m)%Qc.
  all: decide_condition (Q2Qc (8 # 10) < avgBuySize m)%Qc.
  all: decide_condition ((0 < avgBuySize m)%Qc ∧ (avgBuySize m < Q2Qc (3 # 100))%Qc).
  all: decide_condition (Q2Qc (5 # 10) < buySizeStd m)%Qc.
  all: decide_condition (1 < TokenTracker.devBuyCount tracker).
  all: decide_condition (1 < TokenTracker.metadataEditCount tracker).
  all: repeat first [ rewrite filter_cons_True by (simpl; assumption)
                    | rewrite filter_cons_False by (simpl; assumption) ].
  all: rewrite filter_nil; reflexivity.
Qed.

Lemma evaluateForEntry_filtered (now : Z) (rnd key : string) (tracker : TokenTracker.t)
    (s : SignalEngine.t) :
  failingConditions tracker (TokenTracker.calculateMetrics now tracker) ≠ [] →
  SignalEngine.evaluateForEntry now rnd key tracker s
  = {| SignalEngine.tokenRegistry :=
         <[key := TokenTracker.drop
                    (concatenatedReason tracker (TokenTracker.calculateMetrics now tracker))
                    tracker]> (SignalEngine.tokenRegistry s);
       SignalEngine.entryEngine := SignalEngine.entryEngine s;
       SignalEngine.processedTxCount := SignalEngine.processedTxCount s |}.
Proof.
  intros Hfail. unfold SignalEngine.evaluateForEntry.
  rewrite evaluateFilters_spec. simpl.
  by rewrite bool_decide_eq_false_2.
Qed.

(** C9. When the filter stage fails, the reason handed to [drop] is the
    concatenation of one message per failing condition among the six checks:
    every failing condition is listed, and the below-floor average-buy-size
    condition is among them only when the average buy size is not zero. *)
Theorem filter_drop_reason_lists_every_failure (now : Z) (rnd key : string)
    (tracker : TokenTracker.t) (s : SignalEngine.t) :
  let m := TokenTracker.calculateMetrics now tracker in
  let s' := SignalEngine.evaluateForEntry now rnd key tracker s in
  fr_passed (evaluateFilters tracker m) = false →
  TokenTracker.dropped tracker = false →
  fr_reason (evaluateFilters tracker m) = Some (concatenatedReason tracker m)
  ∧ (∃ tr', SignalEngine.tokenRegistry s' !! key = Some tr'
            ∧ TokenTracker.dropped tr' = true
            ∧ TokenTracker.dropReason tr' = Some (concatenatedReason tracker m))
  ∧ (∀ c, c ∈ failingConditions tracker m ↔ fails tracker m c)
  ∧ (AvgBuySizeBelowFloor ∈ failingConditions tracker m → avgBuySize m ≠ 0%Qc).
Proof.
  intros m s' Hfailed Hlive.
  assert (Hne : failingConditions tracker m ≠ []).
  { rewrite evaluateFilters_spec in Hfailed. simpl in Hfailed.
    by apply bool_decide_eq_false in Hfailed. }
  assert (Hin : ∀ c, c ∈ failingConditions tracker m ↔ fails tracker m c).
  { intros c. unfold failingConditions. rewrite list_elem_of_filter.
    split; [tauto|]. intros Hc. split; [done|].
    unfold allFilterConditions. destruct c; repeat constructor. }
  split.
  { rewrite evaluateFilters_spec. simpl. by rewrite bool_decide_eq_false_2. }
  split.
  { exists (TokenTracker.drop (concatenatedReason tracker m) tracker).
    unfold s'. rewrite evaluateForEntry_filtered by done. simpl.
    rewrite lookup_insert_eq. split; [done|].
    unfold TokenTracker.drop. by rewrite Hlive. }
  split; [done|].
  intros Hbelow%Hin. simpl in Hbelow. destruct Hbelow as [Hpos _].
  intros Hzero. rewrite Hzero in Hpos. by apply Qclt_not_eq in Hpos.
Qed.

End filter_reason.

(** ** The filter stage on a large buy *)

Section largest_buy.
Context {rt : JSRuntime}.

Lemma getBuySizeStats_max_ge (now w : Z) (b : MultiWindowBuffer.t) (tx : Transaction) :
  tx ∈ MultiWindowBuffer.getWindow now w b →
  (tx_solAmount tx ≤ (MultiWindowBuffer.getBuySizeStats now w b).2)%Qc.
Proof.
  intros Hin. unfold MultiWindowBuffer.getBuySizeStats.
  apply (list_elem_of_fmap_2 tx_solAmount) in Hin.
  destruct (tx_solAmount <$> MultiWindowBuffer.getWindow now w b) as [|a0 rest].
  - by apply elem_of_nil in Hin.
  - simpl. by apply foldl_Math_max_ge.
Qed.

Lemma largestBuy_calculateMetrics (now : Z) (tr : TokenTracker.t) :
  largestBuy (TokenTracker.calculateMetrics now tr)
  = (MultiWindowBuffer.getBuySizeStats now CONFIG.windows.long (TokenTracker.buffer tr)).2.
Proof.
  unfold TokenTracker.calculateMetrics.
  by destruct (MultiWindowBuffer.getBuySizeStats _ _ _) as [[avg std] max].
Qed.

Lemma largestBuy_ge (now : Z) (tr : TokenTracker.t) (tx : Transaction) :
  tx ∈ MultiWindowBuffer.transactions (TokenTracker.buffer tr) →
  now - CONFIG.windows.long ≤ tx_timestamp tx →
  (tx_solAmount tx ≤ largestBuy (TokenTracker.calculateMetrics now tr))%Qc.
Proof.
  intros Hin Hts. rewrite largestBuy_calculateMetrics.
  apply getBuySizeStats_max_ge.
  unfold MultiWindowBuffer.getWindow. apply list_elem_of_filter. by split.
Qed.

(** A reason whose first failing condition is the largest-buy one starts
    with that condition's name. *)
Lemma concatenatedReason_largest_buy (tracker : TokenTracker.t) (m : RollingMetrics) :
  (Qc_of_Z 2 < largestBuy m)%Qc →
  failingConditions tracker m ≠ []
  ∧ ∃ rest, concatenatedReason tracker m = "largest_buy" +:+ rest.
Proof.
  intros Hlarge. unfold concatenatedReason, failingConditions, allFilterConditions.
  rewrite filter_cons_True by done. split; [done|].
  rewrite fmap_cons. unfold join. simpl.
  destruct (failureMessage tracker m <$> _); eauto.
Qed.

(** The filter stage on a tracker that holds a large buy. A token that is
    not yet dropped and has, inside the 180-second buy-size window of the
    evaluation, a recorded buy of 2.5 SOL is dropped by the filter stage when
    it is evaluated for entry, with a reason that mentions [largest_buy],
    whatever its other metrics are; the trading state is not touched. *)
Theorem largest_buy_in_window_is_dropped (now : Z) (rnd key : string)
    (tracker : TokenTracker.t) (s : SignalEngine.t) (big : Transaction) :
  TokenTracker.dropped tracker = false →
  big ∈ MultiWindowBuffer.transactions (TokenTracker.buffer tracker) →
  now - CONFIG.windows.long ≤ tx_timestamp big →
  tx_solAmount big = Q2Qc (25 # 10) →
  let s' := SignalEngine.evaluateForEntry now rnd key tracker s in
  ∃ tr' r,
    SignalEngine.tokenRegistry s' !! key = Some tr'
    ∧ TokenTracker.dropped tr' = true
    ∧ TokenTracker.dropReason tr' = Some r
    ∧ mentions "largest_buy" r
    ∧ SignalEngine.entryEngine s' = SignalEngine.entryEngine s.
Proof.
  intros Hlive Hin Hts Hamount s'.
  assert (Hlarge : (Qc_of_Z 2 < largestBuy (TokenTracker.calculateMetrics now tracker))%Qc).
  { eapply Qclt_le_trans; [|by apply largestBuy_ge]. by rewrite Hamount. }
  destruct (concatenatedReason_largest_buy tracker _ Hlarge) as [Hne [rest Hrest]].
  exists (TokenTracker.drop
            (concatenatedReason tracker (TokenTracker.calculateMetrics now tracker)) tracker),
         (concatenatedReason tracker (TokenTracker.calculateMetrics now tracker)).
  unfold s'. rewrite evaluateForEntry_filtered by done. simpl.
  rewrite lookup_insert_eq. unfold TokenTracker.drop. rewrite Hlive. simpl.
  repeat split; try done.
  exists "", rest. by rewrite Hrest.
Qed.

End largest_buy.

Lemma largest_buy_in_window_is_dropped_witness :
  TokenTracker.dropped whaleTracker = false
  ∧ whaleTx ∈ MultiWindowBuffer.transactions (TokenTracker.buffer whaleTracker)
  ∧ 1000 - CONFIG.windows.long ≤ tx_timestamp whaleTx
  ∧ tx_solAmount whaleTx = Q2Qc (25 # 10)
  ∧ ∃ tr' r,
      SignalEngine.tokenRegistry
        (SignalEngine.evaluateForEntry (rt := referenceRuntime)
           1000 "000000000000" "TokenA" whaleTracker whaleEngine) !! "TokenA" = Some tr'
      ∧ TokenTracker.dropped tr' = true
      ∧ TokenTracker.dropReason tr' = Some r
      ∧ mentions "largest_buy" r
      ∧ SignalEngine.entryEngine
          (SignalEngine.evaluateForEntry (rt := referenceRuntime)
             1000 "000000000000" "TokenA" whaleTracker whaleEngine)
        = SignalEngine.entryEngine whaleEngine.
Proof.
  assert (H1 : TokenTracker.dropped whaleTracker = false) by reflexivity.
  assert (H2 : whaleTx ∈ MultiWindowBuffer.transactions (TokenTracker.buffer whaleTracker))
    by (vm_compute; apply list_elem_of_here).
  assert (H3 : 1000 - CONFIG.windows.long ≤ tx_timestamp whaleTx) by (vm_compute; discriminate).
  assert (H4 : tx_solAmount whaleTx = Q2Qc (25 # 10)) by reflexivity.
  repeat (split; [assumption|]).
  exact (largest_buy_in_window_is_dropped (rt := referenceRuntime)
           1000 "000000000000" "TokenA" whaleTracker whaleEngine whaleTx H1 H2 H3 H4).
Defined.

Lemma filter_drop_reason_lists_every_failure_witness :
  fr_passed (evaluateFilters (rt := referenceRuntime) whaleTracker
               (TokenTracker.calculateMetrics (rt := referenceRuntime) 1000 whaleTracker))
  = false
  ∧ TokenTracker.dropped whaleTracker = false
  ∧ concatenatedReason (rt := referenceRuntime) whaleTracker
      (TokenTracker.calculateMetrics (rt := referenceRuntime) 1000 whaleTracker)
    = "largest_buy (2.500 SOL) > 2 SOL; avg_buy_size (2.500 SOL) > 0.8 SOL"
  ∧ fr_reason (evaluateFilters (rt := referenceRuntime) whaleTracker
                 (TokenTracker.calculateMetrics (rt := referenceRuntime) 1000 whaleTracker))
    = Some (concatenatedReason (rt := referenceRuntime) whaleTracker
              (TokenTracker.calculateMetrics (rt := referenceRuntime) 1000 whaleTracker)).
Proof.
  assert (H1 : fr_passed (evaluateFilters (rt := referenceRuntime) whaleTracker
                 (TokenTracker.calculateMetrics (rt := referenceRuntime) 1000 whaleTracker))
               = false) by (vm_compute; reflexivity).
  assert (H2 : TokenTracker.dropped whaleTracker = false) by reflexivity.
  split; [assumption|]. split; [assumption|].
  split; [vm_compute; reflexivity|].
  exact (proj1 (filter_drop_reason_lists_every_failure (rt := referenceRuntime)
                  1000 "000000000000" "TokenA" whaleTracker whaleEngine H1 H2)).
Defined.

(** ** The position manager *)

Lemma lookupPosition_Some (positionId : string) (pm : PositionManager.t)
    (a : nat) (p : PaperPosition) :
  PositionManager.lookupPosition positionId pm = Some (a, p)
  ↔ PositionManager.positions pm !! positionId = Some a
    ∧ PositionManager.heap pm !! a = Some p.
Proof.
  unfold PositionManager.lookupPosition.
  destruct (PositionManager.positions pm !! positionId) as [a'|]; simpl;
    [|split; [done | by intros [? _]]].
  destruct (PositionManager.heap pm !! a') as [p'|] eqn:E; simpl.
  - split; [intros [= -> ->]; done | intros [[= ->] ?]; congruence].
  - split; [done | intros [[= ->] ?]; congruence].
Qed.

Lemma heapAdvances_refl (h : list PaperPosition) : heapAdvances h h.
Proof. intros a p Hp. exists p. repeat split; [done | lia]. Qed.

Lemma heapAdvances_trans (h1 h2 h3 : list PaperPosition) :
  heapAdvances h1 h2 → heapAdvances h2 h3 → heapAdvances h1 h3.
Proof.
  intros H12 H23 a p Hp.
  destruct (H12 a p Hp) as (p2 & Hp2 & Hid2 & Hr2 & Hc2).
  destruct (H23 a p2 Hp2) as (p3 & Hp3 & Hid3 & Hr3 & Hc3).
  exists p3. repeat split; [done | congruence | lia |].
  intros Hclosed. specialize (Hc2 Hclosed). subst p2. by apply Hc3.
Qed.

Lemma heapAdvances_alloc (h : list PaperPosition) (p : PaperPosition) :
  heapAdvances h (h ++ [p]).
Proof.
  intros a q Hq. exists q. rewrite lookup_app_l by (by eapply lookup_lt_Some).
  repeat split; [done | lia].
Qed.

Lemma heapAdvances_update (h : list PaperPosition) (a : nat) (p p' : PaperPosition) :
  h !! a = Some p →
  pos_id p' = pos_id p →
  (statusRank (status p) ≤ statusRank (status p'))%nat →
  status p ≠ closed →
  heapAdvances h (<[a := p']> h).
Proof.
  intros Hp Hid Hrank Hlive b q Hq.
  destruct (decide (b = a)) as [-> | Hne].
  - exists p'. rewrite list_lookup_insert_eq by (by eapply lookup_lt_Some).
    assert (q = p) as -> by congruence. done.
  - exists q. rewrite list_lookup_insert_ne by done. repeat split; [done | lia].
Qed.

Lemma executePartialExit_advances now positionId price pm :
  heapAdvances (PositionManager.heap pm)
    (PositionManager.heap (PositionManager.executePartialExit now positionId price pm)).
Proof.
  unfold PositionManager.executePartialExit.
  destruct (PositionManager.lookupPosition positionId pm) as [[a p]|] eqn:E;
    [|apply heapAdvances_refl].
  apply lookupPosition_Some in E as [_ Hp].
  case_bool_decide as Hc; [apply heapAdvances_refl|]. simpl.
  eapply heapAdvances_update; [done | done | | done].
  simpl. destruct (status p); simpl; first [lia | done].
Qed.

Lemma closePosition_advances now positionId price r pm :
  heapAdvances (PositionManager.heap pm)
    (PositionManager.heap (PositionManager.closePosition now positionId price r pm)).
Proof.
  unfold PositionManager.closePosition.
  destruct (PositionManager.lookupPosition positionId pm) as [[a p]|] eqn:E;
    [|apply heapAdvances_refl].
  apply lookupPosition_Some in E as [_ Hp].
  case_bool_decide as Hc; [apply heapAdvances_refl|]. simpl.
  eapply heapAdvances_update; [done | done | | done].
  simpl. destruct (status p); simpl; lia.
Qed.

Lemma updateUnrealizedPnL_advances positionId price pm :
  heapAdvances (PositionManager.heap pm)
    (PositionManager.heap (PositionManager.updateUnrealizedPnL positionId price pm)).
Proof.
  unfold PositionManager.updateUnrealizedPnL.
  destruct (PositionManager.lookupPosition positionId pm) as [[a p]|] eqn:E;
    [|apply heapAdvances_refl].
  apply lookupPosition_Some in E as [_ Hp].
  case_bool_decide as Hc; [apply heapAdvances_refl|].
  case_bool_decide; [|apply heapAdvances_refl]. simpl.
  eapply heapAdvances_update; [done | done | | done].
  simpl. lia.
Qed.

Lemma openPosition_advances now rnd tokenAddress price entryScore pm :
  heapAdvances (PositionManager.heap pm)
    (PositionManager.heap
       (PositionManager.openPosition now rnd tokenAddress price entryScore pm).2).
Proof.
  unfold PositionManager.openPosition.
  destruct (PositionManager.tokenToPosition pm !! tokenAddress) as [existingId|];
    [|apply heapAdvances_alloc].
  destruct (PositionManager.lookupPosition existingId pm) as [[a p]|];
    [|apply heapAdvances_alloc].
  destruct (negb _); [apply heapAdvances_refl | apply heapAdvances_alloc].
Qed.

Lemma evaluateExit_advances now position price metrics tracker exitStates pm :
  heapAdvances (PositionManager.heap pm)
    (PositionManager.heap
       (ExitEngine.evaluateExit now position price metrics tracker exitStates pm).2).
Proof.
  unfold ExitEngine.evaluateExit.
  destruct (PositionManager.heap pm !! position) as [p|]; [|apply heapAdvances_refl].
  destruct (exitStates !! pos_id p) as [state|]; [|apply heapAdvances_refl].
  repeat match goal with
         | |- context [let '(_, _) := ?c in _] => destruct c
         | |- context [if ?c then _ else _] => destruct c
         end; simpl; apply updateUnrealizedPnL_advances.
Qed.

Lemma executeExit_advances now position price evaluation exitStates pm :
  heapAdvances (PositionManager.heap pm)
    (PositionManager.heap
       (ExitEngine.executeExit now position price evaluation exitStates pm).2).
Proof.
  unfold ExitEngine.executeExit.
  destruct (PositionManager.heap pm !! position) as [p|]; [|apply heapAdvances_refl].
  destruct (shouldPartialExit evaluation && bool_decide (status p = open)).
  - destruct (PositionManager.getPosition _ _);
      [|apply executePartialExit_advances].
    destruct (shouldFullExit evaluation), (reason evaluation); simpl;
      try apply executePartialExit_advances.
    eapply heapAdvances_trans;
      [apply executePartialExit_advances | apply closePosition_advances].
  - destruct (shouldFullExit evaluation), (reason evaluation); simpl;
      try apply heapAdvances_refl.
    apply closePosition_advances.
Qed.

Lemma check_advances now position tracker price latestTx states pm :
  heapAdvances (PositionManager.heap pm)
    (PositionManager.heap
       (KillSwitch.check now position tracker price latestTx states pm).2).
Proof.
  unfold KillSwitch.check, KillSwitch.trigger.
  destruct (PositionManager.heap pm !! position) as [p|]; [|apply heapAdvances_refl].
  destruct (states !! pos_id p) as [state|]; [|apply heapAdvances_refl].
  case_bool_decide; [apply closePosition_advances|].
  destruct latestTx as [latestTx|]; [|apply heapAdvances_refl].
  case_bool_decide; [apply closePosition_advances|].
  destruct (_ && _); [apply closePosition_advances | apply heapAdvances_refl].
Qed.

Lemma runPositionOp_advances (e : EntryEngine.t) (op : PositionOp) :
  heapAdvances (PositionManager.heap (EntryEngine.positionManager e))
    (PositionManager.heap (EntryEngine.positionManager (runPositionOp e op))).
Proof.
  destruct op; simpl.
  - apply openPosition_advances.
  - apply executePartialExit_advances.
  - apply closePosition_advances.
  - apply updateUnrealizedPnL_advances.
  - pose proof (evaluateExit_advances now position price metrics tracker
                  (EntryEngine.exitStates e) (EntryEngine.positionManager e)) as Hadv.
    by destruct (ExitEngine.evaluateExit _ _ _ _ _ _ _) as [[? ?] ?].
  - pose proof (executeExit_advances now position price evaluation
                  (EntryEngine.exitStates e) (EntryEngine.positionManager e)) as Hadv.
    by destruct (ExitEngine.executeExit _ _ _ _ _ _) as [? ?].
  - pose proof (check_advances now position tracker price latestTx
                  (EntryEngine.killStates e) (EntryEngine.positionManager e)) as Hadv.
    by destruct (KillSwitch.check _ _ _ _ _ _ _) as [[? ?] ?].
Qed.

Lemma runPositionOps_advances (ops : list PositionOp) (e : EntryEngine.t) :
  heapAdvances (PositionManager.heap (EntryEngine.positionManager e))
    (PositionManager.heap (EntryEngine.positionManager (runPositionOps ops e))).
Proof.
  revert e. induction ops as [|op ops IH]; intros e; [apply heapAdvances_refl|].
  simpl. eapply heapAdvances_trans; [apply runPositionOp_advances | apply IH].
Qed.

(** ** Well-formed position managers *)

Lemma fmap_pos_id_update (h : list PaperPosition) (a : nat) (p p' : PaperPosition) :
  h !! a = Some p → pos_id p' = pos_id p →
  pos_id <$> <[a := p']> h = pos_id <$> h.
Proof.
  intros Hp Hid. rewrite list_fmap_insert, Hid.
  apply list_insert_id. by rewrite list_lookup_fmap, Hp.
Qed.

Lemma wfManager_update pm a p p' closedPositions tokenToPosition :
  wfManager pm →
  PositionManager.heap pm !! a = Some p →
  pos_id p' = pos_id p →
  status p' ≠ closed →
  wfManager {| PositionManager.heap := <[a := p']> (PositionManager.heap pm);
               PositionManager.positions := PositionManager.positions pm;
               PositionManager.closedPositions := closedPositions;
               PositionManager.tokenToPosition := tokenToPosition |}.
Proof.
  intros [Hbound Hids] Hp Hid Hlive. split; simpl.
  - intros positionId b Hb. destruct (Hbound positionId b Hb) as (q & Hq & Hqid & Hqlive).
    destruct (decide (b = a)) as [-> | Hne].
    + exists p'. rewrite list_lookup_insert_eq by (by eapply lookup_lt_Some).
      split; [done|]. split; [congruence | done].
    + exists q. by rewrite list_lookup_insert_ne.
  - by erewrite fmap_pos_id_update.
Qed.

Lemma wfManager_release pm positionId a p p' closedPositions tokenToPosition :
  wfManager pm →
  PositionManager.positions pm !! positionId = Some a →
  PositionManager.heap pm !! a = Some p →
  pos_id p' = pos_id p →
  wfManager {| PositionManager.heap := <[a := p']> (PositionManager.heap pm);
               PositionManager.positions := delete positionId (PositionManager.positions pm);
               PositionManager.closedPositions := closedPositions;
               PositionManager.tokenToPosition := tokenToPosition |}.
Proof.
  intros [Hbound Hids] Hmap Hp Hid. split; simpl.
  - intros id' b Hb. apply lookup_delete_Some in Hb as [Hne Hb].
    destruct (Hbound id' b Hb) as (q & Hq & Hqid & Hqlive).
    destruct (Hbound positionId a Hmap) as (p0 & Hp0 & Hp0id & _).
    assert (b ≠ a) by (intros ->; congruence).
    exists q. by rewrite list_lookup_insert_ne.
  - by erewrite fmap_pos_id_update.
Qed.

Lemma wfManager_alloc pm p closedPositions tokenToPosition :
  wfManager pm →
  pos_id p ∉ pos_id <$> PositionManager.heap pm →
  status p ≠ closed →
  wfManager {| PositionManager.heap := PositionManager.heap pm ++ [p];
               PositionManager.positions :=
                 <[pos_id p := length (PositionManager.heap pm)]>
                   (PositionManager.positions pm);
               PositionManager.closedPositions := closedPositions;
               PositionManager.tokenToPosition := tokenToPosition |}.
Proof.
  intros [Hbound Hids] Hfresh Hlive. split; simpl.
  - intros positionId b Hb. apply lookup_insert_Some in Hb as [[<- <-] | [Hne Hb]].
    + exists p. by rewrite lookup_app_r, Nat.sub_diag.
    + destruct (Hbound positionId b Hb) as (q & Hq & Hqid & Hqlive).
      exists q. rewrite lookup_app_l by (by eapply lookup_lt_Some). done.
  - rewrite fmap_app. apply NoDup_app. split; [done|]. split.
    + intros x Hx Hin. apply list_elem_of_singleton in Hin as ->. done.
    + apply NoDup_singleton.
Qed.

Lemma executePartialExit_wf now positionId price pm :
  wfManager pm → wfManager (PositionManager.executePartialExit now positionId price pm).
Proof.
  intros Hwf. unfold PositionManager.executePartialExit.
  destruct (PositionManager.lookupPosition positionId pm) as [[a p]|] eqn:E; [|done].
  apply lookupPosition_Some in E as [_ Hp].
  case_bool_decide; [done|]. by eapply wfManager_update.
Qed.

Lemma closePosition_wf now positionId price r pm :
  wfManager pm → wfManager (PositionManager.closePosition now positionId price r pm).
Proof.
  intros Hwf. unfold PositionManager.closePosition.
  destruct (PositionManager.lookupPosition positionId pm) as [[a p]|] eqn:E; [|done].
  apply lookupPosition_Some in E as [Hmap Hp].
  case_bool_decide; [done|]. by eapply wfManager_release.
Qed.

Lemma updateUnrealizedPnL_wf positionId price pm :
  wfManager pm → wfManager (PositionManager.updateUnrealizedPnL positionId price pm).
Proof.
  intros Hwf. unfold PositionManager.updateUnrealizedPnL.
  destruct (PositionManager.lookupPosition positionId pm) as [[a p]|] eqn:E; [|done].
  apply lookupPosition_Some in E as [_ Hp].
  case_bool_decide; [done|]. case_bool_decide; [|done].
  by eapply wfManager_update.
Qed.

Lemma openPosition_wf now rnd tokenAddress price entryScore pm :
  wfManager pm →
  generatePositionId now rnd ∉ pos_id <$> PositionManager.heap pm →
  wfManager (PositionManager.openPosition now rnd tokenAddress price entryScore pm).2.
Proof.
  intros Hwf Hfresh.
  assert (Hcreated :
    wfManager
      {| PositionManager.heap :=
           PositionManager.heap pm
           ++ [{| pos_id := generatePositionId now rnd;
                  pos_tokenAddress := tokenAddress;
                  entryTimestamp := now;
                  entryPrice := price;
                  entryScore := entryScore;
                  positionSizeSOL := CONFIG.entry.positionSizeSOL;
                  remainingSizeSOL := CONFIG.entry.positionSizeSOL;
                  status := open;
                  partialExitTimestamp := None;
                  partialExitPrice := None;
                  exitTimestamp := None;
                  exitPrice := None;
                  exitReason := None;
                  maxUnrealizedPnL := 0;
                  realizedPnL := 0 |}];
         PositionManager.positions :=
           <[generatePositionId now rnd := length (PositionManager.heap pm)]>
             (PositionManager.positions pm);
         PositionManager.closedPositions := PositionManager.closedPositions pm;
         PositionManager.tokenToPosition :=
           <[tokenAddress := generatePositionId now rnd]>
             (PositionManager.tokenToPosition pm) |}).
  { by apply (wfManager_alloc pm
                {| pos_id := generatePositionId now rnd; status := open |}). }
  unfold PositionManager.openPosition.
  destruct (PositionManager.tokenToPosition pm !! tokenAddress) as [existingId|]; [|done].
  destruct (PositionManager.lookupPosition existingId pm) as [[a p]|]; [|done].
  by destruct (negb _).
Qed.

Lemma evaluateExit_wf now position price metrics tracker exitStates pm :
  wfManager pm →
  wfManager (ExitEngine.evaluateExit now position price metrics tracker exitStates pm).2.
Proof.
  intros Hwf. unfold ExitEngine.evaluateExit.
  destruct (PositionManager.heap pm !! position) as [p|]; [|done].
  destruct (exitStates !! pos_id p) as [state|]; [|done].
  repeat match goal with
         | |- context [let '(_, _) := ?c in _] => destruct c
         | |- context [if ?c then _ else _] => destruct c
         end; simpl; by apply updateUnrealizedPnL_wf.
Qed.

Lemma executeExit_wf now position price evaluation exitStates pm :
  wfManager pm →
  wfManager (ExitEngine.executeExit now position price evaluation exitStates pm).2.
Proof.
  intros Hwf. unfold ExitEngine.executeExit.
  destruct (PositionManager.heap pm !! position) as [p|]; [|done].
  destruct (shouldPartialExit evaluation && bool_decide (status p = open)).
  - destruct (PositionManager.getPosition _ _); [|by apply executePartialExit_wf].
    destruct (shouldFullExit evaluation), (reason evaluation); simpl;
      auto using executePartialExit_wf, closePosition_wf.
  - destruct (shouldFullExit evaluation), (reason evaluation); simpl;
      auto using closePosition_wf.
Qed.

Lemma check_wf now position tracker price latestTx states pm :
  wfManager pm →
  wfManager (KillSwitch.check now position tracker price latestTx states pm).2.
Proof.
  intros Hwf. unfold KillSwitch.check, KillSwitch.trigger.
  destruct (PositionManager.heap pm !! position) as [p|]; [|done].
  destruct (states !! pos_id p) as [state|]; [|done].
  case_bool_decide; [by apply closePosition_wf|].
  destruct latestTx as [latestTx|]; [|done].
  case_bool_decide; [by apply closePosition_wf|].
  destruct (_ && _); [by apply closePosition_wf | done].
Qed.

Lemma runPositionOps_wf (ops : list PositionOp) (e : EntryEngine.t) :
  wfManager (EntryEngine.positionManager e) →
  freshIds ops e →
  wfManager (EntryEngine.positionManager (runPositionOps ops e)).
Proof.
  revert e. induction ops as [|op ops IH]; intros e Hwf Hfresh; [done|].
  destruct Hfresh as [Hop Hrest]. simpl. apply IH; [|done].
  destruct op; simpl.
  - by apply openPosition_wf.
  - by apply executePartialExit_wf.
  - by apply closePosition_wf.
  - by apply updateUnrealizedPnL_wf.
  - pose proof (evaluateExit_wf now position price metrics tracker
                  (EntryEngine.exitStates e) _ Hwf) as Hw.
    by destruct (ExitEngine.evaluateExit _ _ _ _ _ _ _) as [[? ?] ?].
  - pose proof (executeExit_wf now position price evaluation
                  (EntryEngine.exitStates e) _ Hwf) as Hw.
    by destruct (ExitEngine.executeExit _ _ _ _ _ _) as [? ?].
  - pose proof (check_wf now position tracker price latestTx
                  (EntryEngine.killStates e) _ Hwf) as Hw.
    by destruct (KillSwitch.check _ _ _ _ _ _ _) as [[? ?] ?].
Qed.

(** In a well-formed manager the id of a closed object is bound to
    nothing: the archive has released it. *)
Lemma closed_position_is_released pm b q :
  wfManager pm →
  PositionManager.heap pm !! b = Some q →
  status q = closed →
  PositionManager.positions pm !! pos_id q = None.
Proof.
  intros [Hbound Hids] Hq Hclosed.
  destruct (PositionManager.positions pm !! pos_id q) as [a|] eqn:Hmap; [|done].
  destruct (Hbound _ _ Hmap) as (p & Hp & Hid & Hlive).
  assert (a = b) as ->.
  { eapply NoDup_lookup; [exact Hids | |];
      rewrite list_lookup_fmap; [rewrite Hp | rewrite Hq]; simpl; by f_equal. }
  congruence.
Qed.

(** ** C5: the life cycle of a position *)

Lemma closed_position_is_left_alone now positionId price r pm :
  (∀ a p, PositionManager.lookupPosition positionId pm = Some (a, p) → status p = closed) →
  PositionManager.executePartialExit now positionId price pm = pm
  ∧ PositionManager.closePosition now positionId price r pm = pm.
Proof.
  intros Hclosed.
  unfold PositionManager.executePartialExit, PositionManager.closePosition.
  destruct (PositionManager.lookupPosition positionId pm) as [[a p]|]; [|done].
  by rewrite (bool_decide_eq_true_2 _ (Hclosed a p eq_refl)).
Qed.

Lemma lookupPosition_after_close now positionId price r pm a p :
  PositionManager.lookupPosition positionId
    (PositionManager.closePosition now positionId price r pm) = Some (a, p) →
  status p = closed.
Proof.
  unfold PositionManager.closePosition.
  destruct (PositionManager.lookupPosition positionId pm) as [[b q]|] eqn:E.
  - case_bool_decide as Hc.
    + rewrite E. by intros [= -> ->].
    + intros [Hmap _]%lookupPosition_Some. simpl in Hmap.
      by rewrite lookup_delete_eq in Hmap.
  - by rewrite E.
Qed.

Lemma openPosition_existing now rnd tokenAddress price entryScore pm existingId a p :
  PositionManager.tokenToPosition pm !! tokenAddress = Some existingId →
  PositionManager.lookupPosition existingId pm = Some (a, p) →
  status p ≠ closed →
  PositionManager.openPosition now rnd tokenAddress price entryScore pm = (a, pm).
Proof.
  intros Htoken Hlookup Hlive. unfold PositionManager.openPosition.
  rewrite Htoken, Hlookup. by rewrite bool_decide_eq_false_2.
Qed.

(** C5. Over every sequence of [openPosition], [executePartialExit],
    [closePosition], [updateUnrealizedPnL], exit-evaluation, exit-execution
    and kill-switch calls, a position object keeps its id and its status
    only moves forward along open, partial, closed; a closed object is never
    modified again.  [executePartialExit] and [closePosition] on a closed (or
    already released) position leave the manager as it is, so a second close
    is a no-op; from a well-formed manager, with new ids drawn for new
    positions, this holds for the id of every closed position.
    [openPosition] for a token that has a position that is not closed returns
    that position and creates nothing. *)
Theorem position_status_is_monotone (ops : list PositionOp) (e : EntryEngine.t)
    (a : nat) (p : PaperPosition) :
  PositionManager.heap (EntryEngine.positionManager e) !! a = Some p →
  let pm' := EntryEngine.positionManager (runPositionOps ops e) in
  (∃ p', PositionManager.heap pm' !! a = Some p'
         ∧ pos_id p' = pos_id p
         ∧ (statusRank (status p) ≤ statusRank (status p'))%nat
         ∧ (status p = closed → p' = p))
  ∧ (∀ now positionId price r pm,
       (∀ b q, PositionManager.lookupPosition positionId pm = Some (b, q) →
               status q = closed) →
       PositionManager.executePartialExit now positionId price pm = pm
       ∧ PositionManager.closePosition now positionId price r pm = pm)
  ∧ (∀ now now' positionId price price' r r' pm,
       let pm1 := PositionManager.closePosition now positionId price r pm in
       PositionManager.closePosition now' positionId price' r' pm1 = pm1
       ∧ PositionManager.executePartialExit now' positionId price' pm1 = pm1)
  ∧ (wfManager (EntryEngine.positionManager e) → freshIds ops e →
     ∀ b q now price r,
       PositionManager.heap pm' !! b = Some q → status q = closed →
       PositionManager.executePartialExit now (pos_id q) price pm' = pm'
       ∧ PositionManager.closePosition now (pos_id q) price r pm' = pm')
  ∧ (∀ now rnd tokenAddress price entryScore pm existingId b q,
       PositionManager.tokenToPosition pm !! tokenAddress = Some existingId →
       PositionManager.lookupPosition existingId pm = Some (b, q) →
       status q ≠ closed →
       PositionManager.openPosition now rnd tokenAddress price entryScore pm = (b, pm)).
Proof.
  intros Hp pm'. split; [by apply runPositionOps_advances|].
  split; [intros; by apply closed_position_is_left_alone|].
  split.
  { intros now now' positionId price price' r r' pm pm1.
    destruct (closed_position_is_left_alone now' positionId price' r' pm1) as [H1 H2];
      [|done].
    intros b q. apply lookupPosition_after_close. }
  split.
  { intros Hwf Hfresh b q now price r Hq Hclosed.
    apply closed_position_is_left_alone. intros c q' [Hmap _]%lookupPosition_Some.
    pose proof (runPositionOps_wf ops e Hwf Hfresh) as Hwf'.
    pose proof (closed_position_is_released _ b q Hwf' Hq Hclosed) as Hnone.
    fold pm' in Hnone. congruence. }
  intros. by eapply openPosition_existing.
Qed.

(** ** Exit evaluation and execution *)

Lemma half_of_nominal :
  (CONFIG.exit.partialExitPercent / Qc_of_Z 100)%Qc = Q2Qc (1 # 2).
Proof. by apply Qc_is_canon. Qed.

Lemma sameTrade_refl (p : PaperPosition) : sameTrade p p.
Proof. by repeat split. Qed.

Lemma updateUnrealizedPnL_sameTrade positionId price pm a p :
  PositionManager.heap pm !! a = Some p →
  let pm' := PositionManager.updateUnrealizedPnL positionId price pm in
  PositionManager.positions pm' = PositionManager.positions pm
  ∧ PositionManager.closedPositions pm' = PositionManager.closedPositions pm
  ∧ PositionManager.tokenToPosition pm' = PositionManager.tokenToPosition pm
  ∧ ∃ p', PositionManager.heap pm' !! a = Some p' ∧ sameTrade p p'.
Proof.
  intros Hp pm'. unfold pm', PositionManager.updateUnrealizedPnL.
  destruct (PositionManager.lookupPosition positionId pm) as [[b q]|] eqn:E;
    [|repeat split; eauto using sameTrade_refl].
  apply lookupPosition_Some in E as [_ Hq].
  case_bool_decide; [repeat split; eauto using sameTrade_refl|].
  case_bool_decide; [|repeat split; eauto using sameTrade_refl].
  simpl. repeat split; try done.
  destruct (decide (b = a)) as [-> | Hne].
  - rewrite list_lookup_insert_eq by (by eapply lookup_lt_Some).
    assert (q = p) as -> by congruence.
    eexists. split; [done|]. by repeat split.
  - rewrite list_lookup_insert_ne by done. eauto using sameTrade_refl.
Qed.

(** An exit evaluation changes, in the position manager, at most the
    running maximum of the unrealized PnL. *)
Lemma evaluateExit_sameTrade now position price metrics tracker exitStates pm a p :
  PositionManager.heap pm !! a = Some p →
  let pm' :=
    (ExitEngine.evaluateExit now position price metrics tracker exitStates pm).2 in
  PositionManager.positions pm' = PositionManager.positions pm
  ∧ PositionManager.closedPositions pm' = PositionManager.closedPositions pm
  ∧ PositionManager.tokenToPosition pm' = PositionManager.tokenToPosition pm
  ∧ ∃ p', PositionManager.heap pm' !! a = Some p' ∧ sameTrade p p'.
Proof.
  intros Hp pm'. unfold pm', ExitEngine.evaluateExit.
  destruct (PositionManager.heap pm !! position) as [q|];
    [|repeat split; eauto using sameTrade_refl].
  destruct (exitStates !! pos_id q) as [state|];
    [|repeat split; eauto using sameTrade_refl].
  repeat match goal with
         | |- context [let '(_, _) := ?c in _] => destruct c
         | |- context [if ?c then _ else _] => destruct c
         end; simpl; by apply updateUnrealizedPnL_sameTrade.
Qed.

(** A full exit always comes with its reason. *)
Lemma evaluateExit_reason now position price metrics tracker exitStates pm :
  let ev := (ExitEngine.evaluateExit now position price metrics tracker exitStates pm).1.1 in
  shouldFullExit ev = true → ∃ r, reason ev = Some r.
Proof.
  unfold ExitEngine.evaluateExit.
  destruct (PositionManager.heap pm !! position) as [q|]; [|done].
  destruct (exitStates !! pos_id q) as [state|]; [|done].
  repeat match goal with
         | |- context [bool_decide ?P] => destruct (bool_decide P)
         | |- context [spikeDetected ?s] => destruct (spikeDetected s)
         | |- context [truthy_number ?n] => destruct (truthy_number n)
         end; simpl; intros; eauto; done.
Qed.

(** The partial exit of an evaluation is for open positions at or above
    the partial-profit threshold. *)
Lemma evaluateExit_partial now position price metrics tracker exitStates pm p :
  PositionManager.heap pm !! position = Some p →
  shouldPartialExit
    (ExitEngine.evaluateExit now position price metrics tracker exitStates pm).1.1 = true →
  status p = open
  ∧ (CONFIG.exit.partialProfitPercent ≤ priceChange price p * Qc_of_Z 100)%Qc.
Proof.
  intros Hp. unfold ExitEngine.evaluateExit. rewrite Hp.
  destruct (exitStates !! pos_id p) as [state|]; [|done].
  repeat match goal with
         | |- context [let '(_, _) := ?c in _] => destruct c
         end; simpl.
  intros [Ho Hpnl]%andb_true_iff.
  by apply bool_decide_eq_true in Ho, Hpnl.
Qed.

(** A kill-switch check that does not fire leaves the position manager
    alone. *)
Lemma check_not_fired now position tracker price latestTx states pm :
  (KillSwitch.check now position tracker price latestTx states pm).1.1 = false →
  (KillSwitch.check now position tracker price latestTx states pm).2 = pm.
Proof.
  unfold KillSwitch.check, KillSwitch.trigger.
  destruct (PositionManager.heap pm !! position) as [p|]; [|done].
  destruct (states !! pos_id p) as [state|]; [|done].
  case_bool_decide; [done|].
  destruct latestTx as [latestTx|]; [|done].
  case_bool_decide; [done|].
  by destruct (_ && _).
Qed.

Lemma executeExit_partial_then_full now a p price evaluation r exitStates pm :
  PositionManager.heap pm !! a = Some p →
  PositionManager.positions pm !! pos_id p = Some a →
  status p = open →
  shouldPartialExit evaluation = true →
  shouldFullExit evaluation = true →
  reason evaluation = Some r →
  let out := ExitEngine.executeExit now a price evaluation exitStates pm in
  out.1 = delete (pos_id p) exitStates
  ∧ partialThenFull now a p price r pm out.2.
Proof.
  intros Hp Hmap Hopen Hpartial Hfull Hreason out.
  assert (Hlt : (a < length (PositionManager.heap pm))%nat) by (by eapply lookup_lt_Some).
  assert (Hlookup : PositionManager.lookupPosition (pos_id p) pm = Some (a, p))
    by (by apply lookupPosition_Some).
  set (pm1 := PositionManager.executePartialExit now (pos_id p) price pm).
  assert (Hpm1 : ∃ p1, PositionManager.lookupPosition (pos_id p) pm1 = Some (a, p1)
                       ∧ pos_id p1 = pos_id p
                       ∧ pos_tokenAddress p1 = pos_tokenAddress p
                       ∧ entryPrice p1 = entryPrice p
                       ∧ partialExitPrice p1 = Some price
                       ∧ status p1 = partial
                       ∧ remainingSizeSOL p1
                         = (remainingSizeSOL p - positionSizeSOL p * Q2Qc (1 # 2))%Qc
                       ∧ realizedPnL p1
                         = (realizedPnL p
                            + positionSizeSOL p * Q2Qc (1 # 2) * priceChange price p)%Qc
                       ∧ PositionManager.closedPositions pm1
                         = PositionManager.closedPositions pm
                       ∧ length (PositionManager.heap pm1)
                         = length (PositionManager.heap pm)).
  { unfold pm1, PositionManager.executePartialExit. rewrite Hlookup.
    rewrite bool_decide_eq_false_2 by (rewrite Hopen; done).
    eexists. split.
    - apply lookupPosition_Some. simpl. split; [done|].
      by apply list_lookup_insert_eq.
    - simpl. rewrite half_of_nominal, length_insert. by repeat split. }
  destruct Hpm1 as (p1 & Hl1 & Hid1 & Htok1 & Hentry1 & Hpp1 & Hst1 & Hrem1 & Hpnl1 & Hcl1 & Hlen1).
  assert (Hout : out = (delete (pos_id p) exitStates,
                        PositionManager.closePosition now (pos_id p) price r pm1)).
  { unfold out, ExitEngine.executeExit. rewrite Hp, Hpartial, Hfull, Hreason.
    rewrite bool_decide_eq_true_2 by done. simpl. fold pm1.
    unfold PositionManager.getPosition. by rewrite Hl1. }
  rewrite Hout. simpl. split; [done|].
  unfold partialThenFull. fold pm1.
  pose proof Hl1 as [Hmap1 Hheap1]%lookupPosition_Some.
  split; [by exists p1|]. split; [done|].
  unfold PositionManager.closePosition. rewrite Hl1.
  rewrite bool_decide_eq_false_2 by (rewrite Hst1; done). simpl.
  split.
  - eexists. split; [apply list_lookup_insert_eq; lia|]. simpl.
    rewrite Hpp1, Hpnl1, Hrem1. unfold priceChange. rewrite Hentry1.
    by repeat split.
  - rewrite lookup_delete_eq, Hcl1, Htok1, lookup_delete_eq. done.
Qed.

(** ** C4: partial and full exit in one evaluation *)

(** C4. When one exit evaluation of an open position held by the manager
    finds both the partial-exit and a full-exit condition, executing it sells
    half of the nominal size first, while the status is [open] and against
    the size before the partial exit, and then closes the remainder with the
    full-exit reason: the status ends [closed], the remaining size 0, and the
    exit state of the position is discarded. *)
Theorem partial_exit_precedes_full_exit now a p price metrics tracker exitStates pm :
  PositionManager.heap pm !! a = Some p →
  PositionManager.positions pm !! pos_id p = Some a →
  status p = open →
  let evaluated := ExitEngine.evaluateExit now a price metrics tracker exitStates pm in
  let evaluation := evaluated.1.1 in
  shouldPartialExit evaluation = true →
  shouldFullExit evaluation = true →
  let executed := ExitEngine.executeExit now a price evaluation evaluated.1.2 evaluated.2 in
  ∃ r p', reason evaluation = Some r
          ∧ PositionManager.heap evaluated.2 !! a = Some p'
          ∧ sameTrade p p'
          ∧ partialThenFull now a p' price r evaluated.2 executed.2
          ∧ executed.1 !! pos_id p = None.
Proof.
  intros Hp Hmap Hopen evaluated evaluation Hpartial Hfull executed.
  destruct (evaluateExit_reason now a price metrics tracker exitStates pm Hfull)
    as [r Hr].
  destruct (evaluateExit_sameTrade now a price metrics tracker exitStates pm a p Hp)
    as (Hpos & _ & _ & p' & Hp' & Hsame).
  fold evaluated in Hpos, Hp'.
  destruct Hsame as (Hid & Htok & Hentry & Hsize & Hrem & Hst & Hpnl & Hpp & Hreason).
  destruct (executeExit_partial_then_full now a p' price evaluation r
              evaluated.1.2 evaluated.2) as [Hstates Hboth];
    [done | by rewrite Hpos, Hid | congruence | done | done | done |].
  exists r, p'. fold executed in Hstates, Hboth.
  split; [done|]. split; [done|]. split; [by repeat split|]. split; [done|].
  rewrite Hstates, Hid. apply lookup_delete_eq.
Qed.

(** ** C3: the periodic tick *)

(** What the body of the loop of [checkStalePositions] does with the exit
    evaluation of a position (kill switch not firing): it is executed only
    if it flags a full exit.  If it does not, nothing is executed, whatever
    the evaluation says about the partial exit: the position keeps its
    status, remaining size and realized PnL.  If it flags a full exit
    together with the partial exit, half of the nominal size is sold first,
    its PnL realized, and the remainder is closed in the same tick. *)
Theorem tick_partial_exit_needs_full_exit {rt : JSRuntime}
    (now : Z) (position : nat) (s : SignalEngine.t)
    (p : PaperPosition) (tracker : TokenTracker.t) :
  let e := SignalEngine.entryEngine s in
  let pm := EntryEngine.positionManager e in
  PositionManager.heap pm !! position = Some p →
  SignalEngine.tokenRegistry s !! pos_tokenAddress p = Some tracker →
  let metrics := TokenTracker.calculateMetrics now tracker in
  let price := avgBuySize metrics in
  (KillSwitch.check now position tracker price None (EntryEngine.killStates e) pm).1.1
  = false →
  let evaluated :=
    ExitEngine.evaluateExit now position price metrics tracker
      (EntryEngine.exitStates e) pm in
  let evaluation := evaluated.1.1 in
  let pm' := SignalEngine.positionManager (SignalEngine.checkStalePosition now position s) in
  (shouldFullExit evaluation = false →
   pm' = evaluated.2
   ∧ ∃ p', PositionManager.heap pm' !! position = Some p' ∧ sameTrade p p')
  ∧ (shouldPartialExit evaluation = true → shouldFullExit evaluation = true →
     PositionManager.positions pm !! pos_id p = Some position →
     ∃ r p', reason evaluation = Some r
             ∧ PositionManager.heap evaluated.2 !! position = Some p'
             ∧ sameTrade p p'
             ∧ partialThenFull now position p' price r evaluated.2 pm').
Proof.
  intros e pm Hp Htracker metrics price Hquiet evaluated evaluation pm'.
  pose proof (check_not_fired _ _ _ _ _ _ _ Hquiet) as Hsame.
  pose proof (evaluateExit_sameTrade now position price metrics tracker
                (EntryEngine.exitStates e) pm position p Hp) as Heval.
  fold evaluated in Heval. destruct Heval as (Hpos & _ & _ & p' & Hp' & Hsame').
  assert (Hpm' : pm' = if shouldFullExit evaluation
                       then match reason evaluation with
                            | Some _ =>
                                (ExitEngine.executeExit now position price evaluation
                                   evaluated.1.2 evaluated.2).2
                            | None => evaluated.2
                            end
                       else evaluated.2).
  { unfold pm', SignalEngine.checkStalePosition, SignalEngine.positionManager.
    fold e. fold pm. rewrite Hp. unfold TokenRegistry.getTracker. rewrite Htracker.
    fold metrics. fold price.
    destruct (KillSwitch.check now position tracker price None
                (EntryEngine.killStates e) pm) as [[killed killStates] pm0].
    simpl in Hquiet, Hsame. subst killed pm0.
    unfold evaluation, evaluated.
    destruct (ExitEngine.evaluateExit now position price metrics tracker
                (EntryEngine.exitStates e) pm) as [[ev exitStates] pm1].
    simpl. destruct (shouldFullExit ev); [|done].
    destruct (reason ev); [|done].
    by destruct (ExitEngine.executeExit _ _ _ _ _ _). }
  split.
  - intros Hfull. rewrite Hfull in Hpm'. rewrite Hpm'. eauto.
  - intros Hpartial Hfull Hmap.
    destruct (evaluateExit_reason now position price metrics tracker
                (EntryEngine.exitStates e) pm Hfull) as [r Hr].
    fold evaluated in Hr. fold evaluation in Hr.
    rewrite Hfull, Hr in Hpm'.
    destruct (evaluateExit_partial now position price metrics tracker
                (EntryEngine.exitStates e) pm p Hp Hpartial) as [Hopen _].
    destruct Hsame' as (Hid & Htok & Hentry & Hsize & Hrem & Hst & Hpnl & Hpp & Hreason).
    destruct (executeExit_partial_then_full now position p' price evaluation r
                evaluated.1.2 evaluated.2) as [_ Hboth];
      [done | by rewrite Hpos, Hid | congruence | done | done | done |].
    exists r, p'. rewrite Hpm'.
    split; [done|]. split; [done|]. split; [by repeat split | done].
Qed.

(** ** The pipeline on a concrete feed *)

(** What the engine holds after the 205 buys of the feed. *)
Lemma risingEngine_tradingState :
  tradingState risingEngine
  = ({[ "TokenB" := risingTracker ]}, risingManager, risingExitStates, risingKillStates).
Proof.
  vm_compute.
  refine (f_equal4 (λ a b c d, (a, b, c, d)) _ _ _ _); [reflexivity | | reflexivity..].
  do 3 f_equal; apply Qc_is_canon; reflexivity.
Qed.

Lemma tradingState_shape (s : SignalEngine.t) registry pm exitStates killStates :
  tradingState s = (registry, pm, exitStates, killStates) →
  s = {| SignalEngine.tokenRegistry := registry;
         SignalEngine.entryEngine :=
           {| EntryEngine.positionManager := pm;
              EntryEngine.exitStates := exitStates;
              EntryEngine.killStates := killStates;
              EntryEngine.missedRunners :=
                EntryEngine.missedRunners (SignalEngine.entryEngine s) |};
         SignalEngine.processedTxCount := SignalEngine.processedTxCount s |}.
Proof. destruct s as [? [? ? ? ?] ?]. unfold tradingState. simpl. by intros [= -> -> -> ->]. Qed.

Lemma risingEngine_shape :
  ∃ missed count,
    risingEngine
    = {| SignalEngine.tokenRegistry := {[ "TokenB" := risingTracker ]};
         SignalEngine.entryEngine :=
           {| EntryEngine.positionManager := risingManager;
              EntryEngine.exitStates := risingExitStates;
              EntryEngine.killStates := risingKillStates;
              EntryEngine.missedRunners := missed |};
         SignalEngine.processedTxCount := count |}.
Proof. eexists _, _. apply tradingState_shape, risingEngine_tradingState. Qed.

Lemma risingEngine_position :
  PositionManager.heap (EntryEngine.positionManager (SignalEngine.entryEngine risingEngine))
    !! 0%nat = Some risingPosition.
Proof. destruct risingEngine_shape as (missed & count & ->). reflexivity. Qed.

Lemma risingEngine_tracker :
  SignalEngine.tokenRegistry risingEngine !! "TokenB" = Some risingTracker.
Proof. destruct risingEngine_shape as (missed & count & ->). vm_compute. reflexivity. Qed.

Lemma risingEngine_view : positionsView risingEngine = [(open, Qc_of_Z 1, 0%Qc)].
Proof. destruct risingEngine_shape as (missed & count & ->). reflexivity. Qed.

(** ** C1: a whale buy on an open position *)

(** The pre-filter returns before the transaction reaches the registry, the
    kill switch or the exit engine: a transaction above the largest-buy
    ceiling of 2 SOL only bumps the counter of processed transactions. *)
Lemma processTransaction_quick_filtered {rt : JSRuntime}
    (now : Z) (rnd : string) (tx : Transaction) (s : SignalEngine.t) :
  (CONFIG.filters.maxLargestBuy < tx_solAmount tx)%Qc →
  SignalEngine.processTransaction now rnd tx s
  = {| SignalEngine.tokenRegistry := SignalEngine.tokenRegistry s;
       SignalEngine.entryEngine := SignalEngine.entryEngine s;
       SignalEngine.processedTxCount := SignalEngine.processedTxCount s + 1 |}.
Proof.
  intros Hlarge. unfold SignalEngine.processTransaction, quickFilterTransaction.
  by rewrite bool_decide_eq_true_2.
Qed.

(** C1 fails on the code. The engine holds an open position on the token,
    opened by the pipeline itself; a buy of 3.5 SOL by a wallet that is not
    the developer's arrives; after [processTransaction] the position is still
    open with its whole size, nothing is archived, and registry, exit states
    and kill-switch states are as before (the buy is not even recorded).  The
    kill switch, called on the same transaction, closes the position with
    [kill_switch_whale]. *)
Lemma whale_buy_on_open_position_is_ignored :
  positionsView risingEngine = [(open, Qc_of_Z 1, 0%Qc)]
  ∧ SignalEngine.tokenRegistry risingEngine !! tx_tokenAddress whaleBuy
    = Some risingTracker
  ∧ TokenTracker.devWallet risingTracker = Some "w0"
  ∧ tx_buyerWallet whaleBuy = "whale"
  ∧ tx_solAmount whaleBuy = Q2Qc (35 # 10)
  ∧ (let s' := SignalEngine.processTransaction (rt := referenceRuntime)
                 175000 "ffffffffffff" whaleBuy risingEngine in
     positionsView s' = [(open, Qc_of_Z 1, 0%Qc)]
     ∧ PositionManager.getClosedPositions (SignalEngine.positionManager s') = []
     ∧ tradingState s' = tradingState risingEngine)
  ∧ (let fired :=
       KillSwitch.check 175000 0 risingTracker
         (avgBuySize (TokenTracker.calculateMetrics (rt := referenceRuntime)
                        175000 risingTracker))
         (Some whaleBuy) risingKillStates risingManager in
     fired.1.1 = true
     ∧ (λ p, (status p, exitReason p)) <$> PositionManager.heap fired.2
       = [(closed, Some kill_switch_whale)]).
Proof.
  split; [exact risingEngine_view|].
  split; [exact risingEngine_tracker|].
  split; [vm_compute; reflexivity|].
  split; [reflexivity|]. split; [reflexivity|].
  split; [|vm_compute; done].
  rewrite (processTransaction_quick_filtered (rt := referenceRuntime))
    by (by vm_compute).
  destruct risingEngine_shape as (missed & count & ->).
  repeat split; reflexivity.
Qed.

(** ** C3 and the tick on the concrete feed *)

(** C3 fails on the code. The pipeline holds an open position entered at
    0.5, with its exit state; at the tick of time 181000 the price proxy is
    13/11, a PnL of 136%, above the partial-exit threshold of 120%; the kill
    switch does not fire and the exit evaluation asks for the partial exit
    and for no full exit.  The tick leaves the position open, with its whole
    size and nothing realized, and archives nothing.  [executeExit], which
    the tick does not call, sells half of the position on this very
    evaluation. *)
Lemma tick_leaves_partial_exit_undone :
  positionsView risingEngine = [(open, Qc_of_Z 1, 0%Qc)]
  ∧ SignalEngine.tokenRegistry risingEngine !! "TokenB" = Some risingTracker
  ∧ (let metrics := TokenTracker.calculateMetrics (rt := referenceRuntime)
                      181000 risingTracker in
     let evaluated :=
       ExitEngine.evaluateExit 181000 0 (avgBuySize metrics) metrics risingTracker
         risingExitStates risingManager in
     avgBuySize metrics = Q2Qc (13 # 11)
     ∧ (priceChange (avgBuySize metrics) risingPosition * Qc_of_Z 100)%Qc
       = Q2Qc (1500 # 11)
     ∧ (CONFIG.exit.partialProfitPercent
        ≤ priceChange (avgBuySize metrics) risingPosition * Qc_of_Z 100)%Qc
     ∧ (KillSwitch.check 181000 0 risingTracker (avgBuySize metrics) None
          risingKillStates risingManager).1.1 = false
     ∧ shouldPartialExit evaluated.1.1 = true
     ∧ shouldFullExit evaluated.1.1 = false
     ∧ (λ p, (status p, remainingSizeSOL p))
         <$> PositionManager.heap
               (ExitEngine.executeExit 181000 0 (avgBuySize metrics) evaluated.1.1
                  evaluated.1.2 evaluated.2).2
       = [(partial, Q2Qc (1 # 2))])
  ∧ (let s' := SignalEngine.recalculateScores (rt := referenceRuntime)
                 181000 noRandomness risingEngine in
     positionsView s' = [(open, Qc_of_Z 1, 0%Qc)]
     ∧ PositionManager.getClosedPositions (SignalEngine.positionManager s') = []).
Proof.
  split; [exact risingEngine_view|].
  split; [exact risingEngine_tracker|].
  split.
  - split; [apply Qc_is_canon; vm_compute; reflexivity|].
    split; [apply Qc_is_canon; vm_compute; reflexivity|].
    split; [apply (bool_decide_eq_true_1 _); vm_compute; reflexivity|].
    split; [vm_compute; reflexivity|].
    split; [vm_compute; reflexivity|].
    split; [vm_compute; reflexivity|].
    vm_compute. repeat f_equal; apply Qc_is_canon; reflexivity.
  - destruct risingEngine_shape as (missed & count & ->).
    split; vm_compute; reflexivity.
Qed.

Lemma risingEngine_kill_switch_quiet :
  (KillSwitch.check 181000 0 risingTracker
     (avgBuySize (TokenTracker.calculateMetrics (rt := referenceRuntime)
                    181000 risingTracker))
     None
     (EntryEngine.killStates (SignalEngine.entryEngine risingEngine))
     (EntryEngine.positionManager (SignalEngine.entryEngine risingEngine))).1.1 = false.
Proof. destruct risingEngine_shape as (missed & count & ->). vm_compute. reflexivity. Qed.

Lemma risingEngine_no_full_exit :
  shouldFullExit
    (ExitEngine.evaluateExit 181000 0
       (avgBuySize (TokenTracker.calculateMetrics (rt := referenceRuntime)
                      181000 risingTracker))
       (TokenTracker.calculateMetrics (rt := referenceRuntime) 181000 risingTracker)
       risingTracker
       (EntryEngine.exitStates (SignalEngine.entryEngine risingEngine))
       (EntryEngine.positionManager (SignalEngine.entryEngine risingEngine))).1.1 = false.
Proof. destruct risingEngine_shape as (missed & count & ->). vm_compute. reflexivity. Qed.

Lemma tick_partial_exit_needs_full_exit_witness :
  PositionManager.heap (EntryEngine.positionManager (SignalEngine.entryEngine risingEngine))
    !! 0%nat = Some risingPosition
  ∧ SignalEngine.tokenRegistry risingEngine !! pos_tokenAddress risingPosition
    = Some risingTracker
  ∧ (KillSwitch.check 181000 0 risingTracker
       (avgBuySize (TokenTracker.calculateMetrics (rt := referenceRuntime)
                      181000 risingTracker))
       None
       (EntryEngine.killStates (SignalEngine.entryEngine risingEngine))
       (EntryEngine.positionManager (SignalEngine.entryEngine risingEngine))).1.1 = false
  ∧ ∃ p', PositionManager.heap
            (SignalEngine.positionManager
               (SignalEngine.checkStalePosition (rt := referenceRuntime)
                  181000 0 risingEngine)) !! 0%nat = Some p'
          ∧ sameTrade risingPosition p'.
Proof.
  split; [exact risingEngine_position|].
  split; [exact risingEngine_tracker|].
  split; [exact risingEngine_kill_switch_quiet|].
  exact (proj2 (proj1 (tick_partial_exit_needs_full_exit (rt := referenceRuntime)
                         181000 0 risingEngine risingPosition risingTracker
                         risingEngine_position risingEngine_tracker
                         risingEngine_kill_switch_quiet)
                  risingEngine_no_full_exit)).
Defined.

Lemma demoManager_position : PositionManager.heap demoManager !! 0%nat = Some demoPosition.
Proof. reflexivity. Qed.

Lemma demoManager_binding :
  PositionManager.positions demoManager !! pos_id demoPosition = Some 0%nat.
Proof. vm_compute. reflexivity. Qed.

Lemma evaluateExit_without_state_witness :
  PositionManager.heap demoManager !! 0%nat = Some demoPosition
  ∧ (∅ : gmap string ExitState) !! pos_id demoPosition = None
  ∧ ExitEngine.evaluateExit 2000 0 (Q2Qc 2) demoMetrics demoTracker ∅ demoManager
    = ({| shouldPartialExit := false; shouldFullExit := false; reason := None |},
       <[pos_id demoPosition :=
           {| es_positionId := pos_id demoPosition;
              consecutiveTxDecreases := 0;
              lastTxCount60s := txCount60s demoMetrics;
              spikeDetected := false;
              postSpikeTxCount := None |}]> ∅,
       demoManager).
Proof.
  split; [exact demoManager_position|]. split; [reflexivity|].
  exact (evaluateExit_without_state 2000 0 demoPosition (Q2Qc 2) demoMetrics demoTracker
           ∅ demoManager demoManager_position eq_refl).
Defined.

Lemma partial_exit_precedes_full_exit_witness :
  PositionManager.heap demoManager !! 0%nat = Some demoPosition
  ∧ PositionManager.positions demoManager !! pos_id demoPosition = Some 0%nat
  ∧ status demoPosition = open
  ∧ (let evaluated :=
       ExitEngine.evaluateExit 2000 0 (Q2Qc 2) demoMetrics demoTracker
         demoExitStates demoManager in
     shouldPartialExit evaluated.1.1 = true
     ∧ shouldFullExit evaluated.1.1 = true
     ∧ ∃ r p',
         reason evaluated.1.1 = Some r
         ∧ PositionManager.heap evaluated.2 !! 0%nat = Some p'
         ∧ sameTrade demoPosition p'
         ∧ partialThenFull 2000 0 p' (Q2Qc 2) r evaluated.2
             (ExitEngine.executeExit 2000 0 (Q2Qc 2) evaluated.1.1
                evaluated.1.2 evaluated.2).2
         ∧ (ExitEngine.executeExit 2000 0 (Q2Qc 2) evaluated.1.1
              evaluated.1.2 evaluated.2).1 !! pos_id demoPosition = None).
Proof.
  assert (H1 := demoManager_position).
  assert (H2 := demoManager_binding).
  assert (H3 : status demoPosition = open) by reflexivity.
  assert (H4 : shouldPartialExit
                 (ExitEngine.evaluateExit 2000 0 (Q2Qc 2) demoMetrics demoTracker
                    demoExitStates demoManager).1.1 = true)
    by (vm_compute; reflexivity).
  assert (H5 : shouldFullExit
                 (ExitEngine.evaluateExit 2000 0 (Q2Qc 2) demoMetrics demoTracker
                    demoExitStates demoManager).1.1 = true)
    by (vm_compute; reflexivity).
  split; [exact H1|]. split; [exact H2|]. split; [exact H3|].
  split; [exact H4|]. split; [exact H5|].
  exact (partial_exit_precedes_full_exit 2000 0 demoPosition (Q2Qc 2) demoMetrics
           demoTracker demoExitStates demoManager H1 H2 H3 H4 H5).
Defined.

Lemma empty_wf : wfManager PositionManager.empty.
Proof.
  split.
  - intros positionId a H. cbn in H. by rewrite lookup_empty in H.
  - apply NoDup_nil_2.
Qed.

Lemma demoManager_wf : wfManager demoManager.
Proof. apply openPosition_wf; [apply empty_wf | apply not_elem_of_nil]. Qed.

Lemma demo_closed_id_is_released :
  let pm' :=
    EntryEngine.positionManager
      (runPositionOps
         [OpExecutePartialExit 2000 "pos_1000_abc" (Q2Qc 2);
          OpClosePosition 3000 "pos_1000_abc" (Q2Qc 2) tx_decrease_twice;
          OpOpenPosition 5000 "def" "TokenC" (Q2Qc (1 # 2)) 30]
         demoEntryEngine) in
  ∃ q, PositionManager.heap pm' !! 0%nat = Some q ∧ status q = closed
       ∧ PositionManager.positions pm' !! pos_id q = None.
Proof.
  intros pm'.
  assert (Hwf : wfManager pm').
  { apply runPositionOps_wf; [exact demoManager_wf|].
    cbn [freshIds]. repeat split.
    vm_compute. intros [H|H]%elem_of_cons; [discriminate | by apply elem_of_nil in H]. }
  assert (Hq : ∃ q, PositionManager.heap pm' !! 0%nat = Some q ∧ status q = closed).
  { vm_compute. eexists. split; reflexivity. }
  destruct Hq as (q & Hq & Hclosed). exists q. repeat split; [done..|].
  by eapply closed_position_is_released.
Qed.

Lemma position_status_is_monotone_witness :
  PositionManager.heap (EntryEngine.positionManager demoEntryEngine) !! 0%nat
  = Some demoPosition
  ∧ (let pm' :=
       EntryEngine.positionManager
         (runPositionOps
            [OpExecutePartialExit 2000 "pos_1000_abc" (Q2Qc 2);
             OpClosePosition 3000 "pos_1000_abc" (Q2Qc 2) tx_decrease_twice;
             OpExecutePartialExit 4000 "pos_1000_abc" (Q2Qc 2);
             OpOpenPosition 5000 "def" "TokenC" (Q2Qc (1 # 2)) 30]
            demoEntryEngine) in
     ∃ p', PositionManager.heap pm' !! 0%nat = Some p'
           ∧ pos_id p' = pos_id demoPosition
           ∧ (statusRank (status demoPosition) ≤ statusRank (status p'))%nat
           ∧ (status demoPosition = closed → p' = demoPosition))
  ∧ (let pm1 := PositionManager.closePosition 3000 "pos_1000_abc" (Q2Qc 2)
                  tx_decrease_twice demoManager in
     PositionManager.closePosition 4000 "pos_1000_abc" (Q2Qc 3) profit_target_full pm1
     = pm1
     ∧ PositionManager.executePartialExit 4000 "pos_1000_abc" (Q2Qc 3) pm1 = pm1).
Proof.
  pose proof (position_status_is_monotone
                [OpExecutePartialExit 2000 "pos_1000_abc" (Q2Qc 2);
                 OpClosePosition 3000 "pos_1000_abc" (Q2Qc 2) tx_decrease_twice;
                 OpExecutePartialExit 4000 "pos_1000_abc" (Q2Qc 2);
                 OpOpenPosition 5000 "def" "TokenC" (Q2Qc (1 # 2)) 30]
                demoEntryEngine 0%nat demoPosition demoManager_position)
    as (Hmono & _ & Hclosed & _).
  split; [exact demoManager_position|]. split; [exact Hmono|].
  exact (Hclosed 3000 4000 "pos_1000_abc" (Q2Qc 2) (Q2Qc 3)
           tx_decrease_twice profit_target_full demoManager).
Defined.

(** ** The ring buffers *)

Lemma filter_Forall {A} (P : A → Prop) `{!∀ x, Decision (P x)} (l : list A) :
  Forall P l → filter P l = l.
Proof.
  induction 1 as [|x l Hx _ IH]; [done|]. by rewrite filter_cons_True, IH.
Qed.

Section ring_buffer.
Context {T : Type} (timestamp : T → Z).

Lemma evictOld_buffer (now : Z) (b : RingBuffer.t T) :
  RingBuffer.buffer (RingBuffer.evictOld timestamp now b)
  = drop (RingBuffer.firstValidIndex timestamp (now - RingBuffer.windowMs b)
            (RingBuffer.buffer b))
         (RingBuffer.buffer b).
Proof.
  unfold RingBuffer.evictOld. case_bool_decide as Hi; [done|].
  by replace (RingBuffer.firstValidIndex timestamp _ _) with 0%nat by lia.
Qed.

Lemma evictOld_windowMs (now : Z) (b : RingBuffer.t T) :
  RingBuffer.windowMs (RingBuffer.evictOld timestamp now b) = RingBuffer.windowMs b.
Proof. unfold RingBuffer.evictOld. by case_bool_decide. Qed.

Lemma drop_firstValidIndex_filter (cutoff : Z) (l : list T) :
  filter (λ item, cutoff ≤ timestamp item)
         (drop (RingBuffer.firstValidIndex timestamp cutoff l) l)
  = filter (λ item, cutoff ≤ timestamp item) l.
Proof.
  induction l as [|x l IH]; [done|]. simpl.
  case_bool_decide as Hx; [|done].
  simpl. rewrite IH, filter_cons_False; [done | lia].
Qed.

Lemma drop_firstValidIndex_head (cutoff : Z) (l : list T) (x : T) :
  head (drop (RingBuffer.firstValidIndex timestamp cutoff l) l) = Some x →
  cutoff ≤ timestamp x.
Proof.
  induction l as [|y l IH]; [done|]. simpl.
  case_bool_decide as Hy; [done|].
  simpl. intros [= ->]. lia.
Qed.

Lemma drop_firstValidIndex_sorted (cutoff : Z) (l : list T) :
  Sorted Z.le (timestamp <$> l) →
  drop (RingBuffer.firstValidIndex timestamp cutoff l) l
  = filter (λ item, cutoff ≤ timestamp item) l.
Proof.
  intros Hs. apply Sorted_StronglySorted in Hs; [|intros ???; lia].
  induction l as [|x l IH]; [done|].
  rewrite fmap_cons in Hs. apply StronglySorted_inv in Hs as [Hs Hall].
  simpl. case_bool_decide as Hx.
  - simpl. rewrite filter_cons_False by lia. by apply IH.
  - simpl. rewrite filter_cons_True by lia. f_equal.
    symmetry. apply filter_Forall.
    rewrite Forall_fmap in Hall. eapply Forall_impl; [exact Hall|].
    simpl. intros y Hy. lia.
Qed.

(** X1. Eviction in a [RingBuffer] removes a leading run of items older
    than the window and nothing else: what is left is a suffix of the
    buffer, no item inside the window is ever removed, and the first item
    left, if any, is inside the window. *)
Theorem evictOld_keeps_the_window (now : Z) (b : RingBuffer.t T) :
  let b' := RingBuffer.evictOld timestamp now b in
  let inWindow := λ item, now - RingBuffer.windowMs b ≤ timestamp item in
  RingBuffer.buffer b' `suffix_of` RingBuffer.buffer b
  ∧ filter inWindow (RingBuffer.buffer b') = filter inWindow (RingBuffer.buffer b)
  ∧ (∀ x, (RingBuffer.getFirst timestamp now b).1 = Some x → inWindow x).
Proof.
  intros b' inWindow. subst b'. split; [|split].
  - rewrite evictOld_buffer. apply suffix_drop.
  - rewrite evictOld_buffer. apply drop_firstValidIndex_filter.
  - intros x. unfold RingBuffer.getFirst. simpl. rewrite evictOld_buffer.
    apply drop_firstValidIndex_head.
Qed.

(** X2. When the items of a [RingBuffer] are in timestamp order,
    [getAll] returns exactly the items inside the window and [count] their
    number; [add] of an item that keeps the order leaves exactly the items
    inside the window, still in order. *)
Theorem count_of_ordered_buffer (now : Z) (b : RingBuffer.t T) :
  Sorted Z.le (timestamp <$> RingBuffer.buffer b) →
  let inWindow := λ item, now - RingBuffer.windowMs b ≤ timestamp item in
  (RingBuffer.getAll timestamp now b).1 = filter inWindow (RingBuffer.buffer b)
  ∧ (RingBuffer.count timestamp now b).1
    = Z.of_nat (length (filter inWindow (RingBuffer.buffer b)))
  ∧ (∀ item, Sorted Z.le (timestamp <$> RingBuffer.buffer b ++ [item]) →
       RingBuffer.buffer (RingBuffer.add timestamp now item b)
       = filter inWindow (RingBuffer.buffer b ++ [item])
       ∧ Sorted Z.le (timestamp <$> RingBuffer.buffer (RingBuffer.add timestamp now item b))).
Proof.
  intros Hs inWindow.
  unfold RingBuffer.getAll, RingBuffer.count. simpl.
  rewrite evictOld_buffer, drop_firstValidIndex_sorted by done.
  split; [done|]. split; [done|].
  intros item Hs'. unfold RingBuffer.add.
  rewrite evictOld_buffer. simpl.
  rewrite drop_firstValidIndex_sorted by done. split; [done|].
  apply StronglySorted_Sorted.
  apply Sorted_StronglySorted in Hs'; [|intros ???; lia].
  revert Hs'. generalize (RingBuffer.buffer b ++ [item]). intros l Hl.
  induction l as [|x l IH]; [constructor|].
  rewrite fmap_cons in Hl. apply StronglySorted_inv in Hl as [Hl Hall].
  rewrite filter_cons. case_decide; [|by apply IH].
  rewrite fmap_cons. constructor; [by apply IH|].
  rewrite Forall_fmap in Hall |- *. 
  apply Forall_forall. intros y Hy%list_elem_of_filter.
  rewrite Forall_forall in Hall. apply Hall. tauto.
Qed.
End ring_buffer.
Lemma count_of_ordered_buffer_witness :
  Sorted Z.le (tx_timestamp <$> RingBuffer.buffer orderedRing)
  ∧ (RingBuffer.count tx_timestamp 10000 orderedRing).1 = 2.
Proof.
  assert (Hs : Sorted Z.le (tx_timestamp <$> RingBuffer.buffer orderedRing))
    by (repeat (constructor; try done)).
  split; [exact Hs|].
  destruct (count_of_ordered_buffer tx_timestamp 10000 orderedRing Hs) as (_ & -> & _).
  reflexivity.
Defined.

(** X3. [add] keeps only transactions inside the retention window of
    its clock value; the added transaction becomes the last one exactly when
    it is itself inside that window (a late transaction is not recorded);
    and every window up to the retention gains the added transaction exactly
    when its timestamp is inside that window. *)
Theorem add_extends_the_windows (now : Z) (tx : Transaction) (b : MultiWindowBuffer.t) :
  let b' := MultiWindowBuffer.add now tx b in
  (∀ x, x ∈ MultiWindowBuffer.transactions b' →
        now - MultiWindowBuffer.maxWindowMs b ≤ tx_timestamp x)
  ∧ (MultiWindowBuffer.getLast now b').1
    = (if bool_decide (now - MultiWindowBuffer.maxWindowMs b ≤ tx_timestamp tx)
       then Some tx else (MultiWindowBuffer.getLast now b).1)
  ∧ (∀ w, w ≤ MultiWindowBuffer.maxWindowMs b →
       MultiWindowBuffer.getWindow now w b'
       = MultiWindowBuffer.getWindow now w b
         ++ (if bool_decide (now - w ≤ tx_timestamp tx) then [tx] else [])).
Proof.
  intros b'. subst b'.
  unfold MultiWindowBuffer.add, MultiWindowBuffer.getLast, MultiWindowBuffer.evictOld,
    MultiWindowBuffer.getWindow.
  cbn [MultiWindowBuffer.transactions MultiWindowBuffer.maxWindowMs fst].
  split; [|split].
  - intros x Hx%list_elem_of_filter. tauto.
  - rewrite list_filter_filter, filter_app.
    rewrite (list_filter_iff _ (λ x, now - MultiWindowBuffer.maxWindowMs b ≤ tx_timestamp x))
      by (intros; tauto).
    rewrite (list_filter_iff (λ x, _ ∧ _)
               (λ x, now - MultiWindowBuffer.maxWindowMs b ≤ tx_timestamp x))
      by (intros; tauto).
    case_bool_decide as Htx.
    + rewrite (filter_cons_True _ tx []) by done. by rewrite filter_nil, last_snoc.
    + rewrite (filter_cons_False _ tx []) by done. by rewrite filter_nil, app_nil_r.
  - intros w Hw. rewrite list_filter_filter, filter_app.
    rewrite (list_filter_iff _ (λ x, now - w ≤ tx_timestamp x)) by (intros; lia).
    rewrite (list_filter_iff (λ x, _ ∧ _) (λ x, now - w ≤ tx_timestamp x))
      by (intros; lia).
    f_equal. case_bool_decide as Htx.
    + by rewrite (filter_cons_True _ tx []).
    + by rewrite (filter_cons_False _ tx []).
Qed.

(** X4. For [endMsAgo <= startMsAgo], the count of the range and the
    count of the window of [endMsAgo] add up to the count of the window of
    [startMsAgo] plus the number of transactions exactly [endMsAgo] old: a
    transaction on the boundary is counted on both sides. *)
Theorem countRange_countWindow (now startMsAgo endMsAgo : Z) (b : MultiWindowBuffer.t) :
  endMsAgo ≤ startMsAgo →
  MultiWindowBuffer.countRange now startMsAgo endMsAgo b
  + MultiWindowBuffer.countWindow now endMsAgo b
  = MultiWindowBuffer.countWindow now startMsAgo b
    + Z.of_nat (length (filter (λ tx, tx_timestamp tx = now - endMsAgo)
                               (MultiWindowBuffer.transactions b))).
Proof.
  intros Hle.
  unfold MultiWindowBuffer.countRange, MultiWindowBuffer.countWindow,
    MultiWindowBuffer.getRange, MultiWindowBuffer.getWindow.
  induction (MultiWindowBuffer.transactions b) as [|tx l IH]; [done|].
  rewrite !filter_cons.
  repeat case_decide; simpl length; lia.
Qed.
Lemma countRange_countWindow_witness :
  60000 ≤ 120000
  ∧ MultiWindowBuffer.countRange 120000 120000 60000 boundaryBuffer
    + MultiWindowBuffer.countWindow 120000 60000 boundaryBuffer
    = MultiWindowBuffer.countWindow 120000 120000 boundaryBuffer
      + Z.of_nat (length (filter (λ tx, tx_timestamp tx = 120000 - 60000)
                                 (MultiWindowBuffer.transactions boundaryBuffer))).
Proof.
  split; [lia|]. apply (countRange_countWindow 120000 120000 60000 boundaryBuffer). lia.
Defined.

Lemma totalCount_insert (m : gmap string Z) (k : string) (v : Z) :
  m !! k = None → totalCount (<[k := v]> m) = v + totalCount m.
Proof.
  intros Hk. unfold totalCount.
  apply (map_fold_insert_L (λ _ v acc, v + acc)); [|done].
  intros. lia.
Qed.

Lemma totalCount_update (m : gmap string Z) (k : string) (v v' : Z) :
  m !! k = Some v → totalCount (<[k := v']> m) = totalCount m + (v' - v).
Proof.
  intros Hk.
  rewrite <- (insert_delete_eq m k v'), totalCount_insert by apply lookup_delete_eq.
  rewrite <- (insert_delete_id m k v) at 2 by done.
  rewrite totalCount_insert by apply lookup_delete_eq. lia.
Qed.

Lemma countBuyers_snoc (txs : list Transaction) (tx : Transaction) :
  MultiWindowBuffer.countBuyers (txs ++ [tx])
  = <[tx_buyerWallet tx :=
        default 0 (MultiWindowBuffer.countBuyers txs !! tx_buyerWallet tx) + 1]>
      (MultiWindowBuffer.countBuyers txs).
Proof. unfold MultiWindowBuffer.countBuyers. by rewrite foldl_snoc. Qed.

Lemma countBuyers_spec (txs : list Transaction) :
  let m := MultiWindowBuffer.countBuyers txs in
  dom m = list_to_set (tx_buyerWallet <$> txs)
  ∧ map_Forall (λ _ v, 1 ≤ v) m
  ∧ totalCount m = Z.of_nat (length txs).
Proof.
  induction txs as [|tx txs IH] using rev_ind.
  - unfold MultiWindowBuffer.countBuyers. cbn.
    split; [by rewrite dom_empty_L|]. split; [apply map_Forall_empty|done].
  - destruct IH as (Hdom & Hpos & Hsum). rewrite countBuyers_snoc. cbn zeta.
    split; [|split].
    + rewrite dom_insert_L, Hdom, fmap_app, list_to_set_app_L. simpl.
      by rewrite (right_id_L ∅ (∪)), (comm_L (∪)).
    + apply map_Forall_insert_2; [|done].
      destruct (MultiWindowBuffer.countBuyers txs !! tx_buyerWallet tx) as [v|] eqn:Hv;
        simpl; [|lia].
      specialize (Hpos _ _ Hv). simpl in Hpos. lia.
    + rewrite length_app. simpl.
      destruct (MultiWindowBuffer.countBuyers txs !! tx_buyerWallet tx) as [v|] eqn:Hv;
        simpl.
      * rewrite (totalCount_update _ _ v) by done. lia.
      * rewrite totalCount_insert by done. lia.
Qed.

Lemma size_plus_repeats_le_total (m : gmap string Z) :
  map_Forall (λ _ v, 1 ≤ v) m →
  Z.of_nat (size m)
  + Z.of_nat (length (filter (λ kv : string * Z, 2 ≤ kv.2) (map_to_list m)))
  ≤ totalCount m.
Proof.
  induction m as [|k v m Hk Hfold IH] using map_first_key_ind.
  - intros _. rewrite map_size_empty, map_to_list_empty. done.
  - intros Hall. apply map_Forall_insert in Hall as [Hv Hall]; [|done].
    specialize (IH Hall).
    rewrite map_size_insert_None, totalCount_insert by done.
    rewrite map_to_list_insert_first_key by done.
    rewrite filter_cons. case_decide; simpl in *; lia.
Qed.

(** X5. In every window the number of repeat buyers is at most the
    number of unique buyers, and unique buyers plus repeat buyers is at most
    the number of transactions. *)
Theorem buyers_and_repeat_buyers_bound (now w : Z) (b : MultiWindowBuffer.t) :
  0 ≤ MultiWindowBuffer.getRepeatBuyers now w b
  ∧ MultiWindowBuffer.getRepeatBuyers now w b
    ≤ Z.of_nat (size (MultiWindowBuffer.getUniqueBuyers now w b))
  ∧ Z.of_nat (size (MultiWindowBuffer.getUniqueBuyers now w b))
    + MultiWindowBuffer.getRepeatBuyers now w b
    ≤ MultiWindowBuffer.countWindow now w b.
Proof.
  unfold MultiWindowBuffer.getRepeatBuyers, MultiWindowBuffer.getUniqueBuyers,
    MultiWindowBuffer.countWindow.
  destruct (countBuyers_spec (MultiWindowBuffer.getWindow now w b)) as (Hdom & Hpos & Hsum).
  rewrite <- Hdom, size_dom, <- Hsum.
  split; [lia|]. split.
  - rewrite <- length_map_to_list. apply Nat2Z.inj_le, length_filter.
  - by apply size_plus_repeats_le_total.
Qed.
Lemma foldl_Qcplus_le (l : list Qc) (a M : Qc) :
  Forall (λ x, x ≤ M)%Qc l →
  (foldl Qcplus a l ≤ a + Qc_of_Z (Z.of_nat (length l)) * M)%Qc.
Proof.
  revert a. induction l as [|x l IH]; intros a Hall.
  - cbn [foldl length]. change (Z.of_nat 0) with 0%Z. rewrite Z2Qc_inj_0.
    ring_simplify. reflexivity.
  - apply Forall_cons in Hall as [Hx Hall]. simpl foldl.
    etrans; [by apply IH|].
    replace (Z.of_nat (length (x :: l))) with (Z.of_nat (length l) + 1)
      by (simpl length; lia).
    rewrite Z2Qc_inj_add, Z2Qc_inj_1. ring_simplify.
    rewrite <- !Qcplus_assoc. apply Qcplus_le_mono_l.
    rewrite (Qcplus_comm x). apply Qcplus_le_mono_l. done.
Qed.

Lemma foldl_Math_max_elem (rest : list Qc) (a0 : Qc) :
  foldl Math_max a0 rest ∈ a0 :: rest.
Proof.
  revert a0. induction rest as [|x rest IH]; intros a0; simpl.
  - by left.
  - specialize (IH (Math_max a0 x)). apply elem_of_cons in IH as [-> | IH].
    + unfold Math_max. case_bool_decide; [right; left | left].
    + by do 2 right.
Qed.

Section buy_size.
Context {rt : JSRuntime}.

(** X6. The buy-size statistics of an empty window are all zero.  Of a
    window with transactions, the maximum is the amount of one of them and
    bounds every amount; so it exceeds a ceiling exactly when the amount of
    some transaction of the window does. *)
Theorem largest_buy_is_the_maximum (now w : Z) (b : MultiWindowBuffer.t) (ceiling : Qc) :
  let '(avg, std, max) := MultiWindowBuffer.getBuySizeStats now w b in
  let amounts := tx_solAmount <$> MultiWindowBuffer.getWindow now w b in
  (amounts = [] → avg = 0%Qc ∧ std = 0%Qc ∧ max = 0%Qc)
  ∧ (amounts ≠ [] →
       max ∈ amounts
       ∧ (∀ x, x ∈ amounts → (x ≤ max)%Qc)
       ∧ ((ceiling < max)%Qc ↔ ∃ x, x ∈ amounts ∧ (ceiling < x)%Qc)).
Proof.
  unfold MultiWindowBuffer.getBuySizeStats.
  destruct (tx_solAmount <$> MultiWindowBuffer.getWindow now w b) as [|a0 rest];
    [by split|].
  split; [done|]. intros _.
  assert (Hmax : ∀ x, x ∈ a0 :: rest → (x ≤ foldl Math_max a0 rest)%Qc)
    by (intros x; apply foldl_Math_max_ge).
  pose proof (foldl_Math_max_elem rest a0) as Helem.
  split; [exact Helem|]. split; [exact Hmax|]. split.
  - intros Hlarge. by exists (foldl Math_max a0 rest).
  - intros (x & Hx & Hlarge). eapply Qclt_le_trans; [exact Hlarge | by apply Hmax].
Qed.
End buy_size.
Lemma insertByTimestamp_Permutation (tx : Transaction) (l : list Transaction) :
  insertByTimestamp tx l ≡ₚ tx :: l.
Proof.
  induction l as [|y l IH]; [done|]. simpl.
  case_bool_decide; [done|]. rewrite IH. apply Permutation_swap.
Qed.

Lemma sortByTimestamp_Permutation (l : list Transaction) : sortByTimestamp l ≡ₚ l.
Proof.
  unfold sortByTimestamp. rewrite <- (reverse_Permutation l) at 2.
  induction (reverse l) as [|x r IH]; [done|]. simpl.
  by rewrite insertByTimestamp_Permutation, IH.
Qed.

Lemma insertByTimestamp_Sorted (tx : Transaction) (l : list Transaction) :
  StronglySorted Z.le (tx_timestamp <$> l) →
  StronglySorted Z.le (tx_timestamp <$> insertByTimestamp tx l).
Proof.
  induction l as [|y l IH]; intros Hs.
  - simpl. repeat constructor.
  - rewrite fmap_cons in Hs. apply StronglySorted_inv in Hs as [Hs Hall]. simpl.
    case_bool_decide as Hlt.
    + rewrite !fmap_cons. constructor; [by constructor|].
      constructor; [lia|]. eapply Forall_impl; [exact Hall|]. simpl. lia.
    + rewrite fmap_cons. constructor; [by apply IH|].
      rewrite insertByTimestamp_Permutation, fmap_cons. constructor; [lia | done].
Qed.

Lemma sortByTimestamp_Sorted (l : list Transaction) :
  StronglySorted Z.le (tx_timestamp <$> sortByTimestamp l).
Proof.
  unfold sortByTimestamp. induction (reverse l) as [|x r IH]; [constructor|].
  simpl. by apply insertByTimestamp_Sorted.
Qed.

(** The gaps between neighbours add up to the distance from the first to
    the last element. *)
Lemma totalInterval_telescopes (a : Z) (ts : list Z) :
  totalInterval (a :: ts) = default a (last ts) - a.
Proof.
  revert a. induction ts as [|b ts IH]; intros a; [simpl; lia|].
  change (totalInterval (a :: b :: ts)) with ((b - a) + totalInterval (b :: ts)).
  rewrite IH. destruct ts as [|c ts]; [simpl; lia|].
  rewrite (last_cons_cons b). 
  destruct (last (c :: ts)) eqn:Hl; simpl; [lia|].
  by apply last_None in Hl.
Qed.

Lemma StronglySorted_bounds (a : Z) (ts : list Z) :
  StronglySorted Z.le (a :: ts) →
  ∀ t, t ∈ a :: ts → a ≤ t ≤ default a (last ts).
Proof.
  revert a. induction ts as [|b ts IH]; intros a Hs t Ht.
  - apply list_elem_of_singleton in Ht as ->. simpl. lia.
  - apply StronglySorted_inv in Hs as [Hs Hall].
    apply Forall_cons in Hall as [Hab Hall].
    assert (Hlast : default a (last (b :: ts)) = default b (last ts)).
    { destruct ts as [|c ts]; [done|]. rewrite (last_cons_cons b).
      destruct (last (c :: ts)) eqn:Hl; [done|]. by apply last_None in Hl. }
    rewrite Hlast.
    apply elem_of_cons in Ht as [-> | Ht].
    + specialize (IH b Hs b ltac:(left)). lia.
    + specialize (IH b Hs t Ht). lia.
Qed.

(** X7. The mean transaction interval of a window is [Infinity] with
    fewer than two transactions; with [n >= 2] it is the time from the
    earliest to the latest transaction of the window, divided by [n - 1], in
    seconds, whatever the order of arrival. *)
Theorem txIntervalMean_is_span_over_gaps (now w : Z) (b : MultiWindowBuffer.t) :
  let txs := MultiWindowBuffer.getWindow now w b in
  let n := Z.of_nat (length txs) in
  (n < 2 → MultiWindowBuffer.getTxIntervalMean now w b = Infinity)
  ∧ (2 ≤ n →
     ∃ earliest latest,
       earliest ∈ tx_timestamp <$> txs ∧ latest ∈ tx_timestamp <$> txs
       ∧ (∀ t, t ∈ tx_timestamp <$> txs → earliest ≤ t ≤ latest)
       ∧ MultiWindowBuffer.getTxIntervalMean now w b
         = Finite (Qc_of_Z (latest - earliest) / Qc_of_Z (n - 1) / Qc_of_Z 1000)%Qc).
Proof.
  intros txs n. unfold MultiWindowBuffer.getTxIntervalMean. fold txs.
  split.
  - intros Hn. rewrite bool_decide_eq_true_2; [done | lia].
  - intros Hn. rewrite bool_decide_eq_false_2 by lia.
    pose proof (sortByTimestamp_Permutation txs) as Hperm.
    pose proof (sortByTimestamp_Sorted txs) as Hsorted.
    assert (Hlen : length (sortByTimestamp txs) = length txs) by by rewrite Hperm.
    assert (Hts : tx_timestamp <$> sortByTimestamp txs ≡ₚ tx_timestamp <$> txs)
      by by rewrite Hperm.
    rewrite Hlen. fold n.
    destruct (tx_timestamp <$> sortByTimestamp txs) as [|a ts] eqn:Hsort.
    { apply (f_equal length) in Hsort. rewrite length_fmap in Hsort.
      simpl in Hsort. lia. }
    exists a, (default a (last ts)).
    split; [rewrite <- Hts; by left|]. split.
    { rewrite <- Hts. destruct (last ts) as [z|] eqn:Hl; simpl; [|by left].
      right. by apply last_Some_elem_of. }
    split.
    + intros t Ht. rewrite <- Hts in Ht. by apply StronglySorted_bounds.
    + by rewrite totalInterval_telescopes.
Qed.

(** ** Token trackers and their registry *)

Lemma addTransaction_live (now : Z) (tx : Transaction) (tr : TokenTracker.t) (w : string) :
  TokenTracker.dropped tr = false →
  TokenTracker.devWallet tr = Some w → w ≠ "" →
  let tr' := TokenTracker.addTransaction now tx tr in
  TokenTracker.dropped tr' = false
  ∧ TokenTracker.devWallet tr' = Some w
  ∧ TokenTracker.devBuyCount tr'
    = TokenTracker.devBuyCount tr + (if decide (tx_buyerWallet tx = w) then 1 else 0)
  ∧ TokenTracker.uniqueBuyers tr' = TokenTracker.uniqueBuyers tr ∪ {[ tx_buyerWallet tx ]}
  ∧ TokenTracker.lastTxTimestamp tr' = tx_timestamp tx
  ∧ TokenTracker.firstSeenTimestamp tr' = TokenTracker.firstSeenTimestamp tr
  ∧ TokenTracker.metadataEditCount tr' = TokenTracker.metadataEditCount tr
  ∧ TokenTracker.buffer tr' = MultiWindowBuffer.add now tx (TokenTracker.buffer tr).
Proof.
  intros Hd Hw Hne. unfold TokenTracker.addTransaction. rewrite Hd, Hw.
  unfold truthy_string. rewrite (bool_decide_eq_false_2 (w = "")) by done. simpl.
  case_bool_decide as Hb; case_decide as Hb'; simplify_eq; simpl;
    repeat split; try done; lia.
Qed.

Lemma addTransactions_live (ops : list (Z * Transaction)) (tr : TokenTracker.t) (w : string) :
  TokenTracker.dropped tr = false →
  TokenTracker.devWallet tr = Some w → w ≠ "" →
  let tr' := addTransactions ops tr in
  TokenTracker.dropped tr' = false
  ∧ TokenTracker.devWallet tr' = Some w
  ∧ TokenTracker.devBuyCount tr'
    = TokenTracker.devBuyCount tr
      + Z.of_nat (length (filter (λ tx, tx_buyerWallet tx = w) ops.*2))
  ∧ TokenTracker.uniqueBuyers tr'
    = TokenTracker.uniqueBuyers tr ∪ list_to_set (tx_buyerWallet <$> ops.*2)
  ∧ TokenTracker.lastTxTimestamp tr'
    = default (TokenTracker.lastTxTimestamp tr) (tx_timestamp <$> last ops.*2)
  ∧ TokenTracker.firstSeenTimestamp tr' = TokenTracker.firstSeenTimestamp tr
  ∧ TokenTracker.metadataEditCount tr' = TokenTracker.metadataEditCount tr
  ∧ TokenTracker.buffer tr' = addAll ops (TokenTracker.buffer tr).
Proof.
  revert tr. induction ops as [|[now tx] ops IH]; intros tr Hd Hw Hne.
  - cbn. repeat split; try done; [lia|]. by rewrite (right_id_L ∅ (∪)).
  - destruct (addTransaction_live now tx tr w Hd Hw Hne)
      as (Hd1 & Hw1 & Hc1 & Hu1 & Hl1 & Hf1 & Hm1 & Hb1).
    destruct (IH _ Hd1 Hw1 Hne) as (Hd2 & Hw2 & Hc2 & Hu2 & Hl2 & Hf2 & Hm2 & Hb2).
    change (addTransactions ((now, tx) :: ops) tr)
      with (addTransactions ops (TokenTracker.addTransaction now tx tr)).
    cbn zeta. rewrite Hc2, Hu2, Hl2, Hf2, Hm2, Hb2, Hc1, Hu1, Hl1, Hf1, Hm1, Hb1.
    rewrite !fmap_cons. cbn [snd fst]. rewrite filter_cons.
    repeat split; try done.
    + case_decide; simpl length; lia.
    + simpl. by rewrite (assoc_L (∪)).
    + destruct ops as [|op ops]; [done|]. rewrite fmap_cons, last_cons_cons.
      destruct (last (op.2 :: ops.*2)) eqn:Hl; [done|]. by apply last_None in Hl.
Qed.

Lemma new_live (now : Z) (tokenAddress : string) (firstTx : Transaction) :
  let tr := TokenTracker.new now tokenAddress firstTx in
  TokenTracker.dropped tr = false
  ∧ TokenTracker.devWallet tr = Some (tx_buyerWallet firstTx)
  ∧ TokenTracker.devBuyCount tr = 1
  ∧ TokenTracker.uniqueBuyers tr = {[ tx_buyerWallet firstTx ]}
  ∧ TokenTracker.lastTxTimestamp tr = tx_timestamp firstTx
  ∧ TokenTracker.firstSeenTimestamp tr = tx_timestamp firstTx
  ∧ TokenTracker.metadataEditCount tr = 0
  ∧ TokenTracker.buffer tr
    = MultiWindowBuffer.add now firstTx (MultiWindowBuffer.new CONFIG.windows.buyers).
Proof.
  unfold TokenTracker.new, TokenTracker.addTransaction. simpl.
  repeat split; try done. by rewrite (left_id_L ∅ (∪)).
Qed.

(** X8. A tracker created for a first buyer with a non-empty wallet and
    fed any sequence of transactions is not dropped; its first-seen timestamp
    is that of the first transaction, its developer wallet is the first
    buyer, its developer-buy count is the number of transactions received
    from that wallet, its unique buyers are the buyers of all transactions
    received (none is ever forgotten), and its last-transaction timestamp is
    the timestamp of the transaction received last. *)
Theorem tracker_bookkeeping (now0 : Z) (tokenAddress : string) (firstTx : Transaction)
    (ops : list (Z * Transaction)) :
  tx_buyerWallet firstTx ≠ "" →
  let tr := addTransactions ops (TokenTracker.new now0 tokenAddress firstTx) in
  let txs := firstTx :: ops.*2 in
  TokenTracker.dropped tr = false
  ∧ TokenTracker.firstSeenTimestamp tr = tx_timestamp firstTx
  ∧ TokenTracker.devWallet tr = Some (tx_buyerWallet firstTx)
  ∧ TokenTracker.devBuyCount tr
    = Z.of_nat (length (filter (λ tx, tx_buyerWallet tx = tx_buyerWallet firstTx) txs))
  ∧ TokenTracker.uniqueBuyers tr = list_to_set (tx_buyerWallet <$> txs)
  ∧ Some (TokenTracker.lastTxTimestamp tr) = tx_timestamp <$> last txs
  ∧ TokenTracker.buffer tr
    = addAll ((now0, firstTx) :: ops) (MultiWindowBuffer.new CONFIG.windows.buyers).
Proof.
  intros Hne tr txs.
  destruct (new_live now0 tokenAddress firstTx) as (Hd & Hw & Hc & Hu & Hl & Hf & _ & Hb).
  destruct (addTransactions_live ops _ _ Hd Hw Hne)
    as (Hd' & Hw' & Hc' & Hu' & Hl' & Hf' & _ & Hb').
  fold tr in Hd', Hw', Hc', Hu', Hl', Hf', Hb'.
  split; [done|]. split; [congruence|]. split; [done|].
  split.
  { rewrite Hc', Hc. unfold txs. rewrite filter_cons_True by done. simpl length. lia. }
  split.
  { rewrite Hu', Hu. unfold txs. by rewrite fmap_cons. }
  split.
  { rewrite Hl', Hl. unfold txs. destruct (ops.*2) as [|tx l] eqn:Hops; [done|].
    rewrite last_cons_cons. destruct (last (tx :: l)) eqn:Hlast; [done|].
    by apply last_None in Hlast. }
  by rewrite Hb', Hb.
Qed.

Lemma tracker_bookkeeping_witness :
  tx_buyerWallet (devTx 900) ≠ ""
  ∧ TokenTracker.devBuyCount
      (addTransactions [(1500, devTx 1500)] (TokenTracker.new 900 "TokenC" (devTx 900)))
    = 2.
Proof.
  assert (Hne : tx_buyerWallet (devTx 900) ≠ "") by done.
  split; [exact Hne|].
  destruct (tracker_bookkeeping 900 "TokenC" (devTx 900) [(1500, devTx 1500)] Hne)
    as (_ & _ & _ & -> & _).
  reflexivity.
Defined.

Section dev_buys.
Context {rt : JSRuntime}.

(** X9. Once the first buyer of a token has bought again, the filter
    stage fails whatever the metrics are, and [evaluateForEntry] drops the
    token and leaves the entry engine as it is. *)
Theorem repeated_dev_buy_is_dropped (now0 : Z) (tokenAddress : string)
    (firstTx : Transaction) (ops : list (Z * Transaction))
    (now : Z) (rnd key : string) (s : SignalEngine.t) :
  tx_buyerWallet firstTx ≠ "" →
  (∃ op, op ∈ ops ∧ tx_buyerWallet op.2 = tx_buyerWallet firstTx) →
  let tracker := addTransactions ops (TokenTracker.new now0 tokenAddress firstTx) in
  (∀ metrics, fr_passed (evaluateFilters tracker metrics) = false)
  ∧ (let s' := SignalEngine.evaluateForEntry now rnd key tracker s in
     (∃ tr', SignalEngine.tokenRegistry s' !! key = Some tr'
             ∧ TokenTracker.dropped tr' = true)
     ∧ SignalEngine.entryEngine s' = SignalEngine.entryEngine s).
Proof.
  intros Hne (op & Hop & Hdev) tracker.
  destruct (new_live now0 tokenAddress firstTx) as (Hd & Hw & Hc & _).
  destruct (addTransactions_live ops _ _ Hd Hw Hne) as (_ & _ & Hc' & _).
  fold tracker in Hc'. rewrite Hc in Hc'.
  assert (Hcount : 1 < TokenTracker.devBuyCount tracker).
  { rewrite Hc'.
    assert (op.2 ∈ filter (λ tx, tx_buyerWallet tx = tx_buyerWallet firstTx) ops.*2) as Hin.
    { apply list_elem_of_filter. split; [done|]. by apply list_elem_of_fmap_2. }
    destruct (filter _ ops.*2); [by apply elem_of_nil in Hin | simpl length; lia]. }
  assert (Hfails : ∀ metrics, failingConditions tracker metrics ≠ []).
  { intros metrics Hnil.
    assert (DevRepeatBuys ∈ failingConditions tracker metrics) as Hin.
    { apply list_elem_of_filter. split; [exact Hcount|].
      unfold allFilterConditions. do 4 right. by left. }
    rewrite Hnil in Hin. by apply elem_of_nil in Hin. }
  split.
  - intros metrics. rewrite evaluateFilters_spec. simpl.
    by rewrite bool_decide_eq_false_2.
  - cbn zeta. rewrite evaluateForEntry_filtered by done. simpl.
    split; [|done]. eexists. split; [apply lookup_insert_eq|]. apply dropped_drop.
Qed.

End dev_buys.

Lemma repeated_dev_buy_is_dropped_witness :
  tx_buyerWallet (devTx 900) ≠ ""
  ∧ (∃ op, op ∈ [(1500, devTx 1500)] ∧ tx_buyerWallet op.2 = tx_buyerWallet (devTx 900))
  ∧ ∀ metrics,
      fr_passed
        (evaluateFilters (rt := referenceRuntime)
           (addTransactions [(1500, devTx 1500)] (TokenTracker.new 900 "TokenC" (devTx 900)))
           metrics) = false.
Proof.
  assert (Hne : tx_buyerWallet (devTx 900) ≠ "") by done.
  assert (Hop : ∃ op, op ∈ [(1500, devTx 1500)]
                      ∧ tx_buyerWallet op.2 = tx_buyerWallet (devTx 900)).
  { exists (1500, devTx 1500). split; [by left | reflexivity]. }
  split; [exact Hne|]. split; [exact Hop|].
  exact (proj1 (repeated_dev_buy_is_dropped (rt := referenceRuntime) 900 "TokenC" (devTx 900) [(1500, devTx 1500)]
                  2000 "r" "TokenC" SignalEngine.new Hne Hop)).
Defined.

Lemma isExpired_ms (now : Z) (tr : TokenTracker.t) :
  TokenTracker.isExpired now tr = true
  ↔ 20 * 60 * 1000 < now - TokenTracker.firstSeenTimestamp tr.
Proof.
  unfold TokenTracker.isExpired, TokenTracker.getAgeMinutes, TokenTracker.getAgeMs,
    CONFIG.maxTokenAgeMinutes.
  rewrite bool_decide_eq_true.
  assert (Hpos : (0 < Qc_of_Z (60 * 1000))%Qc) by (by apply (proj1 (Z2Qc_inj_lt 0 _))).
  rewrite (Qcmult_lt_mono_pos_r _ _ _ Hpos).
  replace (Qc_of_Z (now - TokenTracker.firstSeenTimestamp tr) / Qc_of_Z (60 * 1000)
           * Qc_of_Z (60 * 1000))%Qc
    with (Qc_of_Z (now - TokenTracker.firstSeenTimestamp tr)).
  - rewrite <- Z2Qc_inj_mul, <- Z2Qc_inj_lt. lia.
  - field. intros H0. rewrite H0 in Hpos. by apply Qclt_not_eq in Hpos.
Qed.

Lemma isExpired_drop (now : Z) (reason : string) (tr : TokenTracker.t) :
  TokenTracker.isExpired now (TokenTracker.drop reason tr) = TokenTracker.isExpired now tr.
Proof. unfold TokenTracker.drop. by destruct (TokenTracker.dropped tr). Qed.

Lemma cleanup_lookup (now : Z) (reg : gmap string TokenTracker.t) (k : string) :
  TokenRegistry.cleanup now reg !! k
  = tr ← reg !! k;
    if TokenTracker.isExpired now tr then None
    else Some (if negb (TokenTracker.dropped tr) && TokenTracker.shouldDropInactivity now tr
               then TokenTracker.drop "insufficient_buyers_after_5m" tr else tr).
Proof.
  unfold TokenRegistry.cleanup. rewrite map_lookup_filter, lookup_fmap.
  destruct (reg !! k) as [tr|]; [|done]. simpl.
  destruct (TokenTracker.isExpired now tr) eqn:He.
  - by rewrite option_guard_False by (simpl; congruence).
  - destruct (negb _ && _).
    + by rewrite option_guard_True by (simpl; by rewrite isExpired_drop).
    + by rewrite option_guard_True.
Qed.

(** X10. The periodic sweep of the registry keeps exactly the trackers
    first seen at most 20 minutes ago; a tracker it keeps is unchanged if it
    was dropped or is not inactive, and otherwise dropped for
    insufficient buyers; afterwards no kept tracker is inactive and not
    dropped; and a second sweep at the same clock value changes nothing. *)
Theorem cleanup_sweeps (now : Z) (reg : gmap string TokenTracker.t) :
  let reg' := TokenRegistry.cleanup now reg in
  (∀ k, is_Some (reg' !! k)
        ↔ ∃ tr, reg !! k = Some tr
                ∧ now - TokenTracker.firstSeenTimestamp tr ≤ 20 * 60 * 1000)
  ∧ (∀ k tr', reg' !! k = Some tr' →
       ∃ tr, reg !! k = Some tr
             ∧ (if TokenTracker.dropped tr then tr' = tr
                else if TokenTracker.shouldDropInactivity now tr
                     then tr' = TokenTracker.drop "insufficient_buyers_after_5m" tr
                     else tr' = tr))
  ∧ (∀ k tr', reg' !! k = Some tr' →
       TokenTracker.shouldDropInactivity now tr' = true → TokenTracker.dropped tr' = true)
  ∧ TokenRegistry.cleanup now reg' = reg'.
Proof.
  intros reg'. subst reg'.
  assert (Hshape : ∀ k tr', TokenRegistry.cleanup now reg !! k = Some tr' →
            ∃ tr, reg !! k = Some tr ∧ TokenTracker.isExpired now tr = false
                  ∧ tr' = (if negb (TokenTracker.dropped tr)
                              && TokenTracker.shouldDropInactivity now tr
                           then TokenTracker.drop "insufficient_buyers_after_5m" tr
                           else tr)).
  { intros k tr'. rewrite cleanup_lookup.
    destruct (reg !! k) as [tr|]; [|done]. simpl.
    destruct (TokenTracker.isExpired now tr) eqn:He; [done|].
    intros [= <-]. by exists tr. }
  split; [|split; [|split]].
  - intros k. rewrite cleanup_lookup. split.
    + intros [tr' Hk]. destruct (reg !! k) as [tr|]; [|done]. simpl in Hk.
      destruct (TokenTracker.isExpired now tr) eqn:He; [done|].
      exists tr. split; [done|].
      destruct (decide (20 * 60 * 1000 < now - TokenTracker.firstSeenTimestamp tr)) as [Hlt|];
        [|lia].
      apply isExpired_ms in Hlt. congruence.
    + intros (tr & -> & Hage). simpl.
      destruct (TokenTracker.isExpired now tr) eqn:He; [|by eexists].
      apply isExpired_ms in He. lia.
  - intros k tr' (tr & Hk & _ & ->)%Hshape. exists tr. split; [done|].
    destruct (TokenTracker.dropped tr); simpl; [done|].
    by destruct (TokenTracker.shouldDropInactivity now tr).
  - intros k tr' (tr & Hk & _ & ->)%Hshape.
    destruct (TokenTracker.dropped tr) eqn:Hd; simpl; [done|].
    destruct (TokenTracker.shouldDropInactivity now tr) eqn:Hi; [|congruence].
    intros _. apply dropped_drop.
  - apply map_eq. intros k. rewrite cleanup_lookup.
    destruct (TokenRegistry.cleanup now reg !! k) as [tr'|] eqn:Hk; [|done]. simpl.
    apply Hshape in Hk as (tr & Hk & He & ->).
    destruct (TokenTracker.dropped tr) eqn:Hd; simpl.
    + by rewrite He, Hd.
    + destruct (TokenTracker.shouldDropInactivity now tr) eqn:Hi.
      * by rewrite isExpired_drop, He, dropped_drop.
      * by rewrite He, Hd, Hi.
Qed.

(** X11. [processTransaction] of the registry returns the tracker that
    the registry then holds for the transaction's token and leaves the
    trackers of all other tokens alone; a token not seen before gets a new
    tracker, first seen at the transaction's timestamp and not dropped; a
    known token keeps its first-seen timestamp and its drop flag, and if it
    was dropped neither its tracker nor the registry changes. *)
Theorem registry_processTransaction_lookup (now : Z) (tx : Transaction)
    (reg : gmap string TokenTracker.t) :
  let reg' := (TokenRegistry.processTransaction now tx reg).1 in
  let tracker := (TokenRegistry.processTransaction now tx reg).2 in
  TokenRegistry.getTracker (tx_tokenAddress tx) reg' = Some tracker
  ∧ (∀ k, k ≠ tx_tokenAddress tx →
          TokenRegistry.getTracker k reg' = TokenRegistry.getTracker k reg)
  ∧ (TokenRegistry.getTracker (tx_tokenAddress tx) reg = None →
     tracker = TokenTracker.new now (tx_tokenAddress tx) tx
     ∧ TokenTracker.firstSeenTimestamp tracker = tx_timestamp tx
     ∧ TokenTracker.dropped tracker = false)
  ∧ (∀ tr, TokenRegistry.getTracker (tx_tokenAddress tx) reg = Some tr →
           TokenTracker.firstSeenTimestamp tracker = TokenTracker.firstSeenTimestamp tr
           ∧ TokenTracker.dropped tracker = TokenTracker.dropped tr
           ∧ (TokenTracker.dropped tr = true → tracker = tr ∧ reg' = reg)).
Proof.
  unfold TokenRegistry.processTransaction, TokenRegistry.getTracker.
  destruct (reg !! tx_tokenAddress tx) as [tr|] eqn:Hk; simpl.
  - split; [apply lookup_insert_eq|].
    split; [intros k Hne; by apply lookup_insert_ne|].
    split; [done|].
    intros ? [= <-]. unfold TokenTracker.addTransaction.
    destruct (TokenTracker.dropped tr) eqn:Hd.
    + repeat split; try done. by apply insert_id.
    + destruct (negb _); [|destruct (bool_decide _)]; simpl; by rewrite ?Hd.
  - split; [apply lookup_insert_eq|].
    split; [intros k Hne; by apply lookup_insert_ne|].
    split; [|done]. intros _. by destruct (new_live now (tx_tokenAddress tx) tx) as (?&?&?&?&?&?&?).
Qed.

(** ** Signals, scores and filters *)

Lemma negb_ge (a b : Z) : bool_decide (a < b) = negb (bool_decide (a >= b)).
Proof. repeat case_bool_decide; simpl; first [done | lia]. Qed.

Lemma negb_gt (a b : Z) : bool_decide (a ≤ b) = negb (bool_decide (a > b)).
Proof. repeat case_bool_decide; simpl; first [done | lia]. Qed.

Lemma negb_Qcle (a b : Qc) : bool_decide (b < a)%Qc = negb (bool_decide (a ≤ b)%Qc).
Proof.
  repeat case_bool_decide; simpl; try done.
  - by apply Qclt_not_le in H.
  - by apply Qcnot_le_lt in H0.
Qed.

Lemma negb_Qclt (a b : Qc) : bool_decide (b ≤ a)%Qc = negb (bool_decide (a < b)%Qc).
Proof.
  repeat case_bool_decide; simpl; try done.
  - by apply Qcle_not_lt in H.
  - by apply Qcnot_lt_le in H0.
Qed.

Lemma ext_geb_ltb (x : ExtNumber) (b : Qc) : ext_geb x b = negb (ext_ltb x b).
Proof. destruct x as [q|]; [apply negb_Qclt | done]. Qed.

Lemma elem_of_push_if_here (msg : string) (reasons : list string) :
  msg ∈ push_if true msg reasons.
Proof. simpl. apply elem_of_app. right. by left. Qed.

Lemma elem_of_push_if_mono (c : bool) (x msg : string) (reasons : list string) :
  x ∈ reasons → x ∈ push_if c msg reasons.
Proof. intros Hx. destruct c; simpl; [|done]. apply elem_of_app. by left. Qed.

(** Finds a pushed message in a chain of guarded pushes. *)
Ltac find_reason :=
  (apply elem_of_push_if_here) + (apply elem_of_push_if_mono; find_reason).

Section signal_failures.
Context {rt : JSRuntime}.

Lemma eas_failure_is_reported (metrics : RollingMetrics) :
  easPassed (evaluateSignals metrics) = false →
  ∃ r, r ∈ getSignalFailureReasons (evaluateSignals metrics) metrics ∧ startsWith "EAS: " r.
Proof.
  unfold evaluateSignals, getSignalFailureReasons.
  cbn [easPassed lsfPassed mcPassed allPassed].
  unfold CONFIG.signals.minBuyers5m.
  rewrite (negb_ge (buyers5m metrics) 6), (negb_gt (txAcceleration metrics) 0), ext_geb_ltb.
  generalize (bool_decide (buyers5m metrics >= 6)). intros b1.
  generalize (ext_ltb (txIntervalMean metrics) CONFIG.signals.maxTxIntervalMean). intros b2.
  generalize (bool_decide (txAcceleration metrics > 0)). intros b3.
  destruct (negb (_ && _ && _ && _)),
    (negb (bool_decide (txCount60s metrics >= _) && txIntervalDelta metrics));
    destruct b1, b2, b3; cbn [negb andb]; intros Heas; try discriminate Heas;
    (eexists; split; [find_reason | eexists; reflexivity]).
Qed.

Lemma lsf_failure_is_reported (metrics : RollingMetrics) :
  lsfPassed (evaluateSignals metrics) = false →
  ∃ r, r ∈ getSignalFailureReasons (evaluateSignals metrics) metrics ∧ startsWith "LSF: " r.
Proof.
  unfold evaluateSignals, getSignalFailureReasons.
  cbn [easPassed lsfPassed mcPassed allPassed].
  rewrite (negb_Qcle CONFIG.signals.minAvgBuySize), (negb_Qcle _ CONFIG.signals.maxAvgBuySize),
    (negb_Qclt (buySizeStd metrics)), (negb_Qcle _ CONFIG.signals.maxLargestBuy).
  generalize (bool_decide (CONFIG.signals.minAvgBuySize ≤ avgBuySize metrics)%Qc). intros l1.
  generalize (bool_decide (avgBuySize metrics ≤ CONFIG.signals.maxAvgBuySize)%Qc). intros l2.
  generalize (bool_decide (buySizeStd metrics < Q2Qc (3 # 10))%Qc). intros l3.
  generalize (bool_decide (largestBuy metrics ≤ CONFIG.signals.maxLargestBuy)%Qc). intros l4.
  destruct (negb (_ && ext_ltb _ _ && _)),
    (negb (bool_decide (txCount60s metrics >= _) && txIntervalDelta metrics));
    destruct l1, l2, l3, l4; cbn [negb andb]; intros Hlsf; try discriminate Hlsf;
    (eexists; split; [find_reason | eexists; reflexivity]).
Qed.

Lemma mc_failure_is_reported (metrics : RollingMetrics) :
  mcPassed (evaluateSignals metrics) = false →
  ∃ r, r ∈ getSignalFailureReasons (evaluateSignals metrics) metrics ∧ startsWith "MC: " r.
Proof.
  unfold evaluateSignals, getSignalFailureReasons.
  cbn [easPassed lsfPassed mcPassed allPassed].
  unfold CONFIG.signals.minTxCount60s.
  rewrite (negb_ge (txCount60s metrics) 5).
  generalize (bool_decide (txCount60s metrics >= 5)). intros m1.
  generalize (txIntervalDelta metrics). intros m2.
  destruct (negb (_ && ext_ltb _ _ && _)), (negb (_ && _ && _ && _));
    destruct m1, m2; cbn [negb andb]; intros Hmc; try discriminate Hmc;
    (eexists; split; [find_reason | eexists; reflexivity]).
Qed.

(** X12. For the evaluation of the signals of some metrics, the list of
    failure reasons computed from the same metrics is empty exactly when all
    three signals passed; and each signal that failed has at least one reason
    in the list that starts with the prefix of the signal, [EAS: ], [LSF: ]
    or [MC: ]. *)
Theorem signal_failure_reasons_iff_failed (metrics : RollingMetrics) :
  let evaluation := evaluateSignals metrics in
  (getSignalFailureReasons evaluation metrics = [] ↔ allPassed evaluation = true)
  ∧ (easPassed evaluation = false →
     ∃ r, r ∈ getSignalFailureReasons evaluation metrics ∧ startsWith "EAS: " r)
  ∧ (lsfPassed evaluation = false →
     ∃ r, r ∈ getSignalFailureReasons evaluation metrics ∧ startsWith "LSF: " r)
  ∧ (mcPassed evaluation = false →
     ∃ r, r ∈ getSignalFailureReasons evaluation metrics ∧ startsWith "MC: " r).
Proof.
  intros evaluation. subst evaluation.
  split; [|split; [apply eas_failure_is_reported
                   |split; [apply lsf_failure_is_reported | apply mc_failure_is_reported]]].
  assert (Hall : allPassed (evaluateSignals metrics)
                 = easPassed (evaluateSignals metrics) && lsfPassed (evaluateSignals metrics)
                   && mcPassed (evaluateSignals metrics)) by done.
  split.
  - intros Hnil. rewrite Hall.
    destruct (easPassed (evaluateSignals metrics)) eqn:Heas.
    2: { destruct (eas_failure_is_reported metrics Heas) as (r & Hr & _).
         rewrite Hnil in Hr. by apply elem_of_nil in Hr. }
    destruct (lsfPassed (evaluateSignals metrics)) eqn:Hlsf.
    2: { destruct (lsf_failure_is_reported metrics Hlsf) as (r & Hr & _).
         rewrite Hnil in Hr. by apply elem_of_nil in Hr. }
    destruct (mcPassed (evaluateSignals metrics)) eqn:Hmc; [done|].
    destruct (mc_failure_is_reported metrics Hmc) as (r & Hr & _).
    rewrite Hnil in Hr. by apply elem_of_nil in Hr.
  - rewrite Hall. intros (Hem & Hmc)%andb_prop. apply andb_prop in Hem as (Heas & Hlsf).
    unfold getSignalFailureReasons. by rewrite Heas, Hlsf, Hmc.
Qed.
End signal_failures.

(** X13. The tier of a score is [poor] exactly when the score misses the
    entry threshold; tiers grow with the score; the tiers are the score
    ranges from 30, from 22 to below 30, and from 18 to below 22. *)
Theorem score_tier_and_entry_threshold (s : TokenScore) (a b : Z) :
  (getScoreTier (score s) = poor ↔ meetsEntryThreshold s = false)
  ∧ (a ≤ b → (tierRank (getScoreTier a) ≤ tierRank (getScoreTier b))%nat)
  ∧ (getScoreTier a = excellent ↔ 30 ≤ a)
  ∧ (getScoreTier a = good ↔ 22 ≤ a < 30)
  ∧ (getScoreTier a = marginal ↔ 18 ≤ a < 22).
Proof.
  unfold getScoreTier, meetsEntryThreshold, CONFIG.entry.minScore.
  split; [|split; [|split; [|split]]].
  - repeat case_bool_decide; split; intros; first [done | lia].
  - intros Hab. repeat case_bool_decide; simpl; lia.
  - repeat case_bool_decide; split; intros; first [done | lia].
  - repeat case_bool_decide; split; intros; first [done | lia].
  - repeat case_bool_decide; split; intros; first [done | lia].
Qed.

(** X14. The trend of two scores is [increasing] exactly when the trend
    of the swapped scores is [decreasing]; it is [stable] exactly when the
    scores differ by at most 2, in either order, and so for equal scores. *)
Theorem score_trend_is_antisymmetric (a b : Z) :
  (getScoreTrend a b = increasing ↔ getScoreTrend b a = decreasing)
  ∧ (getScoreTrend a b = stable ↔ getScoreTrend b a = stable)
  ∧ (getScoreTrend a b = stable ↔ -2 ≤ a - b ≤ 2)
  ∧ getScoreTrend a a = stable.
Proof.
  unfold getScoreTrend.
  split; [|split; [|split]].
  - repeat case_bool_decide; split; intros; first [done | lia].
  - repeat case_bool_decide; split; intros; first [done | lia].
  - repeat case_bool_decide; split; intros; first [done | lia].
  - repeat case_bool_decide; first [done | lia].
Qed.

(** X15. [isWhaleNoise] is false for a zero average.  For a positive
    average it is false when the deviation is at most the average and true
    when the deviation is at least twice the average; it stays true when the
    deviation grows, and when the average shrinks to a smaller positive one
    under a deviation that is not negative. *)
Theorem whale_noise_margins (avgBuySize buySizeStd avgBuySize' buySizeStd' : Qc) :
  (avgBuySize = 0%Qc → isWhaleNoise avgBuySize buySizeStd = false)
  ∧ ((0 < avgBuySize)%Qc → (buySizeStd ≤ avgBuySize)%Qc →
     isWhaleNoise avgBuySize buySizeStd = false)
  ∧ ((0 < avgBuySize)%Qc → (Qc_of_Z 2 * avgBuySize ≤ buySizeStd)%Qc →
     isWhaleNoise avgBuySize buySizeStd = true)
  ∧ ((0 < avgBuySize)%Qc → (buySizeStd ≤ buySizeStd')%Qc →
     isWhaleNoise avgBuySize buySizeStd = true →
     isWhaleNoise avgBuySize buySizeStd' = true)
  ∧ ((0 < avgBuySize')%Qc → (avgBuySize' ≤ avgBuySize)%Qc → (0 ≤ buySizeStd)%Qc →
     isWhaleNoise avgBuySize buySizeStd = true →
     isWhaleNoise avgBuySize' buySizeStd = true).
Proof.
  assert (Hcv : ∀ avg std : Qc, (0 < avg)%Qc →
            isWhaleNoise avg std = true ↔ (Q2Qc (15 # 10) * avg < std)%Qc).
  { intros avg std Hpos. unfold isWhaleNoise.
    assert (Hne : avg ≠ 0%Qc) by (intros ->; by apply Qclt_not_eq in Hpos).
    rewrite bool_decide_eq_false_2 by done.
    rewrite bool_decide_eq_true.
    rewrite (Qcmult_lt_mono_pos_r _ (std / avg) _ Hpos).
    replace (std / avg * avg)%Qc with std; [done|]. by field. }
  split; [|split; [|split; [|split]]].
  - intros ->. unfold isWhaleNoise. by rewrite bool_decide_eq_true_2.
  - intros Hpos Hle. apply not_true_is_false. rewrite (Hcv _ _ Hpos).
    apply Qcle_not_lt. etrans; [exact Hle|].
    clear Hcv Hle. revert Hpos. unfold Qcle, Qclt, Qcmult. cbn [this Q2Qc].
    rewrite !Qred_correct. intros Hpos. nra.
  - intros Hpos Hle. apply (Hcv _ _ Hpos).
    eapply Qclt_le_trans; [|exact Hle].
    clear Hcv Hle. revert Hpos. unfold Qcle, Qclt, Qcmult, Qc_of_Z. cbn [this Q2Qc].
    rewrite !Qred_correct. unfold inject_Z. intros Hpos. nra.
  - intros Hpos Hle Hnoise. apply (Hcv _ _ Hpos). apply (Hcv _ _ Hpos) in Hnoise.
    by eapply Qclt_le_trans.
  - intros Hpos' Hle Hstd Hnoise.
    assert (Hpos : (0 < avgBuySize)%Qc) by (by eapply Qclt_le_trans).
    apply (Hcv _ _ Hpos'). apply (Hcv _ _ Hpos) in Hnoise.
    eapply Qcle_lt_trans; [|exact Hnoise].
    rewrite (Qcmult_comm _ avgBuySize'), (Qcmult_comm _ avgBuySize).
    by apply Qcmult_le_compat_r.
Qed.

(** Turns a goal or hypotheses on canonical rationals into their statement
    on plain rationals. *)
Ltac to_Q :=
  repeat (progress
    (unfold Qcle, Qclt, Qcplus, Qcminus, Qcmult, Qcdiv, Qcinv, Qcopp, Qc_of_Z in *;
     cbn [this Q2Qc] in *;
     rewrite ?Qred_correct in *));
  unfold Qminus, Qdiv, inject_Z in *;
  cbn [Qinv Qnum Qden] in *.

Lemma Math_min_bounds (a b lo : Qc) :
  (lo ≤ a)%Qc → (lo ≤ b)%Qc → (lo ≤ Math_min a b)%Qc ∧ (Math_min a b ≤ b)%Qc.
Proof.
  intros Ha Hb. unfold Math_min. case_bool_decide; split; first [done | reflexivity].
Qed.

Lemma Math_round_bounds (x : Qc) (lo hi : Z) :
  (Qc_of_Z lo ≤ x)%Qc → (x ≤ Qc_of_Z hi)%Qc → lo ≤ Math_round x ≤ hi.
Proof.
  intros Hlo Hhi. unfold Math_round.
  set (y := (x + Q2Qc (1 # 2))%Qc).
  split.
  - rewrite <- (Qfloor_Z lo). apply Qfloor_resp_le. subst y. to_Q. lra.
  - pose proof (Qfloor_le y) as Hfloor. set (f := Qfloor y) in *.
    apply Z.lt_succ_r. rewrite Zlt_Qlt. unfold Z.succ. rewrite inject_Z_plus.
    subst y. clearbody f. to_Q. lra.
Qed.

Lemma ext_ltb_true (x : ExtNumber) (b : Qc) :
  ext_ltb x b = true → ∃ q, x = Finite q ∧ (q < b)%Qc.
Proof.
  destruct x as [q|]; [|done]. simpl. rewrite bool_decide_eq_true. by exists q.
Qed.

Lemma centeredness_bounds (avg : Qc) :
  (CONFIG.signals.minAvgBuySize ≤ avg)%Qc → (avg ≤ CONFIG.signals.maxAvgBuySize)%Qc →
  let avgBuyMid :=
    ((CONFIG.signals.minAvgBuySize + CONFIG.signals.maxAvgBuySize) / Qc_of_Z 2)%Qc in
  let avgBuyRange := (CONFIG.signals.maxAvgBuySize - CONFIG.signals.minAvgBuySize)%Qc in
  let centeredness :=
    (Qc_of_Z 1 - Math_abs (avg - avgBuyMid) / (avgBuyRange / Qc_of_Z 2))%Qc in
  (0 ≤ centeredness * Qc_of_Z 15)%Qc ∧ (centeredness * Qc_of_Z 15 ≤ Qc_of_Z 15)%Qc.
Proof.
  intros Hmin Hmax avgBuyMid avgBuyRange.
  assert (Hmid : avgBuyMid = Q2Qc (11 # 40)) by (apply Qc_is_canon; reflexivity).
  assert (Hhalf : (avgBuyRange / Qc_of_Z 2)%Qc = Q2Qc (9 # 40))
    by (apply Qc_is_canon; reflexivity).
  rewrite Hhalf, Hmid. clear Hhalf Hmid avgBuyMid avgBuyRange. cbn zeta.
  unfold CONFIG.signals.minAvgBuySize, CONFIG.signals.maxAvgBuySize in *.
  unfold Math_abs. case_bool_decide as Hneg; to_Q; split; lra.
Qed.

(** X16. [calculateSignalStrength] is 0 for an evaluation that did not
    pass; for the evaluation of the signals of the same metrics it is an
    integer from 0 to 100. *)
Theorem signal_strength_is_a_percentage (metrics : RollingMetrics) :
  (∀ evaluation, allPassed evaluation = false →
                 calculateSignalStrength metrics evaluation = Strength 0)
  ∧ ∃ n, calculateSignalStrength metrics (evaluateSignals metrics) = Strength n
         ∧ 0 ≤ n ≤ 100.
Proof.
  split.
  { intros evaluation Hfailed. unfold calculateSignalStrength. by rewrite Hfailed. }
  destruct (allPassed (evaluateSignals metrics)) eqn:Hall.
  2: { exists 0. unfold calculateSignalStrength. rewrite Hall. split; [done | lia]. }
  unfold calculateSignalStrength. rewrite Hall. cbn [negb].
  unfold evaluateSignals in Hall. cbn [allPassed] in Hall.
  repeat match goal with
         | H : _ && _ = true |- _ => apply andb_prop in H as [? ?]
         end.
  repeat match goal with
         | H : bool_decide _ = true |- _ => apply bool_decide_eq_true in H
         end.
  destruct (ext_ltb_true _ _ ltac:(eassumption)) as (mean & -> & Hmean).
  eexists. split; [reflexivity|].
  unfold CONFIG.signals.minBuyers5m, CONFIG.signals.minTxCount60s,
    CONFIG.signals.maxTxIntervalMean in *.
  match goal with
  | |- context [Math_min ?a (Qc_of_Z 30)] =>
      destruct (Math_min_bounds a (Qc_of_Z 30) 0%Qc) as [Hb1 Hb1'];
        [| |set (t1 := Math_min a (Qc_of_Z 30)) in *]
  end.
  { assert (inject_Z 6 <= inject_Z (buyers5m metrics))%Q by (rewrite <- Zle_Qle; lia).
    to_Q. lra. }
  { done. }
  match goal with
  | |- context [Math_min ?a (Qc_of_Z 20)] =>
      destruct (Math_min_bounds a (Qc_of_Z 20) 0%Qc) as [Hb2 Hb2'];
        [| |set (t2 := Math_min a (Qc_of_Z 20)) in *]
  end.
  { clear -Hmean. to_Q. lra. }
  { done. }
  match goal with
  | |- context [Math_min ?a (Qc_of_Z 1)] =>
      destruct (Math_min_bounds a (Qc_of_Z 1) 0%Qc) as [Hb3 Hb3'];
        [| |set (t3 := Math_min a (Qc_of_Z 1)) in *]
  end.
  { assert (inject_Z 0 <= inject_Z (txAcceleration metrics))%Q by (rewrite <- Zle_Qle; lia).
    to_Q. lra. }
  { done. }
  match goal with
  | |- context [Math_min ?a (Qc_of_Z 15)] =>
      destruct (Math_min_bounds a (Qc_of_Z 15) 0%Qc) as [Hb5 Hb5'];
        [| |set (t5 := Math_min a (Qc_of_Z 15)) in *]
  end.
  { assert (inject_Z 5 <= inject_Z (txCount60s metrics))%Q by (rewrite <- Zle_Qle; lia).
    to_Q. lra. }
  { done. }
  destruct (centeredness_bounds (avgBuySize metrics)) as [Hb4 Hb4']; [done..|].
  cbn zeta in Hb4, Hb4'.
  match type of Hb4 with
  | (_ ≤ ?c)%Qc => set (t4 := c) in *
  end.
  apply Math_round_bounds.
  - clearbody t1 t2 t3 t4 t5. clear -Hb1 Hb2 Hb3 Hb4 Hb5. to_Q. lra.
  - clearbody t1 t2 t3 t4 t5. clear -Hb1' Hb2' Hb3' Hb4' Hb5'. to_Q. lra.
Qed.

Section quiet_token.
Context {rt : JSRuntime}.

(** X17. A tracker with no transaction in the 180-second buy-size
    window has average, deviation and largest buy 0, and passes the filter
    stage exactly when the developer bought at most once and the metadata
    were edited at most once: none of the buy-size filters can fail. *)
Theorem quiet_token_passes_size_filters (now : Z) (tracker : TokenTracker.t) :
  MultiWindowBuffer.getWindow now CONFIG.windows.long (TokenTracker.buffer tracker) = [] →
  let metrics := TokenTracker.calculateMetrics now tracker in
  avgBuySize metrics = 0%Qc ∧ buySizeStd metrics = 0%Qc ∧ largestBuy metrics = 0%Qc
  ∧ (fr_passed (evaluateFilters tracker metrics) = true
     ↔ TokenTracker.devBuyCount tracker ≤ 1 ∧ TokenTracker.metadataEditCount tracker ≤ 1).
Proof.
  intros Hquiet metrics.
  assert (Hstats : avgBuySize metrics = 0%Qc ∧ buySizeStd metrics = 0%Qc
                   ∧ largestBuy metrics = 0%Qc).
  { unfold metrics, TokenTracker.calculateMetrics, MultiWindowBuffer.getBuySizeStats.
    by rewrite Hquiet. }
  destruct Hstats as (Havg & Hstd & Hmax).
  split; [done|]. split; [done|]. split; [done|].
  rewrite evaluateFilters_spec. cbn [fr_passed]. rewrite bool_decide_eq_true.
  unfold failingConditions, allFilterConditions.
  rewrite filter_cons_False by (simpl; rewrite Hmax; by apply Qcle_not_lt).
  rewrite filter_cons_False by (simpl; rewrite Havg; by apply Qcle_not_lt).
  rewrite filter_cons_False by (simpl; rewrite Havg; intros [H0 _]; by apply Qclt_not_eq in H0).
  rewrite filter_cons_False by (simpl; rewrite Hstd; by apply Qcle_not_lt).
  rewrite !filter_cons, filter_nil. simpl.
  repeat case_decide; split; intros; first [done | lia].
Qed.
End quiet_token.

Lemma quiet_token_passes_size_filters_witness :
  MultiWindowBuffer.getWindow 200900 CONFIG.windows.long (TokenTracker.buffer demoTracker) = []
  ∧ fr_passed (evaluateFilters (rt := referenceRuntime) demoTracker
                 (TokenTracker.calculateMetrics (rt := referenceRuntime) 200900 demoTracker))
    = true.
Proof.
  assert (Hquiet : MultiWindowBuffer.getWindow 200900 CONFIG.windows.long
                     (TokenTracker.buffer demoTracker) = []) by reflexivity.
  split; [exact Hquiet|].
  apply (quiet_token_passes_size_filters (rt := referenceRuntime) 200900 demoTracker Hquiet).
  split; apply Z.leb_le; reflexivity.
Defined.

(** ** The kill switch and the exit engine *)

(** X18. For a position that has a kill-switch state, [check] fires
    exactly when the token has had no transaction for 60 seconds, or the
    latest transaction is above 3 SOL, or it comes from the developer wallet
    and the developer has bought more than once.  When it fires the position
    is closed through [closePosition] with the reason of the first of these
    conditions that holds, and the kill-switch state is removed; when it
    does not fire the position manager is unchanged and the state is kept. *)
Theorem kill_switch_fires_exactly_when (now : Z) (position : nat) (p : PaperPosition)
    (tracker : TokenTracker.t) (currentPrice : Qc) (latestTx : option Transaction)
    (states : gmap string KillState) (pm : PositionManager.t) (state : KillState) :
  PositionManager.heap pm !! position = Some p →
  states !! pos_id p = Some state →
  let result := KillSwitch.check now position tracker currentPrice latestTx states pm in
  let inactive := 60 * 1000 ≤ now - TokenTracker.lastTxTimestamp tracker in
  let whale := ∃ tx, latestTx = Some tx ∧ (Qc_of_Z 3 < tx_solAmount tx)%Qc in
  let dev := ∃ tx, latestTx = Some tx
                   ∧ TokenTracker.devWallet tracker = Some (tx_buyerWallet tx)
                   ∧ tx_buyerWallet tx ≠ ""
                   ∧ 1 < TokenTracker.devBuyCount tracker in
  (result.1.1 = true ↔ inactive ∨ whale ∨ dev)
  ∧ (result.1.1 = true →
     ∃ r, (inactive ∧ r = kill_switch_no_tx
           ∨ ¬ inactive ∧ whale ∧ r = kill_switch_whale
           ∨ ¬ inactive ∧ ¬ whale ∧ dev ∧ r = kill_switch_dev)
          ∧ result.2 = PositionManager.closePosition now (pos_id p) currentPrice r pm
          ∧ result.1.2 !! pos_id p = None)
  ∧ (result.1.1 = false → result.2 = pm ∧ is_Some (result.1.2 !! pos_id p)).
Proof.
  intros Hp Hstate result inactive whale dev. subst result.
  unfold KillSwitch.check, KillSwitch.trigger, KillSwitch.cleanup.
  rewrite Hp, Hstate.
  unfold CONFIG.killSwitch.noTxSeconds, CONFIG.killSwitch.whaleBuyThreshold.
  case_bool_decide as Hidle.
  { cbn [fst snd]. assert inactive as Hin by (unfold inactive; lia).
    split; [split; [by left | done]|]. split; [|done].
    intros _. exists kill_switch_no_tx.
    split; [by left|]. split; [done|]. apply lookup_delete_eq. }
  assert (¬ inactive) as Hactive by (unfold inactive; lia).
  destruct latestTx as [tx|].
  2: { cbn [fst snd]. split.
       { split; [done|]. intros [? | [(tx & ? & _) | (tx & ? & _)]]; done. }
       split; [done|]. intros _. split; [done|]. by eexists. }
  case_bool_decide as Hwhale.
  { cbn [fst snd]. assert whale as Hw by (by exists tx).
    split; [split; [by right; left | done]|]. split; [|done].
    intros _. exists kill_switch_whale.
    split; [right; by left|]. split; [done|]. apply lookup_delete_eq. }
  assert (¬ whale) as Hsmall by (intros (tx' & [= <-] & ?); done).
  destruct (truthy_string (TokenTracker.devWallet tracker)
            && bool_decide (Some (tx_buyerWallet tx) = TokenTracker.devWallet tracker)
            && bool_decide (TokenTracker.devBuyCount tracker > 1)) eqn:Hdev.
  - cbn [fst snd].
    apply andb_prop in Hdev as [Hdev Hcount]. apply andb_prop in Hdev as [Htruthy Hsame].
    apply bool_decide_eq_true in Hcount, Hsame.
    assert dev as Hd.
    { exists tx. split; [done|]. split; [done|]. split; [|lia].
      rewrite <- Hsame in Htruthy. unfold truthy_string in Htruthy.
      intros Hempty. by rewrite bool_decide_eq_true_2 in Htruthy. }
    split; [split; [by right; right | done]|]. split; [|done].
    intros _. exists kill_switch_dev.
    split; [right; by right|]. split; [done|]. apply lookup_delete_eq.
  - cbn [fst snd]. split.
    { split; [done|]. intros [? | [? | (tx' & [= <-] & Hw & Hne & Hcount)]]; [done..|].
      rewrite Hw in Hdev. unfold truthy_string in Hdev.
      rewrite (bool_decide_eq_false_2 (tx_buyerWallet tx = "")) in Hdev by done.
      rewrite !bool_decide_eq_true_2 in Hdev by (done || lia). done. }
    split; [done|]. intros _. split; [done|]. rewrite lookup_insert_eq. by eexists.
Qed.

Lemma kill_switch_fires_exactly_when_witness :
  PositionManager.heap demoManager !! 0%nat = Some demoPosition
  ∧ KillSwitch.initPosition 1000 "pos_1000_abc" ∅ !! pos_id demoPosition
    = Some {| ks_positionId := "pos_1000_abc"; lastActivityTimestamp := 1000 |}
  ∧ (KillSwitch.check 70000 0%nat demoTracker (Q2Qc (1 # 2)) None
       (KillSwitch.initPosition 1000 "pos_1000_abc" ∅) demoManager).1.1 = true.
Proof.
  assert (Hp : PositionManager.heap demoManager !! 0%nat = Some demoPosition)
    by reflexivity.
  assert (Hs : KillSwitch.initPosition 1000 "pos_1000_abc" ∅ !! pos_id demoPosition
               = Some {| ks_positionId := "pos_1000_abc"; lastActivityTimestamp := 1000 |})
    by reflexivity.
  split; [exact Hp|]. split; [exact Hs|].
  apply (kill_switch_fires_exactly_when 70000 0%nat demoPosition demoTracker (Q2Qc (1 # 2))
           None _ demoManager _ Hp Hs).
  left. vm_compute. discriminate.
Defined.

(** X19. For a position that has an exit state, [evaluateExit] flags a
    full exit exactly when it gives a reason, and the reason is one of the
    four full-exit reasons; 60 seconds without a transaction force a full
    exit, and its reason is then never [profit_target_full], whatever the
    profit is, since the later checks overwrite the reason; a partial exit is
    flagged only for a position whose status is [open]; the stored state
    records the current 60-second count; and the position manager changes
    only by [updateUnrealizedPnL]. *)
Theorem evaluateExit_with_state (now : Z) (position : nat) (p : PaperPosition)
    (currentPrice : Qc) (metrics : RollingMetrics) (tracker : TokenTracker.t)
    (exitStates : gmap string ExitState) (pm : PositionManager.t) (state : ExitState) :
  PositionManager.heap pm !! position = Some p →
  exitStates !! pos_id p = Some state →
  let result :=
    ExitEngine.evaluateExit now position currentPrice metrics tracker exitStates pm in
  let evaluation := result.1.1 in
  (shouldFullExit evaluation = true ↔ is_Some (reason evaluation))
  ∧ (∀ r, reason evaluation = Some r →
          r ∈ [profit_target_full; no_activity_60s; tx_decrease_twice;
               stagnation_after_spike])
  ∧ (60 * 1000 ≤ now - TokenTracker.lastTxTimestamp tracker →
     shouldFullExit evaluation = true
     ∧ reason evaluation ≠ Some profit_target_full)
  ∧ (shouldPartialExit evaluation = true → status p = open)
  ∧ (∃ state', result.1.2 !! pos_id p = Some state'
               ∧ lastTxCount60s state' = txCount60s metrics)
  ∧ result.2 = PositionManager.updateUnrealizedPnL (pos_id p) currentPrice pm.
Proof.
  intros Hp Hstate result evaluation.
  assert (Hshape :
    ∃ partialFlag full r state',
      result
      = ({| shouldPartialExit := bool_decide (status p = open) && partialFlag;
            shouldFullExit := full;
            reason := r |},
         <[pos_id p := state']> exitStates,
         PositionManager.updateUnrealizedPnL (pos_id p) currentPrice pm)
      ∧ lastTxCount60s state' = txCount60s metrics
      ∧ (full = true ↔ is_Some r)
      ∧ (∀ r', r = Some r' →
               r' ∈ [profit_target_full; no_activity_60s; tx_decrease_twice;
                     stagnation_after_spike])
      ∧ (60 * 1000 ≤ now - TokenTracker.lastTxTimestamp tracker →
         full = true ∧ r ≠ Some profit_target_full)).
  { subst result. unfold ExitEngine.evaluateExit. rewrite Hp, Hstate.
    unfold CONFIG.exit.noActivitySeconds, CONFIG.exit.txDecreaseThreshold.
    exists (bool_decide (CONFIG.exit.partialProfitPercent
                         ≤ priceChange currentPrice p * Qc_of_Z 100)%Qc).
    generalize (bool_decide (status p = open)
                && bool_decide (CONFIG.exit.partialProfitPercent
                                ≤ priceChange currentPrice p * Qc_of_Z 100)%Qc).
    intros partialFlag.
    destruct (bool_decide (CONFIG.exit.fullProfitPercent
                           ≤ priceChange currentPrice p * Qc_of_Z 100)%Qc);
      case_bool_decide as Hidle;
      repeat match goal with
             | |- context [bool_decide ?P] => destruct (bool_decide P)
             | |- context [spikeDetected ?s] => destruct (spikeDetected s)
             | |- context [truthy_number ?n] => destruct (truthy_number n)
             end;
      cbn; (do 3 eexists); (split; [reflexivity|]); (split; [reflexivity|]);
      (split; [split; intros H; first [done | by eexists | by destruct H]|]);
      (split; [intros r' [= <-]; repeat constructor|]);
      intros; first [done | lia]. }
  destruct Hshape as (partialFlag & full & r & state' & Hresult & Hcount & Hiff & Hin & Hquiet).
  subst evaluation. rewrite Hresult. cbn [fst snd shouldFullExit shouldPartialExit reason].
  split; [done|]. split; [done|]. split; [done|].
  split; [by intros [Hopen%bool_decide_eq_true _]%andb_prop|].
  split; [|done]. exists state'. split; [apply lookup_insert_eq | done].
Qed.

Lemma evaluateExit_with_state_witness :
  PositionManager.heap demoManager !! 0%nat = Some demoPosition
  ∧ demoExitStates !! pos_id demoPosition
    = Some {| es_positionId := "pos_1000_abc"; consecutiveTxDecreases := 0;
              lastTxCount60s := 1; spikeDetected := false; postSpikeTxCount := None |}
  ∧ shouldFullExit
      (ExitEngine.evaluateExit 70000 0%nat (Q2Qc (1 # 2)) demoMetrics demoTracker
         demoExitStates demoManager).1.1 = true.
Proof.
  assert (Hp : PositionManager.heap demoManager !! 0%nat = Some demoPosition)
    by reflexivity.
  assert (Hs : demoExitStates !! pos_id demoPosition
               = Some {| es_positionId := "pos_1000_abc"; consecutiveTxDecreases := 0;
                         lastTxCount60s := 1; spikeDetected := false;
                         postSpikeTxCount := None |})
    by reflexivity.
  split; [exact Hp|]. split; [exact Hs|].
  destruct (evaluateExit_with_state 70000 0%nat demoPosition (Q2Qc (1 # 2)) demoMetrics
              demoTracker demoExitStates demoManager _ Hp Hs) as (_ & _ & Hidle & _).
  apply Hidle. vm_compute. discriminate.
Defined.

Section inactive_tick.
Context {rt : JSRuntime}.

(** X20. On a periodic tick, a position that is not closed, whose token
    is tracked, that has a kill-switch state and whose token has had no
    transaction for 60 seconds is closed with the reason
    [kill_switch_no_tx] at the current price: its remaining size is sold and
    realized, it leaves the open positions and the token index and joins the
    archive, its kill-switch state is removed; its exit state is left in
    place and the registry is unchanged. *)
Theorem tick_closes_inactive_position (now : Z) (position : nat) (s : SignalEngine.t)
    (p : PaperPosition) (tracker : TokenTracker.t) (state : KillState) :
  let e := SignalEngine.entryEngine s in
  let pm := EntryEngine.positionManager e in
  PositionManager.heap pm !! position = Some p →
  PositionManager.positions pm !! pos_id p = Some position →
  status p ≠ closed →
  SignalEngine.tokenRegistry s !! pos_tokenAddress p = Some tracker →
  EntryEngine.killStates e !! pos_id p = Some state →
  60 * 1000 ≤ now - TokenTracker.lastTxTimestamp tracker →
  let price := avgBuySize (TokenTracker.calculateMetrics now tracker) in
  let s' := SignalEngine.checkStalePosition now position s in
  let e' := SignalEngine.entryEngine s' in
  let pm' := EntryEngine.positionManager e' in
  (∃ p', PositionManager.heap pm' !! position = Some p'
         ∧ status p' = closed
         ∧ exitReason p' = Some kill_switch_no_tx
         ∧ exitTimestamp p' = Some now
         ∧ exitPrice p' = Some price
         ∧ remainingSizeSOL p' = 0%Qc
         ∧ realizedPnL p'
           = (realizedPnL p + remainingSizeSOL p * priceChange price p)%Qc)
  ∧ PositionManager.positions pm' !! pos_id p = None
  ∧ PositionManager.tokenToPosition pm' !! pos_tokenAddress p = None
  ∧ PositionManager.closedPositions pm' = PositionManager.closedPositions pm ++ [position]
  ∧ EntryEngine.killStates e' !! pos_id p = None
  ∧ EntryEngine.exitStates e' = EntryEngine.exitStates e
  ∧ SignalEngine.tokenRegistry s' = SignalEngine.tokenRegistry s.
Proof.
  intros e pm Hp Hid Hopen Htracker Hstate Hidle price s' e' pm'.
  assert (Hlookup : PositionManager.lookupPosition (pos_id p) pm = Some (position, p)).
  { unfold PositionManager.lookupPosition. rewrite Hid. simpl. by rewrite Hp. }
  assert (Hs' : s'
    = {| SignalEngine.tokenRegistry := SignalEngine.tokenRegistry s;
         SignalEngine.entryEngine :=
           {| EntryEngine.positionManager :=
                PositionManager.closePosition now (pos_id p) price kill_switch_no_tx pm;
              EntryEngine.exitStates := EntryEngine.exitStates e;
              EntryEngine.killStates := delete (pos_id p) (EntryEngine.killStates e);
              EntryEngine.missedRunners := EntryEngine.missedRunners e |};
         SignalEngine.processedTxCount := SignalEngine.processedTxCount s |}).
  { unfold s', SignalEngine.checkStalePosition. fold e. fold pm. rewrite Hp.
    unfold TokenRegistry.getTracker. rewrite Htracker. fold price.
    unfold KillSwitch.check, KillSwitch.trigger, KillSwitch.cleanup. rewrite Hp, Hstate.
    unfold CONFIG.killSwitch.noTxSeconds.
    by rewrite bool_decide_eq_true_2 by lia. }
  subst pm' e'. rewrite Hs'. cbn [SignalEngine.entryEngine EntryEngine.positionManager
    EntryEngine.killStates EntryEngine.exitStates SignalEngine.tokenRegistry].
  unfold PositionManager.closePosition. rewrite Hlookup.
  rewrite bool_decide_eq_false_2 by done.
  cbn [PositionManager.heap PositionManager.positions PositionManager.tokenToPosition
       PositionManager.closedPositions].
  split.
  { eexists. split; [apply list_lookup_insert_eq; by eapply lookup_lt_Some|].
    by repeat split. }
  split; [apply lookup_delete_eq|]. split; [apply lookup_delete_eq|].
  split; [done|]. split; [apply lookup_delete_eq|]. done.
Qed.
End inactive_tick.

Lemma tick_closes_inactive_position_witness :
  PositionManager.heap (EntryEngine.positionManager (SignalEngine.entryEngine demoEngine))
    !! 0%nat = Some demoPosition
  ∧ PositionManager.positions
      (EntryEngine.positionManager (SignalEngine.entryEngine demoEngine))
      !! pos_id demoPosition = Some 0%nat
  ∧ status demoPosition ≠ closed
  ∧ SignalEngine.tokenRegistry demoEngine !! pos_tokenAddress demoPosition
    = Some demoTracker
  ∧ EntryEngine.killStates (SignalEngine.entryEngine demoEngine) !! pos_id demoPosition
    = Some {| ks_positionId := "pos_1000_abc"; lastActivityTimestamp := 1000 |}
  ∧ 60 * 1000 ≤ 70000 - TokenTracker.lastTxTimestamp demoTracker
  ∧ PositionManager.positions
      (EntryEngine.positionManager
         (SignalEngine.entryEngine
            (SignalEngine.checkStalePosition (rt := referenceRuntime) 70000 0%nat demoEngine)))
      !! pos_id demoPosition = None.
Proof.
  assert (Hp : PositionManager.heap
                 (EntryEngine.positionManager (SignalEngine.entryEngine demoEngine))
                 !! 0%nat = Some demoPosition) by reflexivity.
  assert (Hid : PositionManager.positions
                  (EntryEngine.positionManager (SignalEngine.entryEngine demoEngine))
                  !! pos_id demoPosition = Some 0%nat) by reflexivity.
  assert (Hopen : status demoPosition ≠ closed) by discriminate.
  assert (Htracker : SignalEngine.tokenRegistry demoEngine !! pos_tokenAddress demoPosition
                     = Some demoTracker) by reflexivity.
  assert (Hstate : EntryEngine.killStates (SignalEngine.entryEngine demoEngine)
                     !! pos_id demoPosition
                   = Some {| ks_positionId := "pos_1000_abc";
                             lastActivityTimestamp := 1000 |}) by reflexivity.
  assert (Hidle : 60 * 1000 ≤ 70000 - TokenTracker.lastTxTimestamp demoTracker)
    by (vm_compute; discriminate).
  repeat (split; [assumption|]).
  exact (proj1 (proj2 (tick_closes_inactive_position (rt := referenceRuntime) 70000 0%nat
                         demoEngine demoPosition demoTracker _
                         Hp Hid Hopen Htracker Hstate Hidle))).
Defined.

(** ** The entry engine *)

Section entry_engine.
Context {rt : JSRuntime}.

Lemma evaluateEntry_eligible (now : Z) (tracker : TokenTracker.t) (tokenScore : TokenScore)
    (signalEval : SignalEvaluation) (metrics : RollingMetrics) (e : EntryEngine.t) :
  (EntryEngine.evaluateEntry now tracker tokenScore signalEval metrics e).1 = true
  ↔ PositionManager.hasOpenPosition (TokenTracker.tokenAddress tracker)
      (EntryEngine.positionManager e) = false
    ∧ TokenTracker.dropped tracker = false
    ∧ 18 ≤ score tokenScore
    ∧ (Qc_of_Z 2 ≤ TokenTracker.getAgeMinutes now tracker)%Qc
    ∧ (TokenTracker.getAgeMinutes now tracker ≤ Qc_of_Z 12)%Qc
    ∧ allPassed signalEval = true
    ∧ (Qc_of_Z 3000 ≤ EntryEngine.estimateMarketCap metrics)%Qc
    ∧ (EntryEngine.estimateMarketCap metrics ≤ Qc_of_Z 15000)%Qc.
Proof.
  unfold EntryEngine.evaluateEntry.
  unfold CONFIG.entry.minScore, CONFIG.entry.minTokenAgeMinutes,
    CONFIG.entry.maxTokenAgeMinutes, CONFIG.entry.minMarketCapSOL,
    CONFIG.entry.maxMarketCapSOL.
  destruct (PositionManager.hasOpenPosition _ _);
    [cbn; split; [done | by intros (? & _)]|].
  destruct (TokenTracker.dropped tracker);
    [cbn; split; [done | by intros (_ & ? & _)]|].
  case_bool_decide as Hscore; [cbn; split; [done | intros; lia]|].
  case_bool_decide as Hyoung.
  { cbn. split; [done|]. intros (_ & _ & _ & Hage & _). by apply Qcle_not_lt in Hage. }
  case_bool_decide as Hold.
  { cbn. split; [done|]. intros (_ & _ & _ & _ & Hage & _). by apply Qcle_not_lt in Hage. }
  destruct (allPassed signalEval); cbn [negb];
    [|cbn; split; [done | by intros (_ & _ & _ & _ & _ & ? & _)]].
  case_bool_decide as Hlow.
  { cbn. split; [done|]. intros (_ & _ & _ & _ & _ & _ & Hmc & _).
    by apply Qcle_not_lt in Hmc. }
  case_bool_decide as Hhigh.
  { cbn. split; [done|]. intros (_ & _ & _ & _ & _ & _ & _ & Hmc).
    by apply Qcle_not_lt in Hmc. }
  cbn. split; [|done]. intros _.
  repeat split; try done; first [lia | by apply Qcnot_lt_le].
Qed.

(** X21. [evaluateEntry] finds a token eligible exactly when it has no
    open position, is not dropped, scores at least 18, is between 2 and 12
    minutes old, passed all signals, and has an estimated market cap
    (buyers times average buy size times 30) between 3000 and 15000; it
    gives no reason exactly when the token is eligible; and with the signals
    evaluated on the same metrics an eligible token has between 200 and
    10000 buyers in the 5-minute window. *)
Theorem entry_requirements (now : Z) (tracker : TokenTracker.t) (tokenScore : TokenScore)
    (signalEval : SignalEvaluation) (metrics : RollingMetrics) (e : EntryEngine.t) :
  let evaluation := EntryEngine.evaluateEntry now tracker tokenScore signalEval metrics e in
  let ageMs := now - TokenTracker.firstSeenTimestamp tracker in
  (evaluation.1 = true
   ↔ PositionManager.hasOpenPosition (TokenTracker.tokenAddress tracker)
       (EntryEngine.positionManager e) = false
     ∧ TokenTracker.dropped tracker = false
     ∧ 18 ≤ score tokenScore
     ∧ 2 * 60 * 1000 ≤ ageMs ≤ 12 * 60 * 1000
     ∧ allPassed signalEval = true
     ∧ (Qc_of_Z 3000 ≤ Qc_of_Z (buyers5m metrics) * avgBuySize metrics * Qc_of_Z 30)%Qc
     ∧ (Qc_of_Z (buyers5m metrics) * avgBuySize metrics * Qc_of_Z 30 ≤ Qc_of_Z 15000)%Qc)
  ∧ (evaluation.1 = true ↔ evaluation.2 = None)
  ∧ (evaluation.1 = true → signalEval = evaluateSignals metrics →
     200 ≤ buyers5m metrics ≤ 10000).
Proof.
  intros evaluation ageMs.
  assert (Hage : ∀ k : Z,
            ((Qc_of_Z k ≤ TokenTracker.getAgeMinutes now tracker)%Qc ↔ k * 60 * 1000 ≤ ageMs)
            ∧ ((TokenTracker.getAgeMinutes now tracker ≤ Qc_of_Z k)%Qc
               ↔ ageMs ≤ k * 60 * 1000)).
  { intros k. unfold TokenTracker.getAgeMinutes, TokenTracker.getAgeMs. fold ageMs.
    replace (k * 60 * 1000) with (k * 60000) by lia. change (60 * 1000) with 60000.
    rewrite !Zle_Qle, inject_Z_mult. clearbody ageMs. clear. to_Q. split; split; lra. }
  pose proof (evaluateEntry_eligible now tracker tokenScore signalEval metrics e) as Hiff.
  fold evaluation in Hiff.
  rewrite (proj1 (Hage 2)), (proj2 (Hage 12)) in Hiff.
  split; [|split].
  - rewrite Hiff. unfold EntryEngine.estimateMarketCap. tauto.
  - subst evaluation. unfold EntryEngine.evaluateEntry.
    repeat match goal with
           | |- context [if ?b then _ else _] => destruct b
           end; cbn; split; done.
  - intros Helig ->. apply Hiff in Helig as (_ & _ & _ & _ & _ & Hall & Hlow & Hhigh).
    unfold evaluateSignals in Hall. cbn [allPassed] in Hall.
    repeat match goal with
           | H : _ && _ = true |- _ => apply andb_prop in H as [? ?]
           end.
    repeat match goal with
           | H : bool_decide _ = true |- _ => apply bool_decide_eq_true in H
           end.
    unfold EntryEngine.estimateMarketCap in Hlow, Hhigh.
    unfold CONFIG.signals.minAvgBuySize, CONFIG.signals.maxAvgBuySize,
      CONFIG.signals.minBuyers5m in *.
    assert (Hmin : (Q2Qc (5 # 100) ≤ avgBuySize metrics)%Qc) by assumption.
    assert (Hmax : (avgBuySize metrics ≤ Q2Qc (5 # 10))%Qc) by assumption.
    assert (Hb : (inject_Z 0 <= inject_Z (buyers5m metrics))%Q) by (rewrite <- Zle_Qle; lia).
    rewrite !Zle_Qle.
    generalize dependent (avgBuySize metrics). intros avg. intros.
    generalize dependent (buyers5m metrics). intros b. intros.
    clear -Hb Hlow Hhigh Hmin Hmax. to_Q.
    assert (Hprod1 : (0 <= (b # 1) * ((1 # 2) - avg))%Q) by (apply Qmult_le_0_compat; lra).
    assert (Hprod2 : (0 <= (b # 1) * (avg - (1 # 20)))%Q) by (apply Qmult_le_0_compat; lra).
    split; lra.
Qed.

Lemma generatePositionId_nonempty (now : Z) (rnd : string) : generatePositionId now rnd ≠ "".
Proof. unfold generatePositionId. simpl. discriminate. Qed.

Lemma openPosition_creates (now : Z) (rnd tokenAddress : string) (price : Qc)
    (entryScore : Z) (pm : PositionManager.t) :
  PositionManager.positions pm !! "" = None →
  PositionManager.hasOpenPosition tokenAddress pm = false →
  PositionManager.openPosition now rnd tokenAddress price entryScore pm
  = (length (PositionManager.heap pm),
     {| PositionManager.heap :=
          PositionManager.heap pm
          ++ [{| pos_id := generatePositionId now rnd;
                 pos_tokenAddress := tokenAddress;
                 entryTimestamp := now;
                 entryPrice := price;
                 entryScore := entryScore;
                 positionSizeSOL := CONFIG.entry.positionSizeSOL;
                 remainingSizeSOL := CONFIG.entry.positionSizeSOL;
                 status := open;
                 partialExitTimestamp := None;
                 partialExitPrice := None;
                 exitTimestamp := None;
                 exitPrice := None;
                 exitReason := None;
                 maxUnrealizedPnL := 0;
                 realizedPnL := 0 |}];
        PositionManager.positions :=
          <[generatePositionId now rnd := length (PositionManager.heap pm)]>
            (PositionManager.positions pm);
        PositionManager.closedPositions := PositionManager.closedPositions pm;
        PositionManager.tokenToPosition :=
          <[tokenAddress := generatePositionId now rnd]>
            (PositionManager.tokenToPosition pm) |}).
Proof.
  intros Hempty Hnone.
  unfold PositionManager.hasOpenPosition, PositionManager.getPositionByToken,
    PositionManager.getPosition, PositionManager.statusOf in Hnone.
  unfold PositionManager.openPosition.
  destruct (PositionManager.tokenToPosition pm !! tokenAddress) as [existingId|]; [|done].
  case_bool_decide as Hid.
  { subst existingId. unfold PositionManager.lookupPosition. by rewrite Hempty. }
  destruct (PositionManager.lookupPosition existingId pm) as [[a p]|] eqn:Hlookup; [|done].
  apply lookupPosition_Some in Hlookup as [_ Hp].
  cbn in Hnone. rewrite Hp in Hnone. cbn in Hnone.
  case_bool_decide as Hclosed; [done|].
  rewrite bool_decide_eq_true_2; [done | congruence].
Qed.

(** X22. [tryEntry] returns the eligibility found by [evaluateEntry].
    With an open position on the token it changes nothing.  When the token is
    not eligible the position manager and the exit and kill-switch states are
    unchanged.  When it is eligible (and no position is stored under the
    empty id) a new open position of 1 SOL is stored for the token, entered
    at the average buy size with the token's score, under the generated id,
    with fresh exit and kill-switch states, the missed runners are unchanged,
    and any further [tryEntry] for this token changes nothing. *)
Theorem tryEntry_outcome (now : Z) (rnd : string) (tracker : TokenTracker.t)
    (tokenScore : TokenScore) (signalEval : SignalEvaluation) (metrics : RollingMetrics)
    (e : EntryEngine.t) :
  let token := TokenTracker.tokenAddress tracker in
  let pm := EntryEngine.positionManager e in
  let evaluation := EntryEngine.evaluateEntry now tracker tokenScore signalEval metrics e in
  let result := EntryEngine.tryEntry now rnd tracker tokenScore signalEval metrics e in
  let e' := result.2 in
  let pm' := EntryEngine.positionManager e' in
  result.1 = evaluation.1
  ∧ (PositionManager.hasOpenPosition token pm = true → result = (false, e))
  ∧ (evaluation.1 = false →
     pm' = pm ∧ EntryEngine.exitStates e' = EntryEngine.exitStates e
     ∧ EntryEngine.killStates e' = EntryEngine.killStates e)
  ∧ (evaluation.1 = true → PositionManager.positions pm !! "" = None →
     let id := generatePositionId now rnd in
     PositionManager.hasOpenPosition token pm' = true
     ∧ (∃ a p, PositionManager.getPositionByToken token pm' = Some a
               ∧ PositionManager.heap pm' !! a = Some p
               ∧ pos_id p = id ∧ pos_tokenAddress p = token ∧ status p = open
               ∧ entryTimestamp p = now ∧ entryPrice p = avgBuySize metrics
               ∧ entryScore p = score tokenScore
               ∧ positionSizeSOL p = Qc_of_Z 1 ∧ remainingSizeSOL p = Qc_of_Z 1
               ∧ realizedPnL p = 0%Qc)
     ∧ EntryEngine.exitStates e' !! id
       = Some {| es_positionId := id; consecutiveTxDecreases := 0;
                 lastTxCount60s := txCount60s metrics; spikeDetected := false;
                 postSpikeTxCount := None |}
     ∧ EntryEngine.killStates e' !! id
       = Some {| ks_positionId := id; lastActivityTimestamp := now |}
     ∧ EntryEngine.missedRunners e' = EntryEngine.missedRunners e
     ∧ (∀ now' rnd' score' signalEval' metrics',
          EntryEngine.tryEntry now' rnd' tracker score' signalEval' metrics' e'
          = (false, e'))).
Proof.
  intros token pm evaluation result e' pm'.
  assert (Hblocked : ∀ now0 rnd0 score0 signalEval0 metrics0 e0,
            PositionManager.hasOpenPosition token (EntryEngine.positionManager e0) = true →
            EntryEngine.tryEntry now0 rnd0 tracker score0 signalEval0 metrics0 e0
            = (false, e0)).
  { intros now0 rnd0 score0 signalEval0 metrics0 e0 Hopen.
    unfold EntryEngine.tryEntry, EntryEngine.evaluateEntry. fold token.
    rewrite Hopen. cbn. by rewrite andb_false_r. }
  split; [|split; [|split]].
  - subst result. unfold EntryEngine.tryEntry. fold evaluation.
    destruct (evaluation.1); cbn [negb]; [|by destruct (_ && _)].
    by destruct (PositionManager.openPosition _ _ _ _ _ _).
  - apply Hblocked.
  - intros Hno. subst pm' e' result. unfold EntryEngine.tryEntry. fold evaluation.
    rewrite Hno. cbn [negb]. by destruct (_ && _).
  - intros Hyes Hempty id.
    assert (Hfree : PositionManager.hasOpenPosition token pm = false).
    { apply evaluateEntry_eligible in Hyes. tauto. }
    assert (He' : e'
      = {| EntryEngine.positionManager :=
             (PositionManager.openPosition now rnd token (avgBuySize metrics)
                (score tokenScore) pm).2;
           EntryEngine.exitStates :=
             ExitEngine.initPosition id (txCount60s metrics) (EntryEngine.exitStates e);
           EntryEngine.killStates := KillSwitch.initPosition now id (EntryEngine.killStates e);
           EntryEngine.missedRunners := EntryEngine.missedRunners e |}).
    { subst e' result. unfold EntryEngine.tryEntry. fold evaluation. rewrite Hyes.
      cbn [negb]. fold token. fold pm. unfold EntryEngine.calculateEntryPrice.
      rewrite (openPosition_creates _ _ _ _ _ _ Hempty Hfree). cbn [snd fst].
      cbn [PositionManager.heap]. by rewrite lookup_app_r, Nat.sub_diag by done. }
    assert (Hopen : PositionManager.hasOpenPosition token pm' = true).
    { subst pm'. rewrite He'. cbn [EntryEngine.positionManager].
      rewrite (openPosition_creates _ _ _ _ _ _ Hempty Hfree). cbn [snd].
      unfold PositionManager.hasOpenPosition, PositionManager.getPositionByToken,
        PositionManager.getPosition, PositionManager.lookupPosition,
        PositionManager.statusOf.
      cbn [PositionManager.tokenToPosition PositionManager.positions PositionManager.heap].
      rewrite lookup_insert_eq.
      rewrite bool_decide_eq_false_2 by apply generatePositionId_nonempty.
      rewrite lookup_insert_eq. cbn.
      rewrite lookup_app_r, Nat.sub_diag by done. cbn.
      rewrite lookup_app_r, Nat.sub_diag by done. cbn.
      by rewrite bool_decide_eq_true_2. }
    split; [done|]. split.
    { subst pm'. rewrite He'. cbn [EntryEngine.positionManager].
      rewrite (openPosition_creates _ _ _ _ _ _ Hempty Hfree). cbn [snd].
      unfold PositionManager.getPositionByToken, PositionManager.getPosition,
        PositionManager.lookupPosition.
      cbn [PositionManager.tokenToPosition PositionManager.positions PositionManager.heap].
      rewrite lookup_insert_eq.
      rewrite bool_decide_eq_false_2 by apply generatePositionId_nonempty.
      rewrite lookup_insert_eq. cbn.
      rewrite lookup_app_r, Nat.sub_diag by done. cbn.
      eexists _, _. split; [done|].
      rewrite lookup_app_r, Nat.sub_diag by done. cbn. split; [done|].
      by repeat split. }
    rewrite He'. cbn [EntryEngine.exitStates EntryEngine.killStates
                      EntryEngine.missedRunners].
    split; [apply lookup_insert_eq|]. split; [apply lookup_insert_eq|].
    split; [done|]. intros. apply Hblocked. by rewrite <- He'.
Qed.

(** X23. The list of missed runners never grows beyond 1000 entries:
    [trackMissedRunner] appends the new record, which is then the last one,
    and drops the oldest entry when the list was full; the position manager
    is not touched; and [tryEntry] keeps the bound. *)
Theorem missed_runners_are_capped (now : Z) (tokenAddress : string) (missedScore : Z)
    (reason : string) (e : EntryEngine.t) :
  (length (EntryEngine.missedRunners e) ≤ 1000)%nat →
  let e' := EntryEngine.trackMissedRunner now tokenAddress missedScore reason e in
  let record :=
    {| mr_tokenAddress := tokenAddress; mr_timestamp := now;
       mr_score := missedScore; mr_reason := reason |} in
  (length (EntryEngine.missedRunners e') ≤ 1000)%nat
  ∧ last (EntryEngine.missedRunners e') = Some record
  ∧ ((length (EntryEngine.missedRunners e) < 1000)%nat →
     EntryEngine.missedRunners e' = EntryEngine.missedRunners e ++ [record])
  ∧ (length (EntryEngine.missedRunners e) = 1000%nat →
     EntryEngine.missedRunners e' = tail (EntryEngine.missedRunners e) ++ [record])
  ∧ EntryEngine.positionManager e' = EntryEngine.positionManager e
  ∧ (∀ rnd tracker tokenScore signalEval metrics,
       (length (EntryEngine.missedRunners
                  (EntryEngine.tryEntry now rnd tracker tokenScore signalEval metrics e).2)
        ≤ 1000)%nat).
Proof.
  intros Hcap e' record.
  assert (Htrack : ∀ now0 token0 score0 reason0,
    (length (EntryEngine.missedRunners
               (EntryEngine.trackMissedRunner now0 token0 score0 reason0 e)) ≤ 1000)%nat).
  { intros. unfold EntryEngine.trackMissedRunner. cbn [EntryEngine.missedRunners].
    case_bool_decide as Hfull; [|lia]. rewrite length_drop. lia. }
  assert (Hcases : EntryEngine.missedRunners e'
                   = if decide (length (EntryEngine.missedRunners e) < 1000)%nat
                     then EntryEngine.missedRunners e ++ [record]
                     else tail (EntryEngine.missedRunners e) ++ [record]).
  { subst e'. unfold EntryEngine.trackMissedRunner. cbn [EntryEngine.missedRunners].
    fold record. rewrite length_app. cbn [length].
    case_decide as Hlt.
    - rewrite bool_decide_eq_false_2; [done | lia].
    - rewrite bool_decide_eq_true_2 by lia.
      replace (length (EntryEngine.missedRunners e) + 1 - 1000)%nat with 1%nat by lia.
      destruct (EntryEngine.missedRunners e) as [|r l]; [simpl in *; lia | done]. }
  split; [apply Htrack|]. split.
  { rewrite Hcases. case_decide; apply last_snoc. }
  split; [intros Hlt; rewrite Hcases; by rewrite decide_True|].
  split; [intros Heq; rewrite Hcases; rewrite decide_False; [done | lia]|].
  split; [done|].
  intros rnd tracker tokenScore signalEval metrics. unfold EntryEngine.tryEntry.
  destruct (negb _).
  - destruct (_ && _); [apply Htrack | done].
  - by destruct (PositionManager.openPosition _ _ _ _ _ _).
Qed.
End entry_engine.

Lemma missed_runners_are_capped_witness :
  (length (EntryEngine.missedRunners EntryEngine.new) ≤ 1000)%nat
  ∧ last (EntryEngine.missedRunners
            (EntryEngine.trackMissedRunner 5000 "TokenC" 20 "too_young" EntryEngine.new))
    = Some {| mr_tokenAddress := "TokenC"; mr_timestamp := 5000;
              mr_score := 20; mr_reason := "too_young" |}.
Proof.
  assert (Hcap : (length (EntryEngine.missedRunners EntryEngine.new) ≤ 1000)%nat)
    by (simpl; lia).
  split; [exact Hcap|].
  exact (proj1 (proj2 (missed_runners_are_capped (rt := referenceRuntime) 5000 "TokenC" 20
                         "too_young" EntryEngine.new Hcap))).
Defined.

(** ** Invariants of the position manager *)

Lemma evaluateExit_manager now position price metrics tracker exitStates pm :
  (ExitEngine.evaluateExit now position price metrics tracker exitStates pm).2 = pm
  ∨ ∃ positionId,
      (ExitEngine.evaluateExit now position price metrics tracker exitStates pm).2
      = PositionManager.updateUnrealizedPnL positionId price pm.
Proof.
  unfold ExitEngine.evaluateExit.
  destruct (PositionManager.heap pm !! position) as [p|]; [|by left].
  destruct (exitStates !! pos_id p) as [state|]; [|by left].
  right. exists (pos_id p).
  repeat match goal with
         | |- context [let '(_, _) := ?c in _] => destruct c
         | |- context [if ?c then _ else _] => destruct c
         end; done.
Qed.

(** A property of the position manager kept by its four updates is kept by
    every sequence of calls on the trading components. *)
Lemma runPositionOps_invariant (I : PositionManager.t → Prop) :
  (∀ now rnd tokenAddress price entryScore pm,
     I pm → generatePositionId now rnd ∉ pos_id <$> PositionManager.heap pm →
     I (PositionManager.openPosition now rnd tokenAddress price entryScore pm).2) →
  (∀ now positionId price pm,
     I pm → I (PositionManager.executePartialExit now positionId price pm)) →
  (∀ now positionId price r pm,
     I pm → I (PositionManager.closePosition now positionId price r pm)) →
  (∀ positionId price pm,
     I pm → I (PositionManager.updateUnrealizedPnL positionId price pm)) →
  ∀ ops e,
    I (EntryEngine.positionManager e) → freshIds ops e →
    I (EntryEngine.positionManager (runPositionOps ops e)).
Proof.
  intros Hopen Hpartial Hclose Hupdate ops.
  induction ops as [|op ops IH]; intros e HI Hfresh; [done|].
  destruct Hfresh as [Hop Hrest]. simpl. apply IH; [|done]. clear IH Hrest.
  destruct op; simpl.
  - by apply Hopen.
  - by apply Hpartial.
  - by apply Hclose.
  - by apply Hupdate.
  - destruct (evaluateExit_manager now position price metrics tracker
                (EntryEngine.exitStates e) (EntryEngine.positionManager e))
      as [Hsame | [positionId Hupd]];
      destruct (ExitEngine.evaluateExit _ _ _ _ _ _ _) as [[ev st] pm1];
      simpl in *; subst pm1; [done | by apply Hupdate].
  - assert (Hexec : I (ExitEngine.executeExit now position price evaluation
                         (EntryEngine.exitStates e) (EntryEngine.positionManager e)).2).
    { unfold ExitEngine.executeExit.
      destruct (PositionManager.heap _ !! position) as [p|]; [|done].
      destruct (shouldPartialExit evaluation && bool_decide (status p = open)).
      + destruct (PositionManager.getPosition _ _); [|by apply Hpartial].
        destruct (shouldFullExit evaluation), (reason evaluation); simpl; auto.
      + destruct (shouldFullExit evaluation), (reason evaluation); simpl; auto. }
    by destruct (ExitEngine.executeExit _ _ _ _ _ _) as [st pm1].
  - assert (Hcheck : I (KillSwitch.check now position tracker price latestTx
                          (EntryEngine.killStates e) (EntryEngine.positionManager e)).2).
    { unfold KillSwitch.check, KillSwitch.trigger.
      destruct (PositionManager.heap _ !! position) as [p|]; [|done].
      destruct (EntryEngine.killStates e !! pos_id p) as [state|]; [|done].
      case_bool_decide; [by apply Hclose|].
      destruct latestTx as [latestTx|]; [|done].
      case_bool_decide; [by apply Hclose|].
      destruct (_ && _); [by apply Hclose | done]. }
    by destruct (KillSwitch.check _ _ _ _ _ _ _) as [[killed st] pm1].
Qed.

Lemma tokenIndexed_openPosition now rnd tokenAddress price entryScore pm :
  wfManager pm ∧ tokenIndexed pm →
  generatePositionId now rnd ∉ pos_id <$> PositionManager.heap pm →
  wfManager (PositionManager.openPosition now rnd tokenAddress price entryScore pm).2
  ∧ tokenIndexed (PositionManager.openPosition now rnd tokenAddress price entryScore pm).2.
Proof.
  intros [Hwf (Hindex & Hentry & Hempty)] Hfresh. split; [by apply openPosition_wf|].
  destruct Hwf as [Hbound _].
  assert (Hnew : PositionManager.positions pm !! generatePositionId now rnd = None).
  { destruct (PositionManager.positions pm !! generatePositionId now rnd) as [a|] eqn:Ha;
      [|done].
    destruct (Hbound _ _ Ha) as (p & Hp & Hid & _).
    exfalso. apply Hfresh. rewrite <- Hid. apply list_elem_of_fmap_2.
    by eapply list_elem_of_lookup_2. }
  unfold PositionManager.openPosition.
  destruct (PositionManager.tokenToPosition pm !! tokenAddress) as [existingId|] eqn:Htok.
  { destruct (Hentry _ _ Htok) as (b & q & Hb & Hq & Htoken).
    unfold PositionManager.lookupPosition. rewrite Hb. simpl. rewrite Hq. simpl.
    destruct (Hbound _ _ Hb) as (q' & Hq' & _ & Hlive).
    rewrite bool_decide_eq_false_2 by congruence. done. }
  cbn [snd]. split; [|split]; simpl.
  - intros positionId a p Ha Hp.
    apply lookup_insert_Some in Ha as [[<- <-] | [Hne Ha]].
    + rewrite lookup_app_r, Nat.sub_diag in Hp by done. injection Hp as <-.
      apply lookup_insert_eq.
    + destruct (Hbound _ _ Ha) as (q & Hq & _).
      rewrite lookup_app_l in Hp by (by eapply lookup_lt_Some).
      pose proof (Hindex _ _ _ Ha Hp) as Hidx.
      rewrite lookup_insert_ne; [done|]. intros Heq. congruence.
  - intros token positionId Hentry'.
    apply lookup_insert_Some in Hentry' as [[<- <-] | [Hne Hold]].
    + eexists _, _. rewrite lookup_insert_eq. split; [done|].
      by rewrite lookup_app_r, Nat.sub_diag.
    + destruct (Hentry _ _ Hold) as (a & p & Ha & Hp & Htoken).
      exists a, p. rewrite lookup_insert_ne by congruence.
      split; [done|]. rewrite lookup_app_l by (by eapply lookup_lt_Some). done.
  - rewrite lookup_insert_ne; [done|]. apply generatePositionId_nonempty.
Qed.

Lemma tokenIndexed_update pm a p p' :
  wfManager pm ∧ tokenIndexed pm →
  PositionManager.heap pm !! a = Some p →
  pos_id p' = pos_id p → pos_tokenAddress p' = pos_tokenAddress p →
  tokenIndexed {| PositionManager.heap := <[a := p']> (PositionManager.heap pm);
                  PositionManager.positions := PositionManager.positions pm;
                  PositionManager.closedPositions := PositionManager.closedPositions pm;
                  PositionManager.tokenToPosition := PositionManager.tokenToPosition pm |}.
Proof.
  intros [Hwf (Hindex & Hentry & Hempty)] Hp Hid Htoken. split; [|split; [|done]]; simpl.
  - intros positionId b q Hb Hq.
    destruct (decide (b = a)) as [-> | Hne].
    + rewrite list_lookup_insert_eq in Hq by (by eapply lookup_lt_Some).
      injection Hq as <-. rewrite Htoken. by eapply Hindex.
    + rewrite list_lookup_insert_ne in Hq by done. by eapply Hindex.
  - intros token positionId Htok.
    destruct (Hentry _ _ Htok) as (b & q & Hb & Hq & Hqtoken).
    destruct (decide (b = a)) as [-> | Hne].
    + exists a, p'. rewrite list_lookup_insert_eq by (by eapply lookup_lt_Some).
      split; [done|]. split; [done|]. congruence.
    + exists b, q. by rewrite list_lookup_insert_ne.
Qed.

Lemma tokenIndexed_executePartialExit now positionId price pm :
  wfManager pm ∧ tokenIndexed pm →
  wfManager (PositionManager.executePartialExit now positionId price pm)
  ∧ tokenIndexed (PositionManager.executePartialExit now positionId price pm).
Proof.
  intros Hgood. split; [apply executePartialExit_wf; tauto|].
  unfold PositionManager.executePartialExit.
  destruct (PositionManager.lookupPosition positionId pm) as [[a p]|] eqn:E; [|tauto].
  apply lookupPosition_Some in E as [_ Hp].
  case_bool_decide; [tauto|]. by eapply tokenIndexed_update.
Qed.

Lemma tokenIndexed_updateUnrealizedPnL positionId price pm :
  wfManager pm ∧ tokenIndexed pm →
  wfManager (PositionManager.updateUnrealizedPnL positionId price pm)
  ∧ tokenIndexed (PositionManager.updateUnrealizedPnL positionId price pm).
Proof.
  intros Hgood. split; [apply updateUnrealizedPnL_wf; tauto|].
  unfold PositionManager.updateUnrealizedPnL.
  destruct (PositionManager.lookupPosition positionId pm) as [[a p]|] eqn:E; [|tauto].
  apply lookupPosition_Some in E as [_ Hp].
  case_bool_decide; [tauto|]. case_bool_decide; [|tauto].
  by eapply tokenIndexed_update.
Qed.

Lemma tokenIndexed_closePosition now positionId price r pm :
  wfManager pm ∧ tokenIndexed pm →
  wfManager (PositionManager.closePosition now positionId price r pm)
  ∧ tokenIndexed (PositionManager.closePosition now positionId price r pm).
Proof.
  intros Hgood. split; [apply closePosition_wf; tauto|].
  destruct Hgood as [[Hbound Hids] (Hindex & Hentry & Hempty)].
  unfold PositionManager.closePosition.
  destruct (PositionManager.lookupPosition positionId pm) as [[a p]|] eqn:E;
    [|by repeat split].
  apply lookupPosition_Some in E as [Ha Hp].
  case_bool_decide; [by repeat split|]. split; [|split]; simpl.
  - intros id' b q Hb Hq. apply lookup_delete_Some in Hb as [Hne Hb].
    destruct (Hbound _ _ Hb) as (q0 & Hq0 & Hq0id & _).
    destruct (Hbound _ _ Ha) as (p0 & Hp0 & Hp0id & _).
    assert (b ≠ a) by (intros ->; congruence).
    rewrite list_lookup_insert_ne in Hq by done.
    rewrite lookup_delete_ne; [by eapply Hindex|].
    intros Htoken. pose proof (Hindex _ _ _ Ha Hp) as H1.
    pose proof (Hindex _ _ _ Hb Hq) as H2. rewrite Htoken in H1. congruence.
  - intros token id' Htok. apply lookup_delete_Some in Htok as [Hne Htok].
    destruct (Hentry _ _ Htok) as (b & q & Hb & Hq & Hqtoken).
    assert (b ≠ a) by (intros ->; congruence).
    exists b, q. rewrite list_lookup_insert_ne by done.
    split; [|done]. rewrite lookup_delete_ne; [done|]. intros <-. congruence.
  - apply lookup_delete_None. by right.
Qed.

Lemma empty_tokenIndexed : tokenIndexed PositionManager.empty.
Proof.
  split; [|split; [|apply lookup_empty]].
  - intros positionId a p H. cbn in H. by rewrite lookup_empty in H.
  - intros tokenAddress positionId H. cbn in H. by rewrite lookup_empty in H.
Qed.

Lemma demoOps_fresh : freshIds demoOps EntryEngine.new.
Proof.
  cbn [freshIds demoOps]. repeat split; vm_compute;
    intros H; repeat (apply elem_of_cons in H as [H|H]; [discriminate H|]);
    by apply elem_of_nil in H.
Qed.

(** X24. After any sequence of calls on a fresh entry engine whose
    generated position ids are new, the position manager holds at most one
    bound position per token; [hasOpenPosition] answers true for a token
    exactly when a bound position of that token exists; every bound id leads
    to a position object that carries this id and is not closed; and
    [openCount] is the number of bound ids. *)
Theorem one_open_position_per_token (ops : list PositionOp) :
  freshIds ops EntryEngine.new →
  let pm := EntryEngine.positionManager (runPositionOps ops EntryEngine.new) in
  (∀ id1 id2 a1 a2 p1 p2,
     PositionManager.positions pm !! id1 = Some a1 → PositionManager.heap pm !! a1 = Some p1 →
     PositionManager.positions pm !! id2 = Some a2 → PositionManager.heap pm !! a2 = Some p2 →
     pos_tokenAddress p1 = pos_tokenAddress p2 →
     id1 = id2 ∧ a1 = a2)
  ∧ (∀ tokenAddress,
       PositionManager.hasOpenPosition tokenAddress pm = true
       ↔ ∃ positionId a p,
           PositionManager.positions pm !! positionId = Some a
           ∧ PositionManager.heap pm !! a = Some p
           ∧ pos_tokenAddress p = tokenAddress)
  ∧ (∀ positionId a,
       PositionManager.positions pm !! positionId = Some a →
       ∃ p, PositionManager.heap pm !! a = Some p ∧ pos_id p = positionId
            ∧ status p ≠ closed)
  ∧ PositionManager.openCount pm = Z.of_nat (size (PositionManager.positions pm)).
Proof.
  intros Hfresh pm.
  assert (Hgood : wfManager pm ∧ tokenIndexed pm).
  { apply (runPositionOps_invariant (λ pm, wfManager pm ∧ tokenIndexed pm));
      auto using tokenIndexed_openPosition, tokenIndexed_executePartialExit,
        tokenIndexed_closePosition, tokenIndexed_updateUnrealizedPnL.
    split; [apply empty_wf | apply empty_tokenIndexed]. }
  clearbody pm. destruct Hgood as [[Hbound Hids] (Hindex & Hentry & Hempty)].
  split; [|split; [|split]].
  - intros id1 id2 a1 a2 p1 p2 Ha1 Hp1 Ha2 Hp2 Htoken.
    pose proof (Hindex _ _ _ Ha1 Hp1) as H1. pose proof (Hindex _ _ _ Ha2 Hp2) as H2.
    rewrite Htoken in H1. assert (id1 = id2) as -> by congruence.
    split; [done | congruence].
  - intros tokenAddress.
    unfold PositionManager.hasOpenPosition, PositionManager.getPositionByToken,
      PositionManager.getPosition, PositionManager.lookupPosition, PositionManager.statusOf.
    split.
    + destruct (PositionManager.tokenToPosition pm !! tokenAddress) as [id|] eqn:Htok;
        [|done].
      intros _. destruct (Hentry _ _ Htok) as (a & p & Ha & Hp & Htoken). by exists id, a, p.
    + intros (id & a & p & Ha & Hp & <-).
      rewrite (Hindex _ _ _ Ha Hp).
      rewrite bool_decide_eq_false_2 by (intros ->; congruence).
      rewrite Ha. simpl. rewrite Hp. simpl.
      destruct (Hbound _ _ Ha) as (q & Hq & _ & Hlive).
      rewrite Hq in Hp. injection Hp as ->. rewrite Hq. simpl.
      rewrite bool_decide_eq_true_2; [done|]. by intros [= Hclosed].
  - done.
  - unfold PositionManager.openCount, PositionManager.getOpenPositions.
    rewrite filter_Forall.
    + by rewrite length_fmap, length_map_to_list.
    + apply Forall_forall. intros a Ha.
      apply list_elem_of_fmap in Ha as ([id b] & -> & Hin).
      apply elem_of_map_to_list in Hin. simpl.
      destruct (Hbound _ _ Hin) as (q & Hq & _ & Hlive).
      unfold PositionManager.statusOf. rewrite Hq. simpl. by intros [= Hclosed].
Qed.

Lemma one_open_position_per_token_witness :
  freshIds demoOps EntryEngine.new
  ∧ (let pm := EntryEngine.positionManager (runPositionOps demoOps EntryEngine.new) in
     PositionManager.hasOpenPosition "TokenC" pm = true
     ∧ PositionManager.hasOpenPosition "TokenD" pm = false
     ∧ PositionManager.openCount pm = Z.of_nat (size (PositionManager.positions pm))).
Proof.
  pose proof (one_open_position_per_token demoOps demoOps_fresh) as (_ & _ & _ & Hcount).
  split; [exact demoOps_fresh|]. split; [reflexivity|]. split; [reflexivity | exact Hcount].
Defined.

Lemma getTotalPnL_frame (pm pm' : PositionManager.t) :
  PositionManager.closedPositions pm' = PositionManager.closedPositions pm →
  (∀ a, a ∈ PositionManager.closedPositions pm →
        PositionManager.heap pm' !! a = PositionManager.heap pm !! a) →
  PositionManager.getTotalPnL pm' = PositionManager.getTotalPnL pm.
Proof.
  unfold PositionManager.getTotalPnL. intros -> Hsame.
  enough (Hany : ∀ acc,
    foldl (λ sum a, (sum + from_option realizedPnL 0 (PositionManager.heap pm' !! a))%Qc)
          acc (PositionManager.closedPositions pm)
    = foldl (λ sum a, (sum + from_option realizedPnL 0 (PositionManager.heap pm !! a))%Qc)
            acc (PositionManager.closedPositions pm)) by apply Hany.
  induction (PositionManager.closedPositions pm) as [|a l IH]; [done|].
  intros acc. simpl. rewrite Hsame by (by left). apply IH.
  intros b Hb. apply Hsame. by right.
Qed.

Lemma getTotalPnL_update (pm : PositionManager.t) (a : nat) (p p' : PaperPosition)
    positions tokenToPosition :
  archived pm → PositionManager.heap pm !! a = Some p → status p ≠ closed →
  PositionManager.getTotalPnL
    {| PositionManager.heap := <[a := p']> (PositionManager.heap pm);
       PositionManager.positions := positions;
       PositionManager.closedPositions := PositionManager.closedPositions pm;
       PositionManager.tokenToPosition := tokenToPosition |}
  = PositionManager.getTotalPnL pm.
Proof.
  intros [Harch _] Hp Hlive. apply getTotalPnL_frame; [done|]. simpl.
  intros b Hb. apply Harch in Hb as (q & Hq & Hclosed).
  apply list_lookup_insert_ne. intros ->. congruence.
Qed.

Lemma archived_update (pm : PositionManager.t) (a : nat) (p p' : PaperPosition)
    positions tokenToPosition :
  archived pm → PositionManager.heap pm !! a = Some p →
  status p ≠ closed → status p' ≠ closed →
  archived {| PositionManager.heap := <[a := p']> (PositionManager.heap pm);
              PositionManager.positions := positions;
              PositionManager.closedPositions := PositionManager.closedPositions pm;
              PositionManager.tokenToPosition := tokenToPosition |}.
Proof.
  intros [Harch Hnodup] Hp Hlive Hlive'. split; [|done]. simpl.
  intros b. rewrite Harch. destruct (decide (b = a)) as [-> | Hne].
  - rewrite list_lookup_insert_eq by (by eapply lookup_lt_Some).
    split; intros (q & Hq & Hclosed); exfalso; congruence.
  - by rewrite list_lookup_insert_ne.
Qed.

Lemma archived_executePartialExit now positionId price pm :
  archived pm → archived (PositionManager.executePartialExit now positionId price pm).
Proof.
  intros Harch. unfold PositionManager.executePartialExit.
  destruct (PositionManager.lookupPosition positionId pm) as [[a p]|] eqn:E; [|done].
  apply lookupPosition_Some in E as [_ Hp].
  case_bool_decide; [done|]. by eapply archived_update.
Qed.

Lemma archived_updateUnrealizedPnL positionId price pm :
  archived pm → archived (PositionManager.updateUnrealizedPnL positionId price pm).
Proof.
  intros Harch. unfold PositionManager.updateUnrealizedPnL.
  destruct (PositionManager.lookupPosition positionId pm) as [[a p]|] eqn:E; [|done].
  apply lookupPosition_Some in E as [_ Hp].
  case_bool_decide; [done|]. case_bool_decide; [|done]. by eapply archived_update.
Qed.

Lemma archived_closePosition now positionId price r pm :
  archived pm → archived (PositionManager.closePosition now positionId price r pm).
Proof.
  intros [Harch Hnodup]. unfold PositionManager.closePosition.
  destruct (PositionManager.lookupPosition positionId pm) as [[a p]|] eqn:E; [|done].
  apply lookupPosition_Some in E as [_ Hp].
  case_bool_decide as Hlive; [done|].
  assert (Hnew : a ∉ PositionManager.closedPositions pm).
  { intros (q & Hq & Hclosed)%Harch. congruence. }
  split; simpl.
  - intros b. rewrite elem_of_app, list_elem_of_singleton, Harch.
    destruct (decide (b = a)) as [-> | Hne].
    + rewrite list_lookup_insert_eq by (by eapply lookup_lt_Some).
      split; [intros _; by eexists | by right].
    + rewrite list_lookup_insert_ne by done. split; [intros [?|?]; done | by left].
  - apply NoDup_app. split; [done|]. split; [|apply NoDup_singleton].
    intros b Hb ->%list_elem_of_singleton. done.
Qed.

Lemma archived_openPosition now rnd tokenAddress price entryScore pm :
  archived pm →
  archived (PositionManager.openPosition now rnd tokenAddress price entryScore pm).2
  ∧ PositionManager.getTotalPnL
      (PositionManager.openPosition now rnd tokenAddress price entryScore pm).2
    = PositionManager.getTotalPnL pm.
Proof.
  intros [Harch Hnodup].
  assert (Hcreated : ∀ pos positions tokenToPosition, status pos = open →
    let pm' := {| PositionManager.heap := PositionManager.heap pm ++ [pos];
                  PositionManager.positions := positions;
                  PositionManager.closedPositions := PositionManager.closedPositions pm;
                  PositionManager.tokenToPosition := tokenToPosition |} in
    archived pm' ∧ PositionManager.getTotalPnL pm' = PositionManager.getTotalPnL pm).
  { intros pos positions tokenToPosition Hopen pm'. split; [split; [|done]|].
    - simpl. intros b. rewrite Harch. split.
      + intros (q & Hq & Hclosed). exists q.
        rewrite lookup_app_l by (by eapply lookup_lt_Some). done.
      + intros (q & Hq & Hclosed). exists q. split; [|done].
        apply lookup_app_Some in Hq as [Hq | [Hlen Hq]]; [done|].
        apply list_lookup_singleton_Some in Hq as [_ <-]. congruence.
    - apply getTotalPnL_frame; [done|]. simpl. intros b (q & Hq & _)%Harch.
      apply lookup_app_l. by eapply lookup_lt_Some. }
  unfold PositionManager.openPosition.
  destruct (PositionManager.tokenToPosition pm !! tokenAddress) as [existingId|];
    [|by apply Hcreated].
  destruct (PositionManager.lookupPosition existingId pm) as [[a p]|];
    [|by apply Hcreated].
  destruct (negb _); [split; [by split | done] | by apply Hcreated].
Qed.

Lemma empty_archived : archived PositionManager.empty.
Proof.
  split; [|apply NoDup_nil_2]. intros a. cbn. split.
  - by intros H%elem_of_nil.
  - intros (p & Hp & _). by rewrite lookup_nil in Hp.
Qed.

(** X25. After any sequence of calls on a fresh entry engine whose
    generated position ids are new, [getClosedPositions] lists exactly the
    closed position objects, each once; closing a live position adds its
    realized PnL so far plus its remaining size times the price change to
    [getTotalPnL]; and [executePartialExit], [updateUnrealizedPnL] and
    [openPosition] leave [getTotalPnL] as it is: the profit of a partial exit
    enters the total only when the position is closed. *)
Theorem total_pnl_follows_the_archive (ops : list PositionOp) :
  freshIds ops EntryEngine.new →
  let pm := EntryEngine.positionManager (runPositionOps ops EntryEngine.new) in
  (∀ a, a ∈ PositionManager.getClosedPositions pm
        ↔ ∃ p, PositionManager.heap pm !! a = Some p ∧ status p = closed)
  ∧ NoDup (PositionManager.getClosedPositions pm)
  ∧ (∀ now positionId price r a p,
       PositionManager.lookupPosition positionId pm = Some (a, p) → status p ≠ closed →
       PositionManager.getTotalPnL (PositionManager.closePosition now positionId price r pm)
       = (PositionManager.getTotalPnL pm
          + (realizedPnL p + remainingSizeSOL p * priceChange price p))%Qc)
  ∧ (∀ now positionId price,
       PositionManager.getTotalPnL (PositionManager.executePartialExit now positionId price pm)
       = PositionManager.getTotalPnL pm)
  ∧ (∀ positionId price,
       PositionManager.getTotalPnL (PositionManager.updateUnrealizedPnL positionId price pm)
       = PositionManager.getTotalPnL pm)
  ∧ (∀ now rnd tokenAddress price entryScore,
       PositionManager.getTotalPnL
         (PositionManager.openPosition now rnd tokenAddress price entryScore pm).2
       = PositionManager.getTotalPnL pm).
Proof.
  intros Hfresh pm.
  assert (Harch : archived pm).
  { apply (runPositionOps_invariant archived);
      auto using archived_executePartialExit, archived_closePosition,
        archived_updateUnrealizedPnL, empty_archived.
    intros. by apply archived_openPosition. }
  clearbody pm. split; [apply Harch|]. split; [apply Harch|].
  split; [|split; [|split]].
  - intros now positionId price r a p Hlookup Hlive.
    unfold PositionManager.closePosition. rewrite Hlookup.
    rewrite bool_decide_eq_false_2 by done.
    apply lookupPosition_Some in Hlookup as [_ Hp].
    unfold PositionManager.getTotalPnL at 1.
    cbn [PositionManager.closedPositions PositionManager.heap].
    rewrite foldl_snoc.
    rewrite list_lookup_insert_eq by (by eapply lookup_lt_Some). cbn [from_option realizedPnL].
    f_equal.
    apply (getTotalPnL_update pm a p _ (PositionManager.positions pm)
             (PositionManager.tokenToPosition pm) Harch Hp Hlive).
  - intros now positionId price. unfold PositionManager.executePartialExit.
    destruct (PositionManager.lookupPosition positionId pm) as [[a p]|] eqn:E; [|done].
    apply lookupPosition_Some in E as [_ Hp].
    case_bool_decide; [done|]. by eapply getTotalPnL_update.
  - intros positionId price. unfold PositionManager.updateUnrealizedPnL.
    destruct (PositionManager.lookupPosition positionId pm) as [[a p]|] eqn:E; [|done].
    apply lookupPosition_Some in E as [_ Hp].
    case_bool_decide; [done|]. case_bool_decide; [|done]. by eapply getTotalPnL_update.
  - intros. by apply archived_openPosition.
Qed.

Lemma total_pnl_follows_the_archive_witness :
  freshIds demoOps EntryEngine.new
  ∧ (let pm := EntryEngine.positionManager (runPositionOps demoOps EntryEngine.new) in
     NoDup (PositionManager.getClosedPositions pm)
     ∧ PositionManager.getTotalPnL
         (PositionManager.executePartialExit 95000 "pos_1000_abc" (Q2Qc 3) pm)
       = PositionManager.getTotalPnL pm).
Proof.
  pose proof (total_pnl_follows_the_archive demoOps demoOps_fresh)
    as (_ & Hnodup & _ & Hpartial & _).
  split; [exact demoOps_fresh|]. split; [exact Hnodup|].
  exact (Hpartial 95000 "pos_1000_abc" (Q2Qc 3)).
Defined.

Lemma accounted_same (p p' : PaperPosition) :
  accounted p →
  positionSizeSOL p' = positionSizeSOL p → remainingSizeSOL p' = remainingSizeSOL p →
  status p' = status p → realizedPnL p' = realizedPnL p → entryPrice p' = entryPrice p →
  partialExitPrice p' = partialExitPrice p → exitPrice p' = exitPrice p →
  exitReason p' = exitReason p →
  accounted p'.
Proof.
  unfold accounted, priceChange. intros [Hsize Hbooks] -> -> -> -> -> -> -> ->. done.
Qed.

Lemma allAccounted_update pm a p p' :
  allAccounted pm → PositionManager.heap pm !! a = Some p → accounted p' →
  Forall accounted (<[a := p']> (PositionManager.heap pm)).
Proof. intros [_ Hall] Hp Hp'. by apply Forall_insert. Qed.

Lemma allAccounted_updateUnrealizedPnL positionId price pm :
  allAccounted pm → allAccounted (PositionManager.updateUnrealizedPnL positionId price pm).
Proof.
  intros Hacc. split; [apply updateUnrealizedPnL_wf, Hacc|].
  unfold PositionManager.updateUnrealizedPnL.
  destruct (PositionManager.lookupPosition positionId pm) as [[a p]|] eqn:E; [|apply Hacc].
  apply lookupPosition_Some in E as [_ Hp].
  case_bool_decide; [apply Hacc|]. case_bool_decide; [|apply Hacc].
  cbn [PositionManager.heap]. eapply allAccounted_update; [done..|].
  destruct Hacc as [_ Hall]. rewrite Forall_lookup in Hall.
  by eapply accounted_same; [by eapply Hall|..].
Qed.

Lemma allAccounted_closePosition now positionId price r pm :
  allAccounted pm → allAccounted (PositionManager.closePosition now positionId price r pm).
Proof.
  intros Hacc. split; [apply closePosition_wf, Hacc|].
  unfold PositionManager.closePosition.
  destruct (PositionManager.lookupPosition positionId pm) as [[a p]|] eqn:E; [|apply Hacc].
  apply lookupPosition_Some in E as [_ Hp].
  case_bool_decide as Hlive; [apply Hacc|].
  cbn [PositionManager.heap]. eapply allAccounted_update; [done..|].
  destruct Hacc as [_ Hall]. rewrite Forall_lookup in Hall.
  destruct (Hall _ _ Hp) as [Hsize Hbooks].
  split; [done|]. cbn [status remainingSizeSOL exitPrice exitReason realizedPnL
                       partialExitPrice]. split; [done|].
  exists price, r. split; [done|]. split; [done|].
  set (p' := Build_PaperPosition _ _ _ _ _ _ _ _ _ _ _ _ _ _ _).
  assert (Hsame : ∀ x, priceChange x p' = priceChange x p) by done.
  clearbody p'.
  destruct (status p); [| |done].
  - destruct Hbooks as (-> & -> & -> & _).
    replace (Qc_of_Z 1) with 1%Qc by (by apply Qc_is_canon).
    cbv beta iota. rewrite !Hsame. ring.
  - destruct Hbooks as (-> & _ & _ & price1 & -> & ->).
    cbv beta iota. rewrite !Hsame.
    generalize (priceChange price1 p), (priceChange price p), (Q2Qc (1 # 2)).
    intros x y h. ring.
Qed.

Lemma allAccounted_openPosition now rnd tokenAddress price entryScore pm :
  allAccounted pm → generatePositionId now rnd ∉ pos_id <$> PositionManager.heap pm →
  allAccounted (PositionManager.openPosition now rnd tokenAddress price entryScore pm).2.
Proof.
  intros Hacc Hfresh. split; [apply openPosition_wf; [apply Hacc | done]|].
  destruct Hacc as [_ Hall].
  unfold PositionManager.openPosition.
  assert (Hnew : ∀ id, accounted
    {| pos_id := id; pos_tokenAddress := tokenAddress; entryTimestamp := now;
       entryPrice := price; entryScore := entryScore;
       positionSizeSOL := CONFIG.entry.positionSizeSOL;
       remainingSizeSOL := CONFIG.entry.positionSizeSOL; status := open;
       partialExitTimestamp := None; partialExitPrice := None; exitTimestamp := None;
       exitPrice := None; exitReason := None; maxUnrealizedPnL := 0;
       realizedPnL := 0 |}) by (intros; by repeat split).
  destruct (PositionManager.tokenToPosition pm !! tokenAddress) as [existingId|];
    [|apply Forall_app; split; [done | by constructor]].
  destruct (PositionManager.lookupPosition existingId pm) as [[a p]|];
    [|apply Forall_app; split; [done | by constructor]].
  destruct (negb _); [done | apply Forall_app; split; [done | by constructor]].
Qed.

(** The exit engine sells half of a position only while it is open. *)
Lemma allAccounted_partial_exit_of_open now position p price pm :
  allAccounted pm → PositionManager.heap pm !! position = Some p → status p = open →
  allAccounted (PositionManager.executePartialExit now (pos_id p) price pm).
Proof.
  intros Hacc Hp Hopen. split; [apply executePartialExit_wf, Hacc|].
  unfold PositionManager.executePartialExit.
  destruct (PositionManager.lookupPosition (pos_id p) pm) as [[a q]|] eqn:E; [|apply Hacc].
  apply lookupPosition_Some in E as [Ha Hq].
  assert (a = position) as ->.
  { destruct Hacc as [[Hbound Hids] _].
    destruct (Hbound _ _ Ha) as (q' & Hq' & Hid & _).
    eapply NoDup_lookup; [exact Hids | |];
      rewrite list_lookup_fmap; [rewrite Hq' | rewrite Hp]; simpl; by f_equal. }
  assert (q = p) as -> by congruence.
  case_bool_decide; [apply Hacc|].
  cbn [PositionManager.heap]. eapply allAccounted_update; [done..|].
  destruct Hacc as [_ Hall]. rewrite Forall_lookup in Hall.
  destruct (Hall _ _ Hp) as [Hsize Hbooks]. rewrite Hopen in Hbooks.
  destruct Hbooks as (Hrem & Hpnl & _ & Hexit & Hreason).
  split; [done|]. cbn [status remainingSizeSOL exitPrice exitReason realizedPnL
                       partialExitPrice].
  rewrite Hrem, Hpnl, Hsize, half_of_nominal.
  split; [by apply Qc_is_canon|]. split; [done|]. split; [done|].
  exists price. split; [done|].
  set (p' := Build_PaperPosition _ _ _ _ _ _ _ _ _ _ _ _ _ _ _).
  assert (Hsame : ∀ x, priceChange x p' = priceChange x p) by done.
  rewrite Hsame. replace (Qc_of_Z 1) with 1%Qc by (by apply Qc_is_canon).
  generalize (priceChange price p), (Q2Qc (1 # 2)). intros x h. ring.
Qed.

Lemma runPositionOps_accounted (ops : list PositionOp) (e : EntryEngine.t) :
  allAccounted (EntryEngine.positionManager e) → freshIds ops e → viaEngines ops →
  allAccounted (EntryEngine.positionManager (runPositionOps ops e)).
Proof.
  revert e. induction ops as [|op ops IH]; intros e Hacc Hfresh Hvia; [done|].
  destruct Hfresh as [Hop Hrest]. apply Forall_cons in Hvia as [Hengine Hvia].
  simpl. apply IH; [|done..]. clear IH Hrest Hvia.
  destruct op; simpl; try done.
  - by apply allAccounted_openPosition.
  - by apply allAccounted_closePosition.
  - by apply allAccounted_updateUnrealizedPnL.
  - destruct (evaluateExit_manager now position price metrics tracker
                (EntryEngine.exitStates e) (EntryEngine.positionManager e))
      as [Hsame | [positionId Hupd]];
      destruct (ExitEngine.evaluateExit _ _ _ _ _ _ _) as [[ev st] pm1];
      simpl in *; subst pm1; [done | by apply allAccounted_updateUnrealizedPnL].
  - assert (Hexec : allAccounted
                      (ExitEngine.executeExit now position price evaluation
                         (EntryEngine.exitStates e) (EntryEngine.positionManager e)).2).
    { unfold ExitEngine.executeExit.
      destruct (PositionManager.heap _ !! position) as [p|] eqn:Hp; [|done].
      destruct (shouldPartialExit evaluation && bool_decide (status p = open)) eqn:Hflag.
      + apply andb_prop in Hflag as [_ Hopen%bool_decide_eq_true].
        pose proof (allAccounted_partial_exit_of_open now position p price _ Hacc Hp Hopen).
        destruct (PositionManager.getPosition _ _); [|done].
        destruct (shouldFullExit evaluation), (reason evaluation); simpl;
          auto using allAccounted_closePosition.
      + destruct (shouldFullExit evaluation), (reason evaluation); simpl;
          auto using allAccounted_closePosition. }
    by destruct (ExitEngine.executeExit _ _ _ _ _ _) as [st pm1].
  - assert (Hcheck : allAccounted
                       (KillSwitch.check now position tracker price latestTx
                          (EntryEngine.killStates e) (EntryEngine.positionManager e)).2).
    { unfold KillSwitch.check, KillSwitch.trigger.
      destruct (PositionManager.heap _ !! position) as [p|]; [|done].
      destruct (EntryEngine.killStates e !! pos_id p) as [state|]; [|done].
      case_bool_decide; [by apply allAccounted_closePosition|].
      destruct latestTx as [latestTx|]; [|done].
      case_bool_decide; [by apply allAccounted_closePosition|].
      destruct (_ && _); [by apply allAccounted_closePosition | done]. }
    by destruct (KillSwitch.check _ _ _ _ _ _ _) as [[killed st] pm1].
Qed.

(** X26. After any sequence of calls on a fresh entry engine that reaches
    [executePartialExit] only through the exit engine, every position object
    has size 1 and books that agree with its status: an open position holds
    its whole size and has realized nothing; a partially exited one holds half
    of it and has realized half of its size at the partial-exit price; a
    closed one holds nothing and has realized the rest at its exit price.  So
    the remaining size lies between 0 and the position size, and is 0 exactly
    for a closed position. *)
Theorem books_agree_with_status (ops : list PositionOp) :
  freshIds ops EntryEngine.new → viaEngines ops →
  let pm := EntryEngine.positionManager (runPositionOps ops EntryEngine.new) in
  Forall (λ p, accounted p
               ∧ (0 ≤ remainingSizeSOL p)%Qc ∧ (remainingSizeSOL p ≤ positionSizeSOL p)%Qc
               ∧ (status p = closed ↔ remainingSizeSOL p = 0%Qc))
    (PositionManager.heap pm).
Proof.
  intros Hfresh Hvia pm.
  assert (Hacc : allAccounted pm).
  { apply runPositionOps_accounted; [|done..]. split; [apply empty_wf | constructor]. }
  destruct Hacc as [_ Hall]. clearbody pm.
  eapply Forall_impl; [exact Hall|]. intros p Hbooks. split; [done|].
  destruct Hbooks as [Hsize Hbooks]. rewrite Hsize.
  destruct (status p).
  - destruct Hbooks as (-> & _). by repeat split.
  - destruct Hbooks as (-> & _). by repeat split.
  - destruct Hbooks as (-> & _). by repeat split.
Qed.

Lemma demoOps_viaEngines : viaEngines demoOps.
Proof. by repeat constructor. Qed.

Lemma books_agree_with_status_witness :
  freshIds demoOps EntryEngine.new ∧ viaEngines demoOps
  ∧ (let pm := EntryEngine.positionManager (runPositionOps demoOps EntryEngine.new) in
     Forall (λ p, accounted p
                  ∧ (0 ≤ remainingSizeSOL p)%Qc
                  ∧ (remainingSizeSOL p ≤ positionSizeSOL p)%Qc
                  ∧ (status p = closed ↔ remainingSizeSOL p = 0%Qc))
       (PositionManager.heap pm)).
Proof.
  split; [exact demoOps_fresh|]. split; [exact demoOps_viaEngines|].
  exact (books_agree_with_status demoOps demoOps_fresh demoOps_viaEngines).
Defined.

(** ** The performance metrics *)

Lemma sumPnL_snoc trades t :
  sumPnL (trades ++ [t]) = (sumPnL trades + tl_realizedPnL t)%Qc.
Proof. unfold sumPnL. by rewrite foldl_snoc. Qed.

Lemma Qc_100 : Qc_of_Z 100 = Q2Qc 100.
Proof. by apply Qc_is_canon. Qed.

Lemma drawdown_nonneg (peak current : Qc) :
  (0 < peak)%Qc → (current ≤ peak)%Qc →
  (0 ≤ (peak - current) / peak * Qc_of_Z 100)%Qc.
Proof.
  intros Hpeak Hle. to_Q.
  apply Qmult_le_0_compat; [|done].
  apply Qmult_le_0_compat; [lra|].
  apply Qinv_le_0_compat. lra.
Qed.

Lemma new_balanced : balanced MetricsCalculator.new.
Proof.
  repeat split; done.
Qed.

Lemma addTrade_balanced position m :
  balanced m → balanced (MetricsCalculator.addTrade position m).
Proof.
  intros (Hsum & Hpeak & Hpos & Hdd & Hzero & _ & _).
  unfold balanced, MetricsCalculator.addTrade, MetricsCalculator.updateDrawdown.
  cbn [MetricsCalculator.trades MetricsCalculator.currentBalance
       MetricsCalculator.peakBalance MetricsCalculator.maxDrawdown tl_realizedPnL].
  set (current := (MetricsCalculator.currentBalance m + realizedPnL position)%Qc).
  set (peak := if bool_decide (MetricsCalculator.peakBalance m < current)%Qc
               then current else MetricsCalculator.peakBalance m).
  assert (Hcp : (current ≤ peak)%Qc).
  { unfold peak. case_bool_decide as Hlt; [apply Qcle_refl | by apply Qcnot_lt_le]. }
  assert (Hp0 : (0 ≤ peak)%Qc).
  { unfold peak. case_bool_decide as Hlt; [|done].
    eapply Qcle_trans; [exact Hpos | by apply Qclt_le_weak]. }
  assert (Hdd' : (0 ≤ if bool_decide (0 < peak)%Qc then
                        if bool_decide (MetricsCalculator.maxDrawdown m
                                        < (peak - current) / peak * Qc_of_Z 100)%Qc
                        then ((peak - current) / peak * Qc_of_Z 100)%Qc
                        else MetricsCalculator.maxDrawdown m
                      else MetricsCalculator.maxDrawdown m)%Qc).
  { case_bool_decide; [|done]. case_bool_decide; [by apply drawdown_nonneg | done]. }
  split; [unfold current; by rewrite sumPnL_snoc, Hsum|].
  split; [done|]. split; [done|]. split; [done|]. clear Hdd'. split; [|split].
  - intros Hpeak0. rewrite Hpeak0.
    rewrite bool_decide_eq_false_2 by (intros H; by apply Qclt_not_eq in H).
    apply Hzero. unfold peak in Hpeak0. case_bool_decide as Hlt; [|done].
    rewrite Hpeak0 in Hlt. by apply Qcle_not_lt in Hpos.
  - intros Hp. rewrite bool_decide_eq_true_2 by done.
    case_bool_decide as Hlt; [apply Qcle_refl | by apply Qcnot_lt_le].
  - intros Hnil. by apply app_nil in Hnil as [_ ?].
Qed.

Lemma runMetricsOps_balanced ops m : balanced m → balanced (runMetricsOps ops m).
Proof.
  revert m. induction ops as [|op ops IH]; intros m Hm; [done|].
  simpl. apply IH. destruct op; simpl; [by apply addTrade_balanced | done | done |].
  apply new_balanced.
Qed.

(** X27. On a metrics calculator reached from a new one by any calls of
    [addTrade], [recordMissedRunner], [setMissedRunners] and [clear], the
    current balance is the sum of the realized PnL of the recorded trades and
    is what [calculate] reports as total PnL; the peak balance is at least the
    current balance and at least 0; the maximum drawdown is at least 0, is 0
    as long as the balance has never been positive, and is what [calculate]
    reports; a further trade never lowers the maximum drawdown or the peak
    balance, and a trade without a loss leaves the maximum drawdown as it
    is. *)
Theorem drawdown_books (ops : list MetricsOp) :
  let m := runMetricsOps ops MetricsCalculator.new in
  MetricsCalculator.currentBalance m = sumPnL (MetricsCalculator.trades m)
  ∧ (MetricsCalculator.currentBalance m ≤ MetricsCalculator.peakBalance m)%Qc
  ∧ (0 ≤ MetricsCalculator.peakBalance m)%Qc
  ∧ (0 ≤ MetricsCalculator.maxDrawdown m)%Qc
  ∧ (MetricsCalculator.peakBalance m = 0%Qc → MetricsCalculator.maxDrawdown m = 0%Qc)
  ∧ totalPnL (MetricsCalculator.calculate m) = MetricsCalculator.currentBalance m
  ∧ perf_maxDrawdown (MetricsCalculator.calculate m) = MetricsCalculator.maxDrawdown m
  ∧ (∀ position,
       (MetricsCalculator.maxDrawdown m
        ≤ MetricsCalculator.maxDrawdown (MetricsCalculator.addTrade position m))%Qc
       ∧ (MetricsCalculator.peakBalance m
          ≤ MetricsCalculator.peakBalance (MetricsCalculator.addTrade position m))%Qc
       ∧ ((0 ≤ realizedPnL position)%Qc →
          MetricsCalculator.maxDrawdown (MetricsCalculator.addTrade position m)
          = MetricsCalculator.maxDrawdown m)).
Proof.
  intros m.
  assert (Hm : balanced m) by apply runMetricsOps_balanced, new_balanced.
  clearbody m. destruct Hm as (Hsum & Hpeak & Hpos & Hdd & Hzero & Hcur & Hnil).
  repeat (split; [done|]).
  split; [|split; [|intros position; split; [|split]]].
  - unfold MetricsCalculator.calculate. case_bool_decide as Hlen; [|done].
    cbn [totalPnL]. rewrite Hsum.
    destruct (MetricsCalculator.trades m); [done | discriminate Hlen].
  - unfold MetricsCalculator.calculate. case_bool_decide as Hlen; [|done].
    cbn [perf_maxDrawdown]. symmetry. apply Hnil.
    by destruct (MetricsCalculator.trades m).
  - unfold MetricsCalculator.addTrade, MetricsCalculator.updateDrawdown.
    cbn [MetricsCalculator.maxDrawdown MetricsCalculator.peakBalance
         MetricsCalculator.currentBalance].
    repeat case_bool_decide; try apply Qcle_refl; by apply Qclt_le_weak.
  - unfold MetricsCalculator.addTrade, MetricsCalculator.updateDrawdown.
    cbn [MetricsCalculator.maxDrawdown MetricsCalculator.peakBalance
         MetricsCalculator.currentBalance].
    case_bool_decide; [by apply Qclt_le_weak | apply Qcle_refl].
  - intros Hwin.
    unfold MetricsCalculator.addTrade, MetricsCalculator.updateDrawdown.
    cbn [MetricsCalculator.maxDrawdown MetricsCalculator.peakBalance
         MetricsCalculator.currentBalance tl_realizedPnL].
    set (current := (MetricsCalculator.currentBalance m + realizedPnL position)%Qc).
    set (peak := if bool_decide (MetricsCalculator.peakBalance m < current)%Qc
                 then current else MetricsCalculator.peakBalance m).
    destruct (decide (0 < peak)%Qc) as [Hp|Hp];
      [rewrite (bool_decide_eq_true_2 _ Hp) | by rewrite (bool_decide_eq_false_2 _ Hp)].
    rewrite bool_decide_eq_false_2; [done|]. intros Hlt.
    apply Qclt_not_le in Hlt. apply Hlt. clear Hlt.
    unfold peak in *. case_bool_decide as Hnew.
    + replace ((current - current) / current * Qc_of_Z 100)%Qc with 0%Qc; [done|].
      unfold Qcdiv. ring.
    + eapply Qcle_trans; [|by apply Hcur].
      apply Qcmult_le_compat_r; [|done].
      unfold Qcdiv. apply Qcmult_le_compat_r.
      * unfold current. clear -Hwin. to_Q. lra.
      * clear -Hp. to_Q. apply Qinv_le_0_compat. lra.
Qed.

Lemma ratio_bounds (k n : Z) :
  0 ≤ k ≤ n → 0 < n →
  (0 ≤ Qc_of_Z k / Qc_of_Z n * Qc_of_Z 100)%Qc
  ∧ (Qc_of_Z k / Qc_of_Z n * Qc_of_Z 100 ≤ Qc_of_Z 100)%Qc.
Proof.
  intros [Hk Hkn] Hn.
  assert (Hn' : (0 < Qc_of_Z n)%Qc) by exact (proj1 (Z2Qc_inj_lt 0 n) Hn).
  assert (Hlow : (0 ≤ Qc_of_Z k / Qc_of_Z n)%Qc).
  { apply Qcmult_nonneg_nonneg; [exact (proj1 (Z2Qc_inj_le 0 k) Hk)|].
    by apply Qclt_le_weak, Qcinv_pos. }
  assert (Hhigh : (Qc_of_Z k / Qc_of_Z n ≤ 1)%Qc).
  { apply (Qcmult_lt_0_le_reg_r _ _ (Qc_of_Z n)); [done|].
    rewrite test_field by (intros Heq; rewrite Heq in Hn'; by apply Qclt_not_eq in Hn').
    rewrite Qcmult_1_l. exact (proj1 (Z2Qc_inj_le k n) Hkn). }
  split; [by apply Qcmult_nonneg_nonneg|].
  etrans; [apply Qcmult_le_compat_r; [exact Hhigh | done]|].
  rewrite Qcmult_1_l. apply Qcle_refl.
Qed.

Lemma length_filter_le {A} (P : A → Prop) `{!∀ x, Decision (P x)} (l : list A) :
  (length (filter P l) ≤ length l)%nat.
Proof.
  induction l as [|x l IH]; [done|].
  rewrite filter_cons. destruct (decide (P x)); simpl; lia.
Qed.

Lemma wins_and_losses (trades : list TradeLog) :
  (length (filter (λ t, 0 < tl_realizedPnL t)%Qc trades)
   + length (filter (λ t, tl_realizedPnL t ≤ 0)%Qc trades))%nat
  = length trades.
Proof.
  induction trades as [|t trades IH]; [done|].
  rewrite !filter_cons.
  destruct (decide (0 < tl_realizedPnL t)%Qc) as [Hwin|Hloss],
    (decide (tl_realizedPnL t ≤ 0)%Qc) as [Hle|Hgt]; simpl.
  - by apply Qcle_not_lt in Hle.
  - lia.
  - lia.
  - by apply Qcnot_lt_le in Hloss.
Qed.

Lemma calculate_products (m : MetricsCalculator.t) :
  let r := MetricsCalculator.calculate m in
  totalTrades r = Z.of_nat (length (MetricsCalculator.trades m))
  ∧ 0 ≤ wins r ≤ totalTrades r
  ∧ (winRate r * Qc_of_Z (totalTrades r) = Qc_of_Z (wins r) * Qc_of_Z 100)%Qc
  ∧ (avgRMultiple r * Qc_of_Z (totalTrades r) = totalPnL r)%Qc.
Proof.
  intros r. unfold r, MetricsCalculator.calculate.
  set (trades := MetricsCalculator.trades m).
  pose proof (length_filter_le (λ t, 0 < tl_realizedPnL t)%Qc trades) as Hwins.
  case_bool_decide as Hlen.
  - cbn [totalTrades wins winRate avgRMultiple totalPnL].
    destruct trades; [|discriminate Hlen]. by repeat split.
  - cbn [totalTrades wins winRate avgRMultiple totalPnL].
    set (n := Z.of_nat (length trades)) in *.
    assert (Hn : 0 < n) by lia.
    assert (Hn' : Qc_of_Z n ≠ 0%Qc).
    { intros Heq. assert (Hpos : (0 < Qc_of_Z n)%Qc) by exact (proj1 (Z2Qc_inj_lt 0 n) Hn).
      rewrite Heq in Hpos. by apply Qclt_not_eq in Hpos. }
    split; [done|]. split; [lia|]. split; [|by apply test_field].
    rewrite <- Qcmult_assoc, (Qcmult_comm (Qc_of_Z 100)), Qcmult_assoc.
    by rewrite test_field.
Qed.

(** X28. In the result of [calculate], wins and losses add up to the
    number of trades, a trade with a realized PnL of exactly 0 counts as a
    loss, the kill-switch exits are at most the number of trades, the win rate
    and the kill-switch percentage lie between 0 and 100, the total PnL is
    the sum of the realized PnL of the trades in their order, and the missed
    runners are those of the calculator. *)
Theorem calculate_counts_and_rates (m : MetricsCalculator.t) :
  let r := MetricsCalculator.calculate m in
  totalTrades r = Z.of_nat (length (MetricsCalculator.trades m))
  ∧ wins r + losses r = totalTrades r
  ∧ losses r
    = Z.of_nat (length (filter (λ t, tl_realizedPnL t ≤ 0)%Qc (MetricsCalculator.trades m)))
  ∧ 0 ≤ wins r ≤ totalTrades r
  ∧ 0 ≤ killSwitchExits r ≤ totalTrades r
  ∧ (0 ≤ winRate r)%Qc ∧ (winRate r ≤ Qc_of_Z 100)%Qc
  ∧ (0 ≤ killSwitchPercentage r)%Qc ∧ (killSwitchPercentage r ≤ Qc_of_Z 100)%Qc
  ∧ totalPnL r = sumPnL (MetricsCalculator.trades m)
  ∧ perf_missedRunners r = MetricsCalculator.missedRunners m.
Proof.
  intros r. unfold r, MetricsCalculator.calculate.
  set (trades := MetricsCalculator.trades m).
  pose proof (length_filter_le (λ t, 0 < tl_realizedPnL t)%Qc trades) as Hwins.
  pose proof (length_filter_le (λ t, MetricsCalculator.isKillSwitchExit t = true) trades)
    as Hkills.
  pose proof (wins_and_losses trades) as Hsplit.
  case_bool_decide as Hlen;
    cbn [totalTrades wins losses winRate avgRMultiple killSwitchExits killSwitchPercentage
         totalPnL perf_missedRunners].
  - destruct trades; [|discriminate Hlen]. by repeat split.
  - set (n := Z.of_nat (length trades)) in *.
    split; [done|]. split; [lia|]. split; [lia|]. split; [lia|]. split; [lia|].
    split; [apply ratio_bounds; lia|]. split; [apply ratio_bounds; lia|].
    split; [apply ratio_bounds; lia|]. split; [apply ratio_bounds; lia|].
    by split.
Qed.

Lemma Qcmult_le_mono (a b c d : Qc) :
  (0 ≤ a)%Qc → (0 ≤ d)%Qc → (a ≤ c)%Qc → (b ≤ d)%Qc → (a * b ≤ c * d)%Qc.
Proof.
  intros Ha Hd Hac Hbd. transitivity (a * d)%Qc.
  - rewrite (Qcmult_comm a b), (Qcmult_comm a d). by apply Qcmult_le_compat_r.
  - by apply Qcmult_le_compat_r.
Qed.

Section validity_properties.
Context {rt : JSRuntime}.

(** X29. [isValid] answers valid exactly when there are at least 100
    trades, the win rate is at least 35, the average R multiple is at least
    2.5 and the maximum drawdown is below 20, and exactly when it gives no
    reason; with fewer than 100 trades it gives one reason, and never more
    than three; a valid calculator has at least 35 wins and a total PnL of at
    least 250. *)
Theorem isValid_iff_criteria (m : MetricsCalculator.t) :
  let r := MetricsCalculator.calculate m in
  let v := MetricsCalculator.isValid m in
  (v.1 = true
   ↔ 100 ≤ totalTrades r ∧ (Qc_of_Z 35 ≤ winRate r)%Qc ∧ (Q2Qc (5 # 2) ≤ avgRMultiple r)%Qc
     ∧ (perf_maxDrawdown r < Qc_of_Z 20)%Qc)
  ∧ (v.1 = true ↔ v.2 = [])
  ∧ (totalTrades r < 100 → length v.2 = 1%nat)
  ∧ (length v.2 ≤ 3)%nat
  ∧ (v.1 = true → 35 ≤ wins r ∧ (Qc_of_Z 250 ≤ totalPnL r)%Qc).
Proof.
  intros r v.
  assert (Hcriteria :
    v.1 = true
    ↔ 100 ≤ totalTrades r ∧ (Qc_of_Z 35 ≤ winRate r)%Qc
      ∧ (Q2Qc (5 # 2) ≤ avgRMultiple r)%Qc ∧ (perf_maxDrawdown r < Qc_of_Z 20)%Qc).
  { unfold v, MetricsCalculator.isValid. fold r.
    destruct (decide (totalTrades r < 100)) as [Hfew|Hmany].
    { rewrite bool_decide_eq_true_2 by done. split; [done | lia]. }
    rewrite bool_decide_eq_false_2 by done. unfold push_if.
    destruct (decide (winRate r < Qc_of_Z 35)%Qc) as [Hw|Hw];
      [rewrite (bool_decide_eq_true_2 _ Hw) | rewrite (bool_decide_eq_false_2 _ Hw)];
    (destruct (decide (avgRMultiple r < Q2Qc (5 # 2))%Qc) as [Ha|Ha];
      [rewrite (bool_decide_eq_true_2 _ Ha) | rewrite (bool_decide_eq_false_2 _ Ha)]);
    (destruct (decide (Qc_of_Z 20 ≤ perf_maxDrawdown r)%Qc) as [Hd|Hd];
      [rewrite (bool_decide_eq_true_2 _ Hd) | rewrite (bool_decide_eq_false_2 _ Hd)]);
    cbn [fst app length]; (split; [intros Hv; try discriminate Hv | intros (_ & Hw' & Ha' & Hd')]);
    try (by apply Qcle_not_lt in Hw'); try (by apply Qcle_not_lt in Ha');
    try (by apply Qclt_not_le in Hd'); try done.
    split; [lia|]. split; [by apply Qcnot_lt_le|]. split; [by apply Qcnot_lt_le|].
    by apply Qcnot_le_lt. }
  split; [exact Hcriteria|].
  split; [|split; [|split]].
  - unfold v, MetricsCalculator.isValid. case_bool_decide; [done|]. cbn [fst snd].
    rewrite bool_decide_eq_true. apply length_zero_iff_nil.
  - intros Hfew. unfold v, MetricsCalculator.isValid. fold r.
    by rewrite bool_decide_eq_true_2.
  - unfold v, MetricsCalculator.isValid, push_if. case_bool_decide; [simpl; lia|].
    repeat case_bool_decide; simpl; lia.
  - intros Hv. apply Hcriteria in Hv as (Hn & Hw & Ha & _).
    pose proof (calculate_products m) as Hc. cbv zeta in Hc. fold r in Hc.
    destruct Hc as (_ & [Hw0 Hwn] & Hrate & Havg).
    assert (Hn' : (Qc_of_Z 100 ≤ Qc_of_Z (totalTrades r))%Qc)
      by exact (proj1 (Z2Qc_inj_le 100 _) Hn).
    assert (H0 : (0 ≤ Qc_of_Z (totalTrades r))%Qc) by (etrans; [|exact Hn']; done).
    split.
    + assert (H35 : (Qc_of_Z 35 * Qc_of_Z 100 ≤ Qc_of_Z (wins r) * Qc_of_Z 100)%Qc).
      { rewrite <- Hrate. by apply Qcmult_le_mono. }
      apply Qcmult_lt_0_le_reg_r in H35; [|done]. exact (proj2 (Z2Qc_inj_le 35 _) H35).
    + rewrite <- Havg.
      replace (Qc_of_Z 250) with (Q2Qc (5 # 2) * Qc_of_Z 100)%Qc by (by apply Qc_is_canon).
      by apply Qcmult_le_mono.
Qed.

End validity_properties.

Lemma breakdownTotal_insert (b : gmap (option ExitReason) Z) k v :
  b !! k = None → breakdownTotal (<[k := v]> b) = v + breakdownTotal b.
Proof.
  intros Hk. unfold breakdownTotal.
  apply (map_fold_insert_L (λ _ v acc, v + acc)); [|done].
  intros. lia.
Qed.

Lemma breakdownTotal_update (b : gmap (option ExitReason) Z) k v :
  breakdownTotal (<[k := v]> b) = breakdownTotal b + (v - default 0 (b !! k)).
Proof.
  destruct (b !! k) as [v0|] eqn:Hk.
  - rewrite <- (insert_delete_eq b k v), breakdownTotal_insert by apply lookup_delete_eq.
    rewrite <- (insert_delete_id b k v0) at 2 by done.
    rewrite breakdownTotal_insert by apply lookup_delete_eq. simpl. lia.
  - rewrite breakdownTotal_insert by done. simpl. lia.
Qed.

Lemma tradesWithReason_snoc k trades t :
  tradesWithReason k (trades ++ [t])
  = tradesWithReason k trades + (if decide (tl_exitReason t = k) then 1 else 0).
Proof.
  unfold tradesWithReason. rewrite filter_app, length_app, filter_cons, filter_nil.
  destruct (decide (tl_exitReason t = k)); simpl; lia.
Qed.

Lemma breakdown_lookup (m : MetricsCalculator.t) (k : option ExitReason) :
  MetricsCalculator.getExitReasonBreakdown m !! k
  = if decide (tradesWithReason k (MetricsCalculator.trades m) = 0) then None
    else Some (tradesWithReason k (MetricsCalculator.trades m)).
Proof.
  unfold MetricsCalculator.getExitReasonBreakdown.
  induction (MetricsCalculator.trades m) as [|t trades IH] using rev_ind; [done|].
  rewrite foldl_snoc, tradesWithReason_snoc. cbv zeta.
  assert (Hc : 0 ≤ tradesWithReason k trades) by (unfold tradesWithReason; lia).
  destruct (decide (tl_exitReason t = k)) as [-> | Hne].
  - rewrite lookup_insert_eq, IH.
    destruct (decide (tradesWithReason k trades = 0)) as [-> | Hpos]; simpl.
    + by destruct (decide (0 + 1 = 0)).
    + destruct (decide (tradesWithReason k trades + 1 = 0)); [lia | done].
  - rewrite lookup_insert_ne, IH by done. by rewrite Z.add_0_r.
Qed.

Lemma breakdown_total (m : MetricsCalculator.t) :
  breakdownTotal (MetricsCalculator.getExitReasonBreakdown m)
  = Z.of_nat (length (MetricsCalculator.trades m)).
Proof.
  unfold MetricsCalculator.getExitReasonBreakdown.
  induction (MetricsCalculator.trades m) as [|t trades IH] using rev_ind; [done|].
  rewrite foldl_snoc. cbv zeta. rewrite breakdownTotal_update, IH, length_app. simpl. lia.
Qed.

Lemma killSwitch_count (trades : list TradeLog) :
  Z.of_nat (length (filter (λ t, MetricsCalculator.isKillSwitchExit t = true) trades))
  = tradesWithReason (Some kill_switch_no_tx) trades
    + tradesWithReason (Some kill_switch_whale) trades
    + tradesWithReason (Some kill_switch_dev) trades.
Proof.
  unfold tradesWithReason.
  induction trades as [|t trades IH]; [done|].
  rewrite !filter_cons.
  destruct (decide (MetricsCalculator.isKillSwitchExit t = true)) as [Hk|Hk];
    unfold MetricsCalculator.isKillSwitchExit in Hk;
    destruct (tl_exitReason t) as [[]|]; try done;
    repeat (match goal with
            | |- context [decide (?a = ?b)] =>
                destruct (decide (a = b)); try discriminate; try done
            end); simpl in *; try lia.
Qed.

Lemma tradesWithReason_zero k (trades : list TradeLog) :
  tradesWithReason k trades = 0 ↔ Forall (λ t, tl_exitReason t ≠ k) trades.
Proof.
  unfold tradesWithReason. induction trades as [|t trades IH]; [done|].
  rewrite filter_cons, Forall_cons.
  destruct (decide (tl_exitReason t = k)) as [Heq|Hne]; simpl.
  - split; [lia | by intros [? _]].
  - rewrite IH. split; [intros Hall; by split | by intros [_ ?]].
Qed.

(** X30. [getExitReasonBreakdown] maps every exit reason (and
    ['unknown'] for a trade without one) to the number of recorded trades with
    it; a reason is absent exactly when no trade has it, so every count is at
    least 1; the counts add up to the number of trades that [calculate]
    reports, and the counts of the three kill-switch reasons add up to its
    kill-switch exits. *)
Theorem exit_reason_breakdown_counts (m : MetricsCalculator.t) :
  let b := MetricsCalculator.getExitReasonBreakdown m in
  (∀ k, default 0 (b !! k) = tradesWithReason k (MetricsCalculator.trades m))
  ∧ (∀ k, b !! k = None
          ↔ Forall (λ t, tl_exitReason t ≠ k) (MetricsCalculator.trades m))
  ∧ map_Forall (λ _ count, 1 ≤ count) b
  ∧ breakdownTotal b = totalTrades (MetricsCalculator.calculate m)
  ∧ killSwitchExits (MetricsCalculator.calculate m)
    = default 0 (b !! Some kill_switch_no_tx) + default 0 (b !! Some kill_switch_whale)
      + default 0 (b !! Some kill_switch_dev).
Proof.
  intros b.
  assert (Hcount : ∀ k, default 0 (b !! k)
                        = tradesWithReason k (MetricsCalculator.trades m)).
  { intros k. unfold b. rewrite breakdown_lookup.
    by destruct (decide (tradesWithReason k (MetricsCalculator.trades m) = 0)) as [-> |]. }
  split; [exact Hcount|]. split; [|split; [|split]].
  - intros k. unfold b. rewrite breakdown_lookup.
    pose proof (tradesWithReason_zero k (MetricsCalculator.trades m)) as Hzero.
    destruct (decide (tradesWithReason k (MetricsCalculator.trades m) = 0)) as [Hz|Hnz].
    + split; [intros _; by apply Hzero | done].
    + split; [done | intros Hall; by apply Hzero in Hall].
  - intros k count Hk. unfold b in Hk. rewrite breakdown_lookup in Hk.
    destruct (decide (tradesWithReason k (MetricsCalculator.trades m) = 0)); [done|].
    injection Hk as <-. unfold tradesWithReason in *. lia.
  - unfold b. rewrite breakdown_total.
    pose proof (calculate_products m) as Hc. cbv zeta in Hc.
    by destruct Hc as (-> & _).
  - rewrite !Hcount, <- killSwitch_count.
    unfold MetricsCalculator.calculate. case_bool_decide as Hlen; [|done].
    by destruct (MetricsCalculator.trades m).
Qed.

(** ** C2: a large buy through the pipeline *)

Section large_buy_pipeline.
Context {rt : JSRuntime}.

Lemma addTransaction_small (now : Z) (tx : Transaction) (tr : TokenTracker.t) :
  recordsOnlySmallBuys tr → (tx_solAmount tx ≤ CONFIG.filters.maxLargestBuy)%Qc →
  recordsOnlySmallBuys (TokenTracker.addTransaction now tx tr).
Proof.
  intros Hsmall Htx. unfold recordsOnlySmallBuys, TokenTracker.addTransaction in *.
  destruct (TokenTracker.dropped tr); [done|].
  destruct (if negb _ then _ else _) as [devWallet' devBuyCount'].
  cbn [TokenTracker.buffer MultiWindowBuffer.add MultiWindowBuffer.evictOld
       MultiWindowBuffer.transactions].
  apply Forall_forall. intros x [_ Hx]%list_elem_of_filter.
  apply elem_of_app in Hx as [Hx | Hx%list_elem_of_singleton].
  - by eapply (proj1 (Forall_forall _ _) Hsmall).
  - by subst x.
Qed.

Lemma new_small (now : Z) (tokenAddress : string) (tx : Transaction) :
  (tx_solAmount tx ≤ CONFIG.filters.maxLargestBuy)%Qc →
  recordsOnlySmallBuys (TokenTracker.new now tokenAddress tx).
Proof. intros Htx. apply addTransaction_small; [constructor | done]. Qed.

Lemma drop_small (r : string) (tr : TokenTracker.t) :
  recordsOnlySmallBuys tr → recordsOnlySmallBuys (TokenTracker.drop r tr).
Proof. unfold recordsOnlySmallBuys, TokenTracker.drop. by destruct (negb _). Qed.

Lemma registry_processTransaction_small (now : Z) (tx : Transaction)
    (reg : gmap string TokenTracker.t) :
  map_Forall (λ _ tr, recordsOnlySmallBuys tr) reg →
  (tx_solAmount tx ≤ CONFIG.filters.maxLargestBuy)%Qc →
  map_Forall (λ _ tr, recordsOnlySmallBuys tr) (TokenRegistry.processTransaction now tx reg).1
  ∧ recordsOnlySmallBuys (TokenRegistry.processTransaction now tx reg).2.
Proof.
  intros Hreg Htx. unfold TokenRegistry.processTransaction.
  destruct (reg !! tx_tokenAddress tx) as [tracker|] eqn:Hlookup; simpl.
  - assert (recordsOnlySmallBuys (TokenTracker.addTransaction now tx tracker))
      by (apply addTransaction_small; [by eapply Hreg | done]).
    split; [by apply map_Forall_insert_2 | done].
  - assert (recordsOnlySmallBuys (TokenTracker.new now (tx_tokenAddress tx) tx))
      by (by apply new_small).
    split; [by apply map_Forall_insert_2 | done].
Qed.

Lemma evaluateForEntry_small (now : Z) (rnd key : string) (tracker : TokenTracker.t)
    (s : SignalEngine.t) :
  map_Forall (λ _ tr, recordsOnlySmallBuys tr) (SignalEngine.tokenRegistry s) →
  recordsOnlySmallBuys tracker →
  map_Forall (λ _ tr, recordsOnlySmallBuys tr)
    (SignalEngine.tokenRegistry (SignalEngine.evaluateForEntry now rnd key tracker s)).
Proof.
  intros Hreg Htracker. unfold SignalEngine.evaluateForEntry.
  destruct (negb _); simpl.
  - apply map_Forall_insert_2; [by apply drop_small | done].
  - by destruct (EntryEngine.tryEntry _ _ _ _ _ _ _).
Qed.

Lemma monitorPosition_registry (now : Z) (position : nat) (tracker : TokenTracker.t)
    (tx : Transaction) (s : SignalEngine.t) :
  SignalEngine.tokenRegistry (SignalEngine.monitorPosition now position tracker tx s)
  = SignalEngine.tokenRegistry s.
Proof.
  unfold SignalEngine.monitorPosition.
  destruct (KillSwitch.check _ _ _ _ _ _ _) as [[killed killStates] pm].
  destruct killed; [done|].
  destruct (ExitEngine.evaluateExit _ _ _ _ _ _ _) as [[exitEval exitStates] pm1].
  destruct (shouldPartialExit exitEval || shouldFullExit exitEval); [|done].
  by destruct (ExitEngine.executeExit _ _ _ _ _ _).
Qed.

Lemma checkStalePosition_registry (now : Z) (position : nat) (s : SignalEngine.t) :
  SignalEngine.tokenRegistry (SignalEngine.checkStalePosition now position s)
  = SignalEngine.tokenRegistry s.
Proof.
  unfold SignalEngine.checkStalePosition.
  destruct (PositionManager.heap _ !! position) as [p|]; [|done].
  destruct (TokenRegistry.getTracker _ _) as [tracker|]; [|done].
  destruct (KillSwitch.check _ _ _ _ _ _ _) as [[killed killStates] pm].
  destruct killed; [done|].
  destruct (ExitEngine.evaluateExit _ _ _ _ _ _ _) as [[exitEval exitStates] pm1].
  destruct (shouldFullExit exitEval); [|done].
  destruct (reason exitEval); [|done].
  by destruct (ExitEngine.executeExit _ _ _ _ _ _).
Qed.

Lemma checkStalePositions_registry (now : Z) (s : SignalEngine.t) :
  SignalEngine.tokenRegistry (SignalEngine.checkStalePositions now s)
  = SignalEngine.tokenRegistry s.
Proof.
  unfold SignalEngine.checkStalePositions.
  generalize (PositionManager.getOpenPositions (SignalEngine.positionManager s)).
  intros positions. revert s.
  induction positions as [|position positions IH]; intros s; [done|].
  simpl. by rewrite IH, checkStalePosition_registry.
Qed.

Lemma processTransaction_small (now : Z) (rnd : string) (tx : Transaction)
    (s : SignalEngine.t) :
  map_Forall (λ _ tr, recordsOnlySmallBuys tr) (SignalEngine.tokenRegistry s) →
  map_Forall (λ _ tr, recordsOnlySmallBuys tr)
    (SignalEngine.tokenRegistry (SignalEngine.processTransaction now rnd tx s)).
Proof.
  intros Hreg. unfold SignalEngine.processTransaction, quickFilterTransaction.
  case_bool_decide as Hlarge; [done|]. apply Qcnot_lt_le in Hlarge.
  cbn [fst negb SignalEngine.tokenRegistry SignalEngine.entryEngine
       SignalEngine.processedTxCount].
  destruct (registry_processTransaction_small now tx _ Hreg Hlarge) as [Hreg' Htracker].
  destruct (TokenRegistry.processTransaction now tx (SignalEngine.tokenRegistry s))
    as [registry tracker].
  simpl in Hreg', Htracker.
  destruct (TokenTracker.dropped tracker); [done|].
  destruct (PositionManager.getPositionByToken _ _) as [position|];
    [destruct (negb _)|];
    first [by rewrite monitorPosition_registry | by apply evaluateForEntry_small].
Qed.

Lemma recalculateScores_small (now : Z) (rnd : string → string) (s : SignalEngine.t) :
  map_Forall (λ _ tr, recordsOnlySmallBuys tr) (SignalEngine.tokenRegistry s) →
  map_Forall (λ _ tr, recordsOnlySmallBuys tr)
    (SignalEngine.tokenRegistry (SignalEngine.recalculateScores now rnd s)).
Proof.
  intros Hreg. unfold SignalEngine.recalculateScores.
  rewrite checkStalePositions_registry.
  generalize (TokenRegistry.getActiveTrackers now (SignalEngine.tokenRegistry s)).
  intros refs. revert s Hreg.
  induction refs as [|ref refs IH]; intros s Hreg; [done|].
  simpl. apply IH.
  destruct (SignalEngine.tokenRegistry s !! ref) as [tracker|] eqn:Hlookup; [|done].
  destruct (TokenTracker.dropped tracker); [done|].
  destruct (PositionManager.hasOpenPosition _ _); [done|].
  apply evaluateForEntry_small; [done | by eapply Hreg].
Qed.

Lemma cleanup_small (now : Z) (reg : gmap string TokenTracker.t) :
  map_Forall (λ _ tr, recordsOnlySmallBuys tr) reg →
  map_Forall (λ _ tr, recordsOnlySmallBuys tr) (TokenRegistry.cleanup now reg).
Proof.
  intros Hreg key tr. unfold TokenRegistry.cleanup.
  rewrite map_lookup_filter_Some, lookup_fmap, fmap_Some.
  intros [(tr0 & Hlookup & ->) _].
  pose proof (Hreg _ _ Hlookup) as Hsmall. simpl in Hsmall.
  destruct (TokenTracker.isExpired now tr0); [done|].
  destruct (negb _ && _); [by apply drop_small | done].
Qed.

Lemma runPipeline_small (events : list PipelineEvent) (s : SignalEngine.t) :
  map_Forall (λ _ tr, recordsOnlySmallBuys tr) (SignalEngine.tokenRegistry s) →
  map_Forall (λ _ tr, recordsOnlySmallBuys tr)
    (SignalEngine.tokenRegistry (runPipeline events s)).
Proof.
  revert s. induction events as [|ev events IH]; intros s Hreg; [done|].
  simpl. apply IH. destruct ev; simpl.
  - by apply processTransaction_small.
  - by apply recalculateScores_small.
  - by apply cleanup_small.
Qed.

Lemma largestBuy_small (now : Z) (tr : TokenTracker.t) :
  recordsOnlySmallBuys tr →
  (largestBuy (TokenTracker.calculateMetrics now tr) ≤ CONFIG.filters.maxLargestBuy)%Qc.
Proof.
  intros Hsmall. rewrite largestBuy_calculateMetrics.
  unfold MultiWindowBuffer.getBuySizeStats.
  destruct (tx_solAmount <$> MultiWindowBuffer.getWindow now CONFIG.windows.long
                               (TokenTracker.buffer tr)) as [|a0 rest] eqn:Hamounts;
    [done|].
  cbn [snd]. pose proof (foldl_Math_max_elem rest a0) as Hmax.
  rewrite <- Hamounts in Hmax.
  apply list_elem_of_fmap in Hmax as (tx & -> & Htx).
  unfold MultiWindowBuffer.getWindow in Htx. apply list_elem_of_filter in Htx as [_ Htx].
  by apply (proj1 (Forall_forall _ _) Hsmall).
Qed.

(** Whatever the stream of transactions, ticks and sweeps, the engine never
    records a buy above the largest-buy ceiling of 2 SOL: the largest-buy
    metric of every tracked token stays at or below the ceiling, so the
    largest-buy condition of the filter stage never fails. *)
Lemma pipeline_never_records_a_large_buy (events : list PipelineEvent)
    (token : string) (tracker : TokenTracker.t) (now : Z) :
  SignalEngine.tokenRegistry (runPipeline events SignalEngine.new) !! token = Some tracker →
  recordsOnlySmallBuys tracker
  ∧ (largestBuy (TokenTracker.calculateMetrics now tracker) ≤ CONFIG.filters.maxLargestBuy)%Qc
  ∧ bool_decide (CONFIG.filters.maxLargestBuy
                 < largestBuy (TokenTracker.calculateMetrics now tracker))%Qc = false.
Proof.
  intros Hlookup.
  assert (Hsmall : recordsOnlySmallBuys tracker).
  { eapply (runPipeline_small events SignalEngine.new); [|exact Hlookup].
    apply map_Forall_empty. }
  split; [done|]. pose proof (largestBuy_small now tracker Hsmall) as Hle.
  split; [done|]. apply bool_decide_eq_false_2. by apply Qcle_not_lt.
Qed.

End large_buy_pipeline.


